(** * PrintPos: the HTML-to-receipt rendering engine of [main.py]

    A shallow embedding of [get_char_width], of the element walker
    [process_html_for_escpos.process_element] and of the print job
    [print_html], together with the properties of the layout arithmetic
    that the specification states. The further properties at the end are
    read off the code: the shape of the calls made on the printer, the
    length of table lines, the column widths (with the rounding errors of
    the float arithmetic bounded over the reals), word wrap, the
    fallbacks of the branches and the outcome of a print job.

    Conventions of the embedding:
    - a Python [str] is a list of Unicode code points ([N]); [len] is the
      length of that list, as in Python;
    - a Python [int] is a [Z]; a Python [float] is an IEEE-754 binary64
      value, given by the Standard Library's executable specification
      [SpecFloat] at precision 53 and maximal exponent 1024;
    - a Python exception is the [Raise] outcome of a [result];
    - the printer object [p] is a log of the calls it accepted together
      with an oracle telling which call it rejects;
    - character classes that Python takes from the Unicode database are
      restricted to their ASCII members for [\d] and [str.lower]; the
      white space class is the one of [str.isspace];
    - [int(s)] is taken on strings of ASCII digits with an optional sign
      and surrounding white space: underscores between digits and the
      interpreter's limit on the number of digits are left out;
    - the parsed document holds text nodes and tags; comments and other
      kinds of nodes are left out. *)

From Stdlib Require Import ZArith List Lia Bool Ascii.
From Stdlib Require String.
Import String.StringSyntax.
From Stdlib Require Import SpecFloat PrimFloat FloatOps.
From Stdlib Require Import Reals Lra.
Set Warnings "-inexact-float,-register-all".
Import ListNotations.
Open Scope Z_scope.

(** ** Outcomes of fallible Python code *)

Inductive exn : Type :=
| OverflowError
| ValueError
| ZeroDivisionError
| IndexError
| SinkError.

Inductive result (A : Type) : Type :=
| Ok (a : A)
| Raise (e : exn).

Arguments Ok {A} a.
Arguments Raise {A} e.

Definition rbind {A B : Type} (r : result A) (k : A -> result B) : result B :=
  match r with
  | Ok a => k a
  | Raise e => Raise e
  end.

Notation "'let?' x ':=' r 'in' k" := (rbind r (fun x => k))
  (at level 10, x name, r at level 100, k at level 200).

Fixpoint rmap {A B : Type} (f : A -> result B) (l : list A) : result (list B) :=
  match l with
  | [] => Ok []
  | a :: t => let? b := f a in let? bs := rmap f t in Ok (b :: bs)
  end.

(** ** Python strings *)

Module PyStr.

Definition char : Type := N.
Definition str : Type := list char.

(** An ASCII literal of the source, as a list of code points. *)
Definition lit (s : String.string) : str :=
  map N_of_ascii (String.list_ascii_of_string s).

Arguments lit s%_string_scope.

Definition len (s : str) : Z := Z.of_nat (List.length s).

Fixpoint str_eqb (a b : str) : bool :=
  match a, b with
  | [], [] => true
  | x :: a', y :: b' => N.eqb x y && str_eqb a' b'
  | _, _ => false
  end.

Fixpoint startswith (pat s : str) : bool :=
  match pat, s with
  | [], _ => true
  | x :: pat', y :: s' => N.eqb x y && startswith pat' s'
  | _ :: _, [] => false
  end.

(** [pat in s] *)
Fixpoint contains (pat s : str) : bool :=
  startswith pat s ||
  match s with
  | [] => false
  | _ :: s' => contains pat s'
  end.

(** [x in l] for a list of strings *)
Definition mem (x : str) (l : list str) : bool := existsb (str_eqb x) l.

(** The characters for which [str.isspace] holds. *)
Definition is_space (c : char) : bool :=
  ((9 <=? c) && (c <=? 13) || (28 <=? c) && (c <=? 32) ||
   (c =? 133) || (c =? 160) || (c =? 5760) ||
   (8192 <=? c) && (c <=? 8202) || (c =? 8232) || (c =? 8233) ||
   (c =? 8239) || (c =? 8287) || (c =? 12288))%N.

Definition is_digit (c : char) : bool := ((48 <=? c) && (c <=? 57))%N.

Definition lower_char (c : char) : char :=
  if ((65 <=? c) && (c <=? 90))%N then (c + 32)%N else c.

Definition lower (s : str) : str := map lower_char s.

Definition space : char := 32%N.
Definition newline : char := 10%N.

(** [c * n] for a one-character string [c] *)
Definition times (c : char) (n : Z) : str := repeat c (Z.to_nat n).

(** [s[:n]] *)
Definition slice_to (n : Z) (s : str) : str :=
  if n <? 0 then firstn (Z.to_nat (len s + n)) s else firstn (Z.to_nat n) s.

(** [s[n:]] *)
Definition slice_from (n : Z) (s : str) : str :=
  if n <? 0 then skipn (Z.to_nat (len s + n)) s else skipn (Z.to_nat n) s.

Definition ljust (width : Z) (s : str) : str := s ++ times space (width - len s).

Definition rjust (width : Z) (s : str) : str := times space (width - len s) ++ s.

(** [str.center]: of an odd margin the extra blank goes to the left
    exactly when the width is odd as well. *)
Definition center (width : Z) (s : str) : str :=
  let marg := width - len s in
  if marg <=? 0 then s
  else
    let left := marg / 2 + (if Z.odd marg && Z.odd width then 1 else 0) in
    times space left ++ s ++ times space (marg - left).

Fixpoint join (sep : str) (l : list str) : str :=
  match l with
  | [] => []
  | [s] => s
  | s :: t => s ++ sep ++ join sep t
  end.

Fixpoint lstrip (s : str) : str :=
  match s with
  | c :: t => if is_space c then lstrip t else s
  | [] => []
  end.

Definition rstrip (s : str) : str := rev (lstrip (rev s)).

Definition strip (s : str) : str := rstrip (lstrip s).

(** [s.split()]: the maximal runs of characters that are not white space.
    [cur] holds the current run, reversed. *)
Fixpoint split_acc (cur : str) (s : str) : list str :=
  match s with
  | [] => match cur with [] => [] | _ => [rev cur] end
  | c :: t =>
      if is_space c
      then match cur with [] => split_acc [] t | _ => rev cur :: split_acc [] t end
      else split_acc (c :: cur) t
  end.

Definition split (s : str) : list str := split_acc [] s.

(** [s.replace(a, b)] for one-character strings [a] and [b] *)
Definition replace_char (a b : char) (s : str) : str :=
  map (fun c => if N.eqb c a then b else c) s.

(** The maximal prefix of decimal digits and the rest. *)
Fixpoint span_digits (s : str) : str * str :=
  match s with
  | c :: t => if is_digit c then let (d, r) := span_digits t in (c :: d, r) else ([], s)
  | [] => ([], [])
  end.

Fixpoint skip_spaces (s : str) : str :=
  match s with
  | c :: t => if is_space c then skip_spaces t else s
  | [] => []
  end.

(** [int(s)] for a string of decimal digits *)
Definition int_of_digits (s : str) : Z :=
  fold_left (fun acc c => 10 * acc + (Z.of_N c - 48)) s 0.

End PyStr.

Import PyStr.

(** ** Python numbers *)

Module PyNum.

(** A Python [float]: an IEEE-754 binary64 value. *)
Definition float : Type := spec_float.
Definition prec : Z := 53.
Definition emax : Z := 1024.

(** The integer [z] as an unrounded dyadic number. *)
Definition exact_int (z : Z) : float :=
  match z with
  | Z0 => S754_zero false
  | Zpos p => S754_finite false p 0
  | Zneg p => S754_finite true p 0
  end.

(** [float(z)]: rounded to nearest, ties to even; an [int] that rounds
    past the largest double raises [OverflowError]. *)
Definition float_of_int (z : Z) : result float :=
  match binary_normalize prec emax z 0 false with
  | S754_infinity _ => Raise OverflowError
  | f => Ok f
  end.

(** [a / b] on two [int]s: the correctly rounded quotient. *)
Definition int_truediv (a b : Z) : result float :=
  if b =? 0 then Raise ZeroDivisionError
  else
    match SFdiv prec emax (exact_int a) (exact_int b) with
    | S754_infinity _ => Raise OverflowError
    | f => Ok f
    end.

(** The decimal [n / 10^k], correctly rounded: a float literal of the
    source, or [float(s)] for a string [s] of digits with [k] of them
    after the point. *)
Definition decimal (n k : Z) : float :=
  SFdiv prec emax (exact_int n) (exact_int (10 ^ k)).

Definition float_mul (x y : float) : float := SFmul prec emax x y.

(** [x / y] on floats *)
Definition float_div (x y : float) : result float :=
  match y with
  | S754_zero _ => Raise ZeroDivisionError
  | _ => Ok (SFdiv prec emax x y)
  end.

(** [a * x] for an [int] [a] and a [float] [x] *)
Definition int_mul_float (a : Z) (x : float) : result float :=
  let? fa := float_of_int a in Ok (float_mul fa x).

(** [int(x)]: truncation towards zero *)
Definition float_trunc (x : float) : result Z :=
  match x with
  | S754_nan => Raise ValueError
  | S754_infinity _ => Raise OverflowError
  | S754_zero _ => Ok 0
  | S754_finite s m e =>
      let a := if 0 <=? e then Zpos m * 2 ^ e else Zpos m / 2 ^ (- e) in
      Ok (if s then - a else a)
  end.

(** Truth value of a float in a condition *)
Definition float_truthy (x : float) : bool :=
  match x with
  | S754_zero _ => false
  | _ => true
  end.

(** [x.is_integer()] *)
Definition float_is_integer (x : float) : bool :=
  match x with
  | S754_zero _ => true
  | S754_finite _ m e => if 0 <=? e then true else Zpos m mod 2 ^ (- e) =? 0
  | _ => false
  end.

(** Exact comparison of a float with an [int], as Python does it. *)
Definition float_compare_int (x : float) (z : Z) : option comparison :=
  match x with
  | S754_nan => None
  | S754_infinity s => Some (if s then Lt else Gt)
  | S754_zero _ => Some (0 ?= z)
  | S754_finite s m e =>
      let sm := if s then Zneg m else Zpos m in
      Some (if 0 <=? e then sm * 2 ^ e ?= z else sm ?= z * 2 ^ (- e))
  end.

(** A number as a Python object: [min] and [max] return one of their
    arguments, whichever type it has. *)
Inductive pyval : Type :=
| PyInt (z : Z)
| PyFloat (x : float).

Definition py_lt (a b : pyval) : bool :=
  match a, b with
  | PyInt x, PyInt y => x <? y
  | PyFloat x, PyInt z =>
      match float_compare_int x z with Some Lt => true | _ => false end
  | PyInt z, PyFloat x =>
      match float_compare_int x z with Some Gt => true | _ => false end
  | PyFloat x, PyFloat y => SFltb x y
  end.

Definition py_le (a b : pyval) : bool :=
  match a, b with
  | PyInt x, PyInt y => x <=? y
  | PyFloat x, PyInt z =>
      match float_compare_int x z with Some Lt | Some Eq => true | _ => false end
  | PyInt z, PyFloat x =>
      match float_compare_int x z with Some Gt | Some Eq => true | _ => false end
  | PyFloat x, PyFloat y => SFleb x y
  end.

(** [min(a, b)] keeps [a] unless [b < a]; [max(a, b)] keeps [a] unless [b > a]. *)
Definition py_min (a b : pyval) : pyval := if py_lt b a then b else a.
Definition py_max (a b : pyval) : pyval := if py_lt a b then b else a.

(** [int(v)] *)
Definition py_int (v : pyval) : result Z :=
  match v with
  | PyInt z => Ok z
  | PyFloat x => float_trunc x
  end.

Definition py_is_int (v : pyval) : bool :=
  match v with
  | PyInt _ => true
  | PyFloat _ => false
  end.

(** Whether the number denoted is a whole number, whatever its type. *)
Definition py_is_integral (v : pyval) : bool :=
  match v with
  | PyInt _ => true
  | PyFloat x => float_is_integer x
  end.

End PyNum.

Import PyNum.

(** ** Layout metrics: [get_char_width] *)

Fixpoint dict_get {V : Type} (d : list (str * V)) (k : str) (default : V) : V :=
  match d with
  | [] => default
  | (k', v) :: d' => if str_eqb k k' then v else dict_get d' k default
  end.

Definition base_widths : list (str * list (str * Z)) :=
  [ (lit "80mm", [ (lit "normal", 48); (lit "small", 64) ]);
    (lit "58mm", [ (lit "normal", 32); (lit "small", 42) ]) ].

Definition base_width_of (paper_size font_size : str) : Z :=
  dict_get (dict_get base_widths paper_size []) font_size 48.

Definition get_char_width (paper_size font_size content_type : str) : result pyval :=
  let base_width := base_width_of paper_size font_size in
  if str_eqb content_type (lit "table") then
    if str_eqb paper_size (lit "58mm") then Ok (PyInt base_width)
    else
      let? v := py_int (py_min (PyInt base_width) (PyInt (base_width * 1))) in
      Ok (PyInt v)
  else if str_eqb content_type (lit "header") then
    let? x := int_mul_float base_width (decimal 11 1) in
    Ok (py_min (PyInt (base_width + 4)) (PyFloat x))
  else if str_eqb content_type (lit "narrow") then
    let? x := int_mul_float base_width (decimal 8 1) in
    Ok (py_max (PyInt (base_width - 8)) (PyFloat x))
  else if str_eqb content_type (lit "wide") then
    if str_eqb paper_size (lit "58mm") then
      let? x := int_mul_float base_width (decimal 78 2) in
      Ok (py_min (PyInt base_width) (PyFloat x))
    else
      let? x := int_mul_float base_width (decimal 7 1) in
      Ok (py_min (PyInt base_width) (PyFloat x))
  else if str_eqb paper_size (lit "58mm") then
    let? v := py_int (PyInt base_width) in
    Ok (PyInt v)
  else
    let? x := int_mul_float base_width (decimal 159 2) in
    let? v := py_int (py_max (PyInt base_width) (PyFloat x)) in
    Ok (PyInt v).

(** [int(get_char_width(...))], as the callers that need a count use it. *)
Definition char_width_int (paper_size font_size content_type : str) : result Z :=
  let? v := get_char_width paper_size font_size content_type in py_int v.

(** The contract of [effectiveWidth] as the specification documents it,
    in exact arithmetic and in hundredths of a character so that the
    multipliers are whole numbers: [table] is the base width; [header] is
    [min(base+4, base*1.1)]; [narrow] is [max(base-8, base*0.8)]; [wide]
    is [min(base, base*0.78)] on 58mm paper and [min(base, base*0.7)]
    otherwise; the default category is the base width on 58mm paper and
    [max(base, base*1.59)] otherwise. *)
Definition effectiveWidth_hundredths (paper_size content_type : str) (base : Z) : Z :=
  if str_eqb content_type (lit "table") then 100 * base
  else if str_eqb content_type (lit "header") then Z.min (100 * (base + 4)) (110 * base)
  else if str_eqb content_type (lit "narrow") then Z.max (100 * (base - 8)) (80 * base)
  else if str_eqb content_type (lit "wide") then
    if str_eqb paper_size (lit "58mm") then Z.min (100 * base) (78 * base)
    else Z.min (100 * base) (70 * base)
  else if str_eqb paper_size (lit "58mm") then 100 * base
  else Z.max (100 * base) (159 * base).

(** A float equal to [h] hundredths up to a relative error of [2^-50]:
    with the value [m * 2^e] of the float, [|100 * m * 2^e - h|] is at
    most [h * 2^-50], compared in integers. *)
Definition float_close_to_hundredths (x : float) (h : Z) : bool :=
  match x with
  | S754_finite false m e =>
      if 0 <=? e then Z.abs (100 * Zpos m * 2 ^ e - h) * 2 ^ 50 <=? h
      else Z.abs (100 * Zpos m - h * 2 ^ (- e)) * 2 ^ 50 <=? h * 2 ^ (- e)
  | _ => false
  end.

(** A result agrees with a documented value of [h] hundredths when
    [int()] of it is the integer part of the documented value and, if it
    is a float, it is the documented value up to rounding. *)
Definition agrees_with_contract (v : pyval) (h : Z) : Prop :=
  py_int v = Ok (h / 100) /\
  match v with
  | PyInt _ => True
  | PyFloat x => float_close_to_hundredths x h = true
  end.

(** The bounds the categories are documented with, for base width [base]:
    [table] keeps the base width, [header] adds at most 4 characters,
    [narrow] removes at most 8, [wide] stays below the base width and the
    default category never goes below it and is an [int]; and in every
    category the result agrees with the documented formula. *)
Definition within_documented_bounds (paper_size content_type : str) (base : Z)
  (v : pyval) : Prop :=
  (if str_eqb content_type (lit "table") then v = PyInt base
   else if str_eqb content_type (lit "header") then
     py_le (PyInt base) v = true /\ py_le v (PyInt (base + 4)) = true
   else if str_eqb content_type (lit "narrow") then
     py_le (PyInt (base - 8)) v = true /\ py_le v (PyInt base) = true
   else if str_eqb content_type (lit "wide") then
     py_lt (PyInt 0) v = true /\ py_lt v (PyInt base) = true
   else py_le (PyInt base) v = true /\ py_is_int v = true) /\
  agrees_with_contract v (effectiveWidth_hundredths paper_size content_type base).

(** ** The parsed document

    What [BeautifulSoup(html_content, "html.parser")] hands to the walker:
    text nodes and tags with a name, attributes and children. *)

Inductive node : Type :=
| Text (s : str)
| Elem (name : str) (attrs : list (str * str)) (children : list node).

Definition is_tag (n : node) : bool :=
  match n with
  | Elem (_ :: _) _ _ => true
  | _ => false
  end.

Definition tag_name (n : node) : str :=
  match n with
  | Elem name _ _ => name
  | Text _ => []
  end.

Definition children (n : node) : list node :=
  match n with
  | Elem _ _ cs => cs
  | Text _ => []
  end.

Fixpoint attr_lookup (k : str) (attrs : list (str * str)) : option str :=
  match attrs with
  | [] => None
  | (k', v) :: rest => if str_eqb k k' then Some v else attr_lookup k rest
  end.

(** [element.has_attr(k)] *)
Definition has_attr (n : node) (k : str) : bool :=
  match n with
  | Elem _ attrs _ => match attr_lookup k attrs with Some _ => true | None => false end
  | Text _ => false
  end.

(** [element.get(k)] *)
Definition get_attr (n : node) (k : str) : option str :=
  match n with
  | Elem _ attrs _ => attr_lookup k attrs
  | Text _ => None
  end.

(** [element.get(k, default)] *)
Definition get_attr_or (n : node) (k : str) (default : str) : str :=
  match get_attr n k with
  | Some v => v
  | None => default
  end.

(** [element.get('class', [])]: the parser stores the class attribute as
    the list of its white-space separated names. *)
Definition get_class (n : node) : list str :=
  match get_attr n (lit "class") with
  | Some v => split v
  | None => []
  end.

(** The text nodes below a node, in document order. *)
Fixpoint all_strings (n : node) : list str :=
  match n with
  | Text s => [s]
  | Elem _ _ cs => flat_map all_strings cs
  end.

(** [element.get_text(strip=True)]: every text node stripped, the empty
    ones dropped, the rest concatenated. *)
Definition get_text (n : node) : str :=
  concat (filter (fun s => negb (str_eqb s [])) (map strip (all_strings n))).

(** The nodes strictly below a node, in document order. *)
Fixpoint descendants (n : node) : list node :=
  match n with
  | Text _ => []
  | Elem _ _ cs => flat_map (fun c => c :: descendants c) cs
  end.

(** [element.find_all(names)] *)
Definition find_all (names : list str) (n : node) : list node :=
  filter (fun d => is_tag d && mem (tag_name d) names) (descendants n).

(** [element.find(name)] *)
Definition find (name : str) (n : node) : option node :=
  hd_error (find_all [name] n).

(** ** Table layout engine *)

Inductive alignment : Type := AlignLeft | AlignCenter | AlignRight.

Definition alignment_eqb (a b : alignment) : bool :=
  match a, b with
  | AlignLeft, AlignLeft | AlignCenter, AlignCenter | AlignRight, AlignRight => true
  | _, _ => false
  end.

(** The characters of the class [[\d$€£¥₹.,]]. *)
Definition numeric_char (c : char) : bool :=
  (is_digit c || (c =? 36) || (c =? 8364) || (c =? 163) || (c =? 165) ||
   (c =? 8377) || (c =? 46) || (c =? 44))%N.

(** [bool(re.search(r'[\d$€£¥₹.,]+', text))] *)
Definition is_numeric_text (text : str) : bool := existsb numeric_char text.

(** The [text-align] declaration found in a lower-cased style string. *)
Definition style_align (style : str) : alignment :=
  if contains (lit "text-align:right") style then AlignRight
  else if contains (lit "text-align:center") style then AlignCenter
  else if contains (lit "text-align:left") style then AlignLeft
  else AlignLeft.

(** [text[:width] if len(text) > width else text] *)
Definition truncate (width : Z) (text : str) : str :=
  if len text >? width then slice_to width text else text.

Definition apply_align (a : alignment) (width : Z) (text : str) : str :=
  match a with
  | AlignRight => rjust width text
  | AlignCenter => center width text
  | AlignLeft => ljust width text
  end.

(** The alignment a single-column row ends up with. *)
Definition single_column_align (cell : node) (text : str) : alignment :=
  let cell_align := AlignLeft in
  let is_numeric := is_numeric_text text in
  let cell_align :=
    if has_attr cell (lit "style")
    then style_align (lower (get_attr_or cell (lit "style") []))
    else cell_align in
  if alignment_eqb cell_align AlignLeft && is_numeric then AlignRight else cell_align.

Definition single_column_line (table_width : Z) (cell : node) (text : str) : str :=
  apply_align (single_column_align cell text) table_width (truncate table_width text).

(** *** Inline widths of a cell *)

(** Leftmost match of a pattern given by its matcher at one position. *)
Fixpoint re_search {A : Type} (m : str -> option A) (s : str) : option A :=
  match m s with
  | Some a => Some a
  | None =>
      match s with
      | [] => None
      | _ :: t => re_search m t
      end
  end.

(** [width\s*:\s*] at the start of [s]; what follows it. *)
Definition match_width_colon (s : str) : option str :=
  if startswith (lit "width") s then
    match skip_spaces (skipn 5 s) with
    | c :: r => if (c =? 58)%N then Some (skip_spaces r) else None
    | [] => None
    end
  else None.

(** [width\s*:\s*(\d+(?:\.\d+)?)%] at the start of [s]: the digits before
    and after the point. *)
Definition match_width_percent (s : str) : option (str * str) :=
  match match_width_colon s with
  | None => None
  | Some r =>
      let (d, r1) := span_digits r in
      match d with
      | [] => None
      | _ :: _ =>
          let '(frac, r2) :=
            match r1 with
            | c :: r1' =>
                if (c =? 46)%N then
                  let (fd, r2) := span_digits r1' in
                  match fd with
                  | [] => ([], r1)
                  | _ :: _ => (fd, r2)
                  end
                else ([], r1)
            | [] => ([], r1)
            end in
          match r2 with
          | c :: _ => if (c =? 37)%N then Some (d, frac) else None
          | [] => None
          end
      end
  end.

(** [width\s*:\s*(\d+)(?:px|ch|em|%)?] at the start of [s]: the digits. *)
Definition match_width_value (s : str) : option str :=
  match match_width_colon s with
  | None => None
  | Some r =>
      match fst (span_digits r) with
      | [] => None
      | d => Some d
      end
  end.

(** [float(group)] for the percentage found *)
Definition float_of_decimal (d frac : str) : float :=
  decimal (int_of_digits (d ++ frac)) (len frac).

Record style_info : Type := mk_style_info {
  width_percent : option float;
  width_fixed : option Z;
  align : alignment;
  index : nat;
  content_length : Z;
  is_numeric : bool
}.

(** Truth of [style_info['width_fixed']] and [style_info['width_percent']]. *)
Definition fixed_truthy (st : style_info) : bool :=
  match width_fixed st with
  | Some v => negb (v =? 0)
  | None => false
  end.

Definition percent_truthy (st : style_info) : bool :=
  match width_percent st with
  | Some x => float_truthy x
  | None => false
  end.

(** The width declarations of a lower-cased style string. *)
Definition style_widths (style : str) : result (option float * option Z) :=
  let wp :=
    match re_search match_width_percent style with
    | Some (d, frac) => Some (float_of_decimal d frac)
    | None => None
    end in
  match re_search match_width_value style with
  | Some g =>
      let value := int_of_digits g in
      if contains (lit "ch") style then Ok (wp, Some value)
      else if contains (lit "em") style then
        let? x := int_mul_float value (decimal 14 1) in
        let? v := float_trunc x in
        Ok (wp, Some (Z.max 1 v))
      else if contains (lit "%") style then
        let? x := float_of_int value in
        Ok (Some x, None)
      else Ok (wp, Some (Z.max 1 (value / 8)))
  | None => Ok (wp, None)
  end.

(** The dictionary built for cell [i] with text [col]. *)
Definition cell_style (i : nat) (cell : node) (col : str) : result style_info :=
  if has_attr cell (lit "style") then
    let style := lower (get_attr_or cell (lit "style") []) in
    let? w := style_widths style in
    Ok (mk_style_info (fst w) (snd w) (style_align style) i (len col) (is_numeric_text col))
  else Ok (mk_style_info None None AlignLeft i (len col) (is_numeric_text col)).

Fixpoint cell_styles_from (i : nat) (cells : list node) (cols : list str)
  : result (list style_info) :=
  match cells, cols with
  | cell :: cells', col :: cols' =>
      let? st := cell_style i cell col in
      let? rest := cell_styles_from (S i) cells' cols' in
      Ok (st :: rest)
  | _, _ => Ok []
  end.

(** The indices appended to [flexible_columns]. *)
Definition flexible_columns (styles : list style_info) : list nat :=
  map index (filter (fun st => negb (fixed_truthy st) && negb (percent_truthy st)) styles).

Definition zsum (l : list Z) : Z := fold_right Z.add 0 l.

(** First pass over the styles: percentages, then fixed widths, else 0. *)
Definition initial_width (table_width : Z) (st : style_info) : result Z :=
  if percent_truthy st then
    match width_percent st with
    | Some pct =>
        let? x := int_mul_float table_width pct in
        let? h := float_of_int 100 in
        let? q := float_div x h in
        let? w := float_trunc q in
        Ok (Z.max 1 w)
    | None => Ok 0
    end
  else if fixed_truthy st then
    match width_fixed st with
    | Some v => Ok v
    | None => Ok 0
    end
  else Ok 0.

(** [l[i] = v] *)
Fixpoint list_set (l : list Z) (i : nat) (v : Z) : list Z :=
  match l, i with
  | [], _ => []
  | _ :: t, O => v :: t
  | x :: t, S j => x :: list_set t j v
  end.

(** Shares proportional to the content lengths of the flexible cells. *)
Fixpoint distribute_by_content (remaining total : Z) (styles : list style_info)
  (flex : list nat) (col_widths : list Z) : result (list Z) :=
  match flex with
  | [] => Ok col_widths
  | col_idx :: flex' =>
      let clen :=
        match nth_error styles col_idx with
        | Some st => content_length st
        | None => 0
        end in
      let? content_ratio := int_truediv clen total in
      let? x := int_mul_float remaining content_ratio in
      let? w := float_trunc x in
      distribute_by_content remaining total styles flex'
        (list_set col_widths col_idx (Z.max 1 w))
  end.

(** Even shares when every flexible cell is empty; [i] enumerates [flex]. *)
Fixpoint distribute_evenly (flex_width extra_width : Z) (i : Z) (flex : list nat)
  (col_widths : list Z) : list Z :=
  match flex with
  | [] => col_widths
  | col_idx :: flex' =>
      distribute_evenly flex_width extra_width (i + 1) flex'
        (list_set col_widths col_idx
           (flex_width + (if i <? extra_width then 1 else 0)))
  end.

Definition distribute_flexible (table_width : Z) (styles : list style_info)
  (col_widths : list Z) : result (list Z) :=
  let flex := flexible_columns styles in
  let remaining_for_flexible := table_width - zsum col_widths in
  if negb (Nat.eqb (List.length flex) 0) && (remaining_for_flexible >? 0) then
    let total_content_length :=
      zsum (map (fun i => match nth_error styles i with
                          | Some st => content_length st
                          | None => 0
                          end) flex) in
    if total_content_length >? 0 then
      distribute_by_content remaining_for_flexible total_content_length styles flex col_widths
    else
      let n := Z.of_nat (List.length flex) in
      let flex_width := Z.max 1 (remaining_for_flexible / n) in
      let extra_width := remaining_for_flexible mod n in
      Ok (distribute_evenly flex_width extra_width 0 flex col_widths)
  else Ok col_widths.

(** [for i in range(k): col_widths[i] += d] *)
Fixpoint bump (k : nat) (d : Z) (col_widths : list Z) : list Z :=
  match k, col_widths with
  | S k', w :: t => (w + d) :: bump k' d t
  | _, _ => col_widths
  end.

(** [max(1, int(w * factor))] *)
Definition scale_width (factor : float) (w : Z) : result Z :=
  let? x := int_mul_float w factor in
  let? v := float_trunc x in
  Ok (Z.max 1 v).

(** The widths after the proportional reduction, before the correction. *)
Definition scaled_widths (table_width : Z) (col_widths : list Z) : result (list Z) :=
  let? factor := int_truediv table_width (zsum col_widths) in
  rmap (scale_width factor) col_widths.

(** "Asegurar que la suma no exceda el ancho total" *)
Definition fit_total (table_width : Z) (col_widths : list Z) : result (list Z) :=
  let total_width := zsum col_widths in
  if total_width >? table_width then
    let? scaled := scaled_widths table_width col_widths in
    let diff := table_width - zsum scaled in
    Ok (bump (Nat.min (Z.to_nat (Z.abs diff)) (List.length scaled))
             (if diff >? 0 then 1 else -1) scaled)
  else Ok col_widths.


Definition column_widths (table_width : Z) (styles : list style_info) : result (list Z) :=
  let? col_widths := rmap (initial_width table_width) styles in
  let? col_widths := distribute_flexible table_width styles col_widths in
  fit_total table_width col_widths.

Definition format_col (col : str) (width : Z) (st : style_info) : str :=
  apply_align (align st) width (truncate width col).

(** [zip(cols, col_widths, cell_styles)], each cell formatted *)
Fixpoint format_cols (cols : list str) (col_widths : list Z) (styles : list style_info)
  : list str :=
  match cols, col_widths, styles with
  | col :: cols', w :: ws', st :: sts' => format_col col w st :: format_cols cols' ws' sts'
  | _, _, _ => []
  end.

Definition multi_column_line (table_width : Z) (cells : list node) (cols : list str)
  : result str :=
  let? styles := cell_styles_from 0 cells cols in
  let? col_widths := column_widths table_width styles in
  Ok (concat (format_cols cols col_widths styles)).

(** "Asegurar que la linea use exactamente el ancho de la tabla" *)
Definition fit_line (table_width : Z) (line : str) : str :=
  if len line >? table_width then slice_to table_width line
  else if len line <? table_width then ljust table_width line
  else line.

(** [cols]: the text of every cell, line feeds replaced by blanks. *)
Definition cell_texts (cells : list node) : list str :=
  map (fun cell => replace_char newline space (get_text cell)) cells.

(** The text line of a row that holds no [<hr>], from its [td]/[th] cells. *)
Definition table_row_line (table_width : Z) (cells : list node) : result str :=
  let cols := cell_texts cells in
  let? line :=
    match cells, cols with
    | [cell], [text] => Ok (single_column_line table_width cell text)
    | _, _ => multi_column_line table_width cells cols
    end in
  Ok (fit_line table_width line).

(** ** Paragraph word wrap *)

(** The loop over [words] of the [p] branch: [lines] is kept reversed. *)
Fixpoint wrap_words (paragraph_width : Z) (words : list str) (lines : list str)
  (current_line : str) : list str * str :=
  match words with
  | [] => (lines, current_line)
  | word :: words' =>
      let test_line :=
        current_line ++
        (match current_line with [] => word | _ :: _ => space :: word end) in
      if len test_line <=? paragraph_width then
        wrap_words paragraph_width words' lines test_line
      else
        match current_line with
        | _ :: _ => wrap_words paragraph_width words' (current_line :: lines) word
        | [] =>
            wrap_words paragraph_width words'
              (slice_to paragraph_width word :: lines)
              (if len word >? paragraph_width then slice_from paragraph_width word else [])
        end
  end.

(** The lines of a paragraph whose text is longer than the width. *)
Definition wrap_lines (paragraph_width : Z) (text : str) : list str :=
  let '(lines, current_line) := wrap_words paragraph_width (split text) [] [] in
  rev (match current_line with
       | [] => lines
       | _ :: _ => current_line :: lines
       end).

(** What the [p] branch hands to [p.text]. *)
Definition paragraph_output (paragraph_width : Z) (text : str) : str :=
  if len text >? paragraph_width then
    join [newline] (wrap_lines paragraph_width text) ++ [newline]
  else text ++ [newline].

(** The text lines of a paragraph as they reach the paper. *)
Definition paragraph_lines (paragraph_width : Z) (text : str) : list str :=
  if len text >? paragraph_width then wrap_lines paragraph_width text else [text].

(** ** Horizontal rules *)

(** The fill character chosen from the style and the class list. *)
Definition hr_line_char (line_style : str) (line_class : list str) : char :=
  if contains (lit "border-style:double") line_style || mem (lit "double") line_class
  then 61%N
  else if contains (lit "border-style:dotted") line_style || mem (lit "dotted") line_class
  then 45%N
  else if contains (lit "border-style:dashed") line_style || mem (lit "dashed") line_class
  then 45%N
  else if mem (lit "solid") line_class || mem (lit "thick") line_class
  then 35%N
  else 45%N.

(** [line_char] of an [<hr>] element *)
Definition hr_char (element : node) : char :=
  let line_style :=
    if has_attr element (lit "style")
    then lower (get_attr_or element (lit "style") [])
    else [] in
  let line_class :=
    if has_attr element (lit "class") then get_class element else [] in
  hr_line_char line_style line_class.

(** ** Images *)

(** [int(s)] for an attribute value: optional white space around an
    optional sign and decimal digits. *)
Definition int_of_attr (s : str) : option Z :=
  let t := strip s in
  let '(neg, body) :=
    match t with
    | c :: r => if (c =? 45)%N then (true, r) else if (c =? 43)%N then (false, r) else (false, t)
    | [] => (false, t)
    end in
  match span_digits body with
  | ((_ :: _) as d, []) => Some (if neg then - int_of_digits d else int_of_digits d)
  | _ => None
  end.

(** [(width|height)\s*:\s*(\d+)px] at the start of [s] *)
Definition match_px (key : str) (s : str) : option str :=
  if startswith key s then
    match skip_spaces (skipn (List.length key) s) with
    | c :: r =>
        if (c =? 58)%N then
          let (d, rest) := span_digits (skip_spaces r) in
          match d with
          | [] => None
          | _ :: _ => if startswith (lit "px") rest then Some d else None
          end
        else None
    | [] => None
    end
  else None.

Definition truthy_dim (d : option Z) : bool :=
  match d with
  | Some v => negb (v =? 0)
  | None => false
  end.

(** The requested [width] and [height]: the attributes first, then the
    pixel values of the style, which overwrite them. *)
Definition image_requested (element : node) : option Z * option Z :=
  let width :=
    match get_attr element (lit "width") with
    | Some v => int_of_attr v
    | None => None
    end in
  let height :=
    match get_attr element (lit "height") with
    | Some v => int_of_attr v
    | None => None
    end in
  match get_attr element (lit "style") with
  | Some style =>
      (match re_search (match_px (lit "width")) style with
       | Some d => Some (int_of_digits d)
       | None => width
       end,
       match re_search (match_px (lit "height")) style with
       | Some d => Some (int_of_digits d)
       | None => height
       end)
  | None => (width, height)
  end.

(** [int((a * b) / c)] *)
Definition int_ratio (a b c : Z) : result Z :=
  let? q := int_truediv (a * b) c in float_trunc q.

(** The size handed to [image.resize]. *)
Definition image_target_size (max_width_px : Z) (width height : option Z)
  (orig_w orig_h : Z) : result (Z * Z) :=
  let? size :=
    if truthy_dim width || truthy_dim height then
      Ok (if truthy_dim width then match width with Some w => w | None => orig_w end
          else orig_w,
          if truthy_dim height then match height with Some h => h | None => orig_h end
          else orig_h)
    else if orig_w >? max_width_px then
      let? new_h := int_ratio max_width_px orig_h orig_w in
      Ok (max_width_px, new_h)
    else Ok (orig_w, orig_h) in
  let '(new_w, new_h) := size in
  if new_w >? max_width_px then
    let? new_h := int_ratio max_width_px new_h new_w in
    Ok (max_width_px, new_h)
  else Ok (new_w, new_h).

Definition max_width_px (paper_size : str) : Z :=
  if str_eqb paper_size (lit "80mm") then 576 else 384.

(** [s.split(",")] *)
Fixpoint split_on (sep : char) (cur : str) (s : str) : list str :=
  match s with
  | [] => [rev cur]
  | c :: t => if N.eqb c sep then rev cur :: split_on sep [] t else split_on sep (c :: cur) t
  end.

(** ** The printer sink *)

Inductive kwarg : Type :=
| KAlign (a : alignment)
| KBold (b : bool)
| KItalic (b : bool)
| KUnderline (n : Z)
| KFont (n : Z)
| KCustomSize (b : bool)
| KWidth (n : Z)
| KHeight (n : Z).

(** The calls the walker makes on the printer object [p]. *)
Inductive sink_op : Type :=
| OpSet (kwargs : list kwarg)
| OpRaw (bytes : list Z)
| OpText (txt : str)
| OpBlockText (txt : str)
| OpLn (count : Z)
| OpImage (width height : Z)
| OpQr (data : str) (size : Z)
| OpBarcode (code bc_type : str) (width height : Z) (pos font : str).

(** A computation on the sink: from the log of the calls accepted so far
    to an outcome and the new log. *)
Definition M (A : Type) : Type := list sink_op -> result A * list sink_op.

Definition ret {A : Type} (a : A) : M A := fun log => (Ok a, log).

Definition bind {A B : Type} (m : M A) (k : A -> M B) : M B :=
  fun log =>
    match m log with
    | (Ok a, log') => k a log'
    | (Raise e, log') => (Raise e, log')
    end.

Notation "m ';;' k" := (bind m (fun _ => k))
  (at level 61, right associativity).

(** A pure computation that may raise. *)
Definition lift {A : Type} (r : result A) : M A := fun log => (r, log).

(** [try: body / except: handler]: the calls made before the exception
    stay made. *)
Definition try_except (body handler : M unit) : M unit :=
  fun log =>
    match body log with
    | (Ok a, log') => (Ok a, log')
    | (Raise _, log') => handler log'
    end.

(** [for x in l: body(x)] *)
Fixpoint for_each {A : Type} (body : A -> M unit) (l : list A) : M unit :=
  match l with
  | [] => ret tt
  | x :: t => body x ;; for_each body t
  end.

Definition esc_size (n : Z) : sink_op := OpRaw [27; 33; n].
Definition esc_spacing (n : Z) : sink_op := OpRaw [27; 51; n].

(** The size code of a heading tag. *)
Definition heading_size (element_name : str) : Z :=
  if str_eqb element_name (lit "h1") then 8
  else if str_eqb element_name (lit "h2") then 7
  else if str_eqb element_name (lit "h3") then 6
  else if str_eqb element_name (lit "h4") then 5
  else if str_eqb element_name (lit "h5") then 4
  else if str_eqb element_name (lit "h6") then 3
  else 1.

Definition is_heading (element_name : str) : bool :=
  mem element_name [lit "h1"; lit "h2"; lit "h3"; lit "h4"; lit "h5"; lit "h6"].

Definition is_container (element_name : str) : bool :=
  mem element_name
    [lit "div"; lit "section"; lit "article"; lit "main"; lit "header"; lit "footer"].

(** [max(0, (char_width - len(text)) // 2)] *)
Definition center_padding (char_width : Z) (text : str) : Z :=
  Z.max 0 ((char_width - len text) / 2).

Section Walker.

(** The sink: whether it raises on a call, given the calls it accepted. *)
Variable rejects : list sink_op -> sink_op -> bool.

(** [Image.open(BytesIO(base64.b64decode(payload))).size], or nothing
    when decoding or opening raises. *)
Variable open_image : str -> option (Z * Z).

(** Whether [image.resize((w, h), LANCZOS)] raises. *)
Variable resize_raises : Z -> Z -> bool.

Variables paper_size font_size line_spacing : str.

(** [char_width = get_char_width(paper_size, font_size)] *)
Variable char_width : Z.

Definition call (op : sink_op) : M unit :=
  fun log => if rejects log op then (Raise SinkError, log) else (Ok tt, log ++ [op]).

Definition set_line_spacing (spacing : str) : M unit :=
  try_except
    (if str_eqb spacing (lit "compact") then call (esc_spacing 10)
     else if str_eqb spacing (lit "wide") then call (esc_spacing 60)
     else call (esc_spacing 50))
    (ret tt).

(** A heading centred by the sink, with the manual padding as fallback. *)
Definition emit_heading (first_bold : bool) (size : Z) (text : str) : M unit :=
  try_except
    (call (OpSet (KAlign AlignCenter :: KBold first_bold ::
                  (if first_bold then [] else [KUnderline 0]))) ;;
     (if 1 <? size then call (esc_size size) else ret tt) ;;
     call (OpText text) ;;
     call (OpText [newline]) ;;
     call (esc_size 0) ;;
     call (OpSet [KAlign AlignLeft; KBold false]))
    (let padding := center_padding char_width text in
     call (OpSet [KBold true]) ;;
     (if 1 <? size then call (esc_size size) else ret tt) ;;
     call (OpText (times space padding ++ text ++ [newline])) ;;
     call (esc_size 0) ;;
     call (OpSet [KBold false])).

(** A text centred by the sink, with the manual padding as fallback. *)
Definition emit_centered (text : str) : M unit :=
  try_except
    (call (OpSet [KAlign AlignCenter]) ;;
     call (OpText text) ;;
     call (OpText [newline]) ;;
     call (OpSet [KAlign AlignLeft]))
    (let padding := center_padding char_width text in
     call (OpText (times space padding ++ text ++ [newline]))).

Definition nonempty (s : str) : bool :=
  match s with
  | [] => false
  | _ :: _ => true
  end.

(** One child of a [<center>] element. *)
Definition process_center_child (child : node) : M unit :=
  match child with
  | Elem ((_ :: _) as name) _ _ =>
      let child_name := lower name in
      let text := get_text child in
      if is_heading child_name then emit_heading true (heading_size child_name) text
      else if nonempty text then emit_centered text else ret tt
  | Elem [] _ _ => ret tt
  | Text t =>
      let text := strip t in
      if nonempty text then emit_centered text else ret tt
  end.

Definition process_paragraph (element : node) : M unit :=
  call (OpSet [KAlign AlignLeft; KBold false; KUnderline 0]) ;;
  call (esc_size 1) ;;
  let text := get_text element in
  bind (lift (char_width_int paper_size font_size (lit "default")))
    (fun paragraph_width => call (OpText (paragraph_output paragraph_width text))).

Definition process_styled (on off : kwarg) (element : node) : M unit :=
  let text := get_text element in
  if nonempty text then
    call (OpSet [on]) ;; call (OpText (text ++ [newline])) ;; call (OpSet [off])
  else ret tt.

Definition process_img (element : node) : M unit :=
  let src := get_attr_or element (lit "src") [] in
  if contains (lit "base64") src then
    match
      match nth_error (split_on 44%N [] src) 1 with
      | Some img_b64 => open_image img_b64
      | None => None
      end
    with
    | None => ret tt
    | Some (orig_w, orig_h) =>
        let '(width, height) := image_requested element in
        bind (lift (image_target_size (max_width_px paper_size) width height orig_w orig_h))
          (fun size =>
             let '(new_w, new_h) := size in
             if resize_raises new_w new_h then lift (Raise ValueError)
             else
               try_except
                 (call (OpImage new_w new_h) ;; call (OpText [newline]))
                 (ret tt))
    end
  else
    match get_attr element (lit "data-type") with
    | Some ty =>
        if str_eqb ty (lit "qr") then
          let data := get_attr_or element (lit "data-value") [] in
          if nonempty data then
            let qr_size := if str_eqb paper_size (lit "80mm") then 15 else 12 in
            call (OpQr data qr_size) ;; call (OpText [newline])
          else ret tt
        else ret tt
    | None => ret tt
    end.

Definition process_barcode (element : node) : M unit :=
  let code := get_text element in
  let barcode_type := get_attr_or element (lit "type") (lit "CODE128") in
  let barcode_width := if str_eqb paper_size (lit "80mm") then 2 else 1 in
  call (OpBarcode code barcode_type barcode_width 80 (lit "BELOW") (lit "A")) ;;
  call (OpText [newline]).

Definition has_tag_named (name : str) (cell : node) : bool :=
  match find name cell with
  | Some _ => true
  | None => false
  end.

(** The first [<hr>] found in the cells of a row. *)
Fixpoint first_hr (cells : list node) : option node :=
  match cells with
  | [] => None
  | cell :: rest =>
      match find (lit "hr") cell with
      | Some h => Some h
      | None => first_hr rest
      end
  end.

(** A row with an [<hr>] in one of its cells. *)
Definition process_rule_row (cells : list node) : M unit :=
  bind (lift (char_width_int paper_size font_size (lit "wide")))
    (fun hr_width =>
       let line_char :=
         match first_hr cells with
         | Some hr_element => hr_char hr_element
         | None => 45%N
         end in
       let horizontal_line := times line_char hr_width in
       try_except
         (call (OpSet [KAlign AlignCenter; KFont 0]) ;;
          (if str_eqb paper_size (lit "58mm") then
             call (OpLn (-2)) ;; call (esc_spacing 5) ;;
             call (OpText horizontal_line) ;; call (OpLn 1)
           else
             call (OpLn (-2)) ;; call (esc_spacing 5) ;;
             call (OpBlockText horizontal_line) ;; call (OpLn 1)) ;;
          set_line_spacing line_spacing ;;
          call (OpSet [KAlign AlignLeft; KFont 0]))
         (call (OpSet [KAlign AlignCenter; KFont 0; KCustomSize true; KWidth 1; KHeight 1]) ;;
          call (OpText horizontal_line) ;;
          call (OpLn 1))).

(** One [<tr>] of a table. *)
Definition process_row (table_width : Z) (tr : node) : M unit :=
  let cells := find_all [lit "td"; lit "th"] tr in
  match cells with
  | [] => ret tt
  | _ :: _ =>
      let has_headers := existsb (fun cell => str_eqb (tag_name cell) (lit "th")) cells in
      let has_hr := existsb (has_tag_named (lit "hr")) cells in
      if has_hr then process_rule_row cells
      else
        bind (lift (table_row_line table_width cells))
          (fun line =>
             (if has_headers then call (OpSet [KBold true; KAlign AlignCenter])
              else call (OpSet [KBold false])) ;;
             call (esc_size 5) ;;
             (if str_eqb paper_size (lit "58mm") then call (OpBlockText line)
              else call (OpText line)) ;;
             call (esc_size 0) ;;
             call (OpSet [KBold false]) ;;
             call (OpLn 1))
  end.

Definition process_table (element : node) : M unit :=
  bind (lift (char_width_int paper_size font_size (lit "table")))
    (fun table_width => for_each (process_row table_width) (find_all [lit "tr"] element)).

Definition process_hr (element : node) : M unit :=
  bind (lift (char_width_int paper_size font_size (lit "wide")))
    (fun hr_width =>
       let horizontal_line := times (hr_char element) hr_width in
       try_except
         (call (OpSet [KAlign AlignCenter; KFont 0]) ;;
          call (OpLn (-2)) ;;
          call (esc_spacing 5) ;;
          call (OpText horizontal_line) ;;
          call (OpLn 1) ;;
          set_line_spacing line_spacing)
         (call (OpSet [KAlign AlignCenter; KFont 0; KCustomSize true; KWidth 1; KHeight 1]) ;;
          call (OpText (horizontal_line ++ [newline])))).

Definition process_qr (element : node) : M unit :=
  let data := get_text element in
  let qr_size := if str_eqb paper_size (lit "80mm") then 8 else 12 in
  call (OpQr data qr_size) ;; call (OpText [newline]).

(** [process_element]: the dispatch on the tag name. *)
Fixpoint process_element (element : node) : M unit :=
  match element with
  | Text _ => ret tt
  | Elem name attrs cs =>
      let element_name := lower name in
      if is_heading element_name then
        emit_heading false (heading_size element_name) (get_text element)
      else if str_eqb element_name (lit "p") then process_paragraph element
      else if str_eqb element_name (lit "center") then for_each process_center_child cs
      else if
        match get_attr element (lit "style") with
        | Some style => nonempty style && contains (lit "text-align:center") style
        | None => false
        end
      then
        let text := get_text element in
        if nonempty text then
          if is_heading element_name
          then emit_heading true (heading_size element_name) text
          else emit_centered text
        else ret tt
      else if str_eqb element_name (lit "b") then
        process_styled (KBold true) (KBold false) element
      else if str_eqb element_name (lit "i") then
        process_styled (KItalic true) (KItalic false) element
      else if str_eqb element_name (lit "u") then
        process_styled (KUnderline 1) (KUnderline 0) element
      else if str_eqb element_name (lit "img") then process_img element
      else if str_eqb element_name (lit "barcode") then process_barcode element
      else if str_eqb element_name (lit "table") then process_table element
      else if str_eqb element_name (lit "hr") then process_hr element
      else if str_eqb element_name (lit "qr") then process_qr element
      else
        let walk :=
          fix walk (l : list node) : M unit :=
            match l with
            | [] => ret tt
            | child :: rest =>
                (if is_tag child then process_element child else ret tt) ;; walk rest
            end in
        if is_container element_name then walk cs else walk cs
  end.

(** The loop over the children of [<body>], or of the document. *)
Definition process_children (nodes : list node) : M unit :=
  for_each (fun element => if is_tag element then process_element element else ret tt) nodes.

(** [print_char_width_test]: the calibration ruler. *)
Definition print_char_width_test : M unit :=
  try_except
    (call (OpText (lit "Prueba de ancho para papel " ++ paper_size ++ lit ":" ++ [newline])) ;;
     call (OpText (map (fun i => (48 + Z.to_N (Z.of_nat i mod 10))%N) (seq 1 65) ++ [newline])) ;;
     call (OpText (lit "Marcar donde se corta la l" ++ [237%N] ++ lit "nea" ++ [newline])) ;;
     bind (lift (char_width_int paper_size (lit "normal") (lit "default")))
       (fun w => call (OpText (times 61%N w ++ [newline]))) ;;
     call (OpLn 2))
    (ret tt).

End Walker.

(** [soup.find('body') or soup], then its children *)
Definition body_children (document : list node) : list node :=
  match find (lit "body") (Elem (lit "[document]") [] document) with
  | Some body => children body
  | None => document
  end.

(** [process_html_for_escpos(p, html_content, paper_size, font_size,
    test_width, line_spacing)], from the parsed document on. *)
Definition process_html_for_escpos
  (rejects : list sink_op -> sink_op -> bool)
  (open_image : str -> option (Z * Z)) (resize_raises : Z -> Z -> bool)
  (document : list node) (paper_size font_size : str) (test_width : bool)
  (line_spacing : str) : M unit :=
  set_line_spacing rejects line_spacing ;;
  bind (lift (char_width_int paper_size font_size (lit "default")))
    (fun char_width =>
       (if test_width then print_char_width_test rejects paper_size else ret tt) ;;
       process_children rejects open_image resize_raises paper_size font_size
         line_spacing char_width (body_children document)).

(** A sink that accepts every call, and one that rejects the calls
    selected by a predicate. *)
Definition accept_all : list sink_op -> sink_op -> bool := fun _ _ => false.

Definition reject_when (bad : sink_op -> bool) : list sink_op -> sink_op -> bool :=
  fun _ op => bad op.

(** The text lines sent through [p.text] and [p.block_text]. *)
Definition text_ops (log : list sink_op) : list str :=
  flat_map (fun op => match op with
                      | OpText t | OpBlockText t => [t]
                      | _ => []
                      end) log.


(** ** Vocabulary of the statements *)

(** Whether the lower-cased style of an element holds [border-style:kw],
    and whether its class list names [kw]. *)
Definition style_declares (element : node) (kw : str) : bool :=
  match get_attr element (lit "style") with
  | Some v => contains (lit "border-style:" ++ kw) (lower v)
  | None => false
  end.

Definition class_names (element : node) (kw : str) : bool :=
  mem kw (get_class element).

(** A column without a usable width declaration. *)
Definition is_flexible (st : style_info) : bool :=
  negb (fixed_truthy st) && negb (percent_truthy st).

(** Whether the element carries the style that the walker tests before
    it looks at the tags [b], [i], [u], [img] and the later ones. *)
Definition has_center_style (element : node) : bool :=
  match get_attr element (lit "style") with
  | Some style => nonempty style && contains (lit "text-align:center") style
  | None => false
  end.

(** The payload [src.split(",")[1]] of a data URL, if there is one. *)
Definition image_payload (src : str) : option str := nth_error (split_on 44%N [] src) 1.

(** ** Documents used in the examples *)

Definition td (attrs : list (str * str)) (text : str) : node :=
  Elem (lit "td") attrs [Text text].

Definition style_attr (v : str) : list (str * str) := [(lit "style", v)].

(** [<tr><td>Product A</td><td style="text-align:right;">$10.00</td></tr>] *)
Definition product_cells : list node :=
  [ td [] (lit "Product A"); td (style_attr (lit "text-align:right;")) (lit "$10.00") ].

(** [<table><tr>...</tr></table>] around [product_cells] *)
Definition product_table : list node :=
  [ Elem (lit "table") [] [ Elem (lit "tr") [] product_cells ] ].

(** [<td style="text-align:left">123</td>] *)
Definition left_numeric_cell : node := td (style_attr (lit "text-align:left")) (lit "123").

(** [<td style="width:60ch">A</td><td>B</td>] *)
Definition overfull_cells : list node :=
  [ td (style_attr (lit "width:60ch")) (lit "A"); td [] (lit "B") ].

(** [<hr style="border-style:solid">] *)
Definition hr_solid_style : node := Elem (lit "hr") (style_attr (lit "border-style:solid")) [].

(** [<barcode>123</barcode><p>hello</p>] *)
Definition barcode_then_paragraph : list node :=
  [ Elem (lit "barcode") [] [Text (lit "123")]; Elem (lit "p") [] [Text (lit "hello")] ].

Definition is_barcode_op (op : sink_op) : bool :=
  match op with
  | OpBarcode _ _ _ _ _ _ => true
  | _ => false
  end.

(** [<img src="data:image/png;base64,AAAA">] *)
Definition plain_img : node :=
  Elem (lit "img") [(lit "src", lit "data:image/png;base64,AAAA")] [].

(** A paragraph text of the word [ab] followed by a word of forty [x]. *)
Definition long_word_text : str := lit "ab " ++ times 120%N 40.

(** ** The print job: [print_html]

    The system printer ([Win32Raw]) is tried first when the platform
    has it; any exception there is logged and the job falls back to the
    [Dummy] printer, whose success is reported as a simulation. The
    import of [escpos] and the construction of the [Dummy] printer are
    taken to succeed. *)

Section PrintHtml.

(** [WIN32_AVAILABLE], and whether [printer.Win32Raw(printer_name)]
    returns a printer. *)
Variables win32_available win32_opens : bool.

(** The system printer: the calls it rejects, and whether [p.cut()] or
    [p.close()] raises after the calls it accepted. *)
Variable win32_rejects : list sink_op -> sink_op -> bool.
Variable win32_finish_raises : list sink_op -> bool.

(** The [Dummy] printer of the fallback, likewise. *)
Variable dummy_rejects : list sink_op -> sink_op -> bool.
Variable dummy_cut_raises : list sink_op -> bool.

Variable open_image : str -> option (Z * Z).
Variable resize_raises : Z -> Z -> bool.

(** [str(e)] *)
Variable exn_text : exn -> str.

Definition paper_and_font (paper_size font_size : str) : str :=
  lit " (papel: " ++ paper_size ++ lit ", fuente: " ++ font_size ++ lit ")".

(** What [print_html] returns, with the calls each printer accepted. *)
Record print_result : Type := mk_print_result {
  success : bool;
  message : str;
  win32_log : list sink_op;
  dummy_log : list sink_op
}.

Definition print_html (printer_name : str) (document : list node)
  (paper_size font_size : str) (test_width : bool) (line_spacing : str) : print_result :=
  let render rejects :=
    process_html_for_escpos rejects open_image resize_raises document paper_size
      font_size test_width line_spacing [] in
  let win32 :=
    if win32_available then
      if win32_opens then
        match render win32_rejects with
        | (Ok _, log) => (negb (win32_finish_raises log), log)
        | (Raise _, log) => (false, log)
        end
      else (false, [])
    else (false, []) in
  if fst win32 then
    mk_print_result true
      (lit "Impresi" ++ [243%N] ++ lit "n ESCPOS exitosa en " ++ printer_name
       ++ paper_and_font paper_size font_size)
      (snd win32) []
  else
    let failed e log :=
      mk_print_result false
        (lit "Error en impresi" ++ [243%N] ++ lit "n ESCPOS: " ++ exn_text e)
        (snd win32) log in
    match render dummy_rejects with
    | (Ok _, log) =>
        if dummy_cut_raises log then failed SinkError log
        else
          mk_print_result true
            (lit "Simulaci" ++ [243%N] ++ lit "n de impresi" ++ [243%N] ++ lit "n en "
             ++ printer_name ++ paper_and_font paper_size font_size
             ++ lit " (modo debug)")
            (snd win32) log
    | (Raise e, log) => failed e log
    end.

End PrintHtml.

(** ** Vocabulary of the further statements *)

(** [m] appends to the log only calls that satisfy [P]. *)
Definition emits_only {A : Type} (P : sink_op -> Prop) (m : M A) : Prop :=
  forall log, exists added, snd (m log) = log ++ added /\ Forall P added.

(** The shapes of the calls the walker makes: raw commands are [ESC ! n]
    with a size code or [ESC 3 n] with a spacing, feeds are by 1, 2 or -2
    lines, a bitmap is no wider than the paper, and QR codes and
    barcodes carry the fixed parameters of the paper. *)
Definition call_ok (paper_size : str) (op : sink_op) : Prop :=
  match op with
  | OpRaw bytes =>
      (exists n, bytes = [27; 33; n] /\ (n = 0 \/ n = 1 \/ 3 <= n <= 8)) \/
      (exists n, bytes = [27; 51; n] /\ (n = 5 \/ n = 10 \/ n = 50 \/ n = 60))
  | OpLn count => count = 1 \/ count = 2 \/ count = -2
  | OpImage width _ => width <= max_width_px paper_size
  | OpQr _ size =>
      if str_eqb paper_size (lit "80mm") then size = 8 \/ size = 15 else size = 12
  | OpBarcode _ _ width height pos font =>
      width = (if str_eqb paper_size (lit "80mm") then 2 else 1) /\
      height = 80 /\ pos = lit "BELOW" /\ font = lit "A"
  | OpSet _ | OpText _ | OpBlockText _ => True
  end.

(** A call that, when it carries a text line, carries one of [width]
    characters. *)
Definition text_len_is (width : Z) (op : sink_op) : Prop :=
  match op with
  | OpText t | OpBlockText t => len t = width
  | _ => True
  end.

(** [has_hr] for the cells of a row. *)
Definition row_has_rule (tr : node) : bool :=
  existsb (has_tag_named (lit "hr")) (find_all [lit "td"; lit "th"] tr).

(** The tags that [process_element] renders itself. *)
Definition rendered_tag (element_name : str) : bool :=
  is_heading element_name ||
  mem element_name
    [lit "p"; lit "center"; lit "b"; lit "i"; lit "u"; lit "img"; lit "barcode";
     lit "table"; lit "hr"; lit "qr"].

(** A sink call that feeds the paper backwards. *)
Definition is_negative_feed (op : sink_op) : bool :=
  match op with
  | OpLn count => count <? 0
  | _ => false
  end.

(** The characters of a string that are not white space. *)
Definition visible (s : str) : str := filter (fun c => negb (is_space c)) s.

Definition is_set_op (op : sink_op) : bool :=
  match op with
  | OpSet _ => true
  | _ => false
  end.

(** A fixed width, when there is one, is not negative. *)
Definition fixed_nonneg (wf : option Z) : Prop :=
  match wf with
  | Some v => 0 <= v
  | None => True
  end.

(** A mantissa of full precision. *)
Definition canonical (m : positive) : Prop := 2 ^ (prec - 1) <= Zpos m < 2 ^ prec.

(** The real number [m * 2^e]. *)
Definition F2R (m e : Z) : R := (IZR m * powerRZ 2 e)%R.

(** The relative error allowed to one rounding: 2^-52. *)
Definition eps : R := powerRZ 2 (-52).

(** [<div>hello <p>world</p></div>] *)
Definition div_with_text : node :=
  Elem (lit "div") [] [Text (lit "hello "); Elem (lit "p") [] [Text (lit "world")]].

Definition is_image_op (op : sink_op) : bool :=
  match op with
  | OpImage _ _ => true
  | _ => false
  end.

(** A paragraph text of seven short words. *)
Definition wrapped_text : str := lit "uno dos tres cuatro cinco seis siete".

(** The content length recorded for column [idx]. *)
Definition clen_of (styles : list style_info) (idx : nat) : Z :=
  match nth_error styles idx with
  | Some st => content_length st
  | None => 0
  end.

(** A column whose proportional share of [remaining] is at least one
    character. *)
Definition share_at_least_one (remaining total : Z) (styles : list style_info)
  (idx : nat) : Prop :=
  exists st, nth_error styles idx = Some st /\
             0 < content_length st <= total /\ total <= content_length st * remaining.


(** The styles of [product_cells]. *)
Definition product_styles : list style_info :=
  [ mk_style_info None None AlignLeft 0 9 false;
    mk_style_info None None AlignRight 1 6 true ].

(** [<td style="width:20ch">Total</td><td></td><td></td>] and its styles *)
Definition spacer_cells : list node :=
  [ td (style_attr (lit "width:20ch")) (lit "Total");
    Elem (lit "td") [] []; Elem (lit "td") [] [] ].

Definition spacer_styles : list style_info :=
  [ mk_style_info None (Some 20) AlignLeft 0 5 false;
    mk_style_info None None AlignLeft 1 0 false;
    mk_style_info None None AlignLeft 2 0 false ].

(** [Image.resize] refuses a size with a side that is not positive: it
    raises [ValueError]. *)
Definition pil_resize_raises (w h : Z) : bool := (w <=? 0) || (h <=? 0).

(** [<img src="data:image/png;base64,AAAA"><p>hello</p>] *)
Definition image_then_paragraph : list node :=
  [ plain_img; Elem (lit "p") [] [Text (lit "hello")] ].

(** [<td style="width:1000...0ch">A</td><td>B</td>], the declared width
    being the digit 1 followed by 309 zeros. *)
Definition huge_width_cells : list node :=
  [ td (style_attr (lit "width:1" ++ times 48%N 309 ++ lit "ch")) (lit "A");
    td [] (lit "B") ].

(** The styles of [overfull_cells]. *)
Definition overfull_styles : list style_info :=
  [ mk_style_info None (Some 60) AlignLeft 0 1 false;
    mk_style_info None None AlignLeft 1 1 false ].

(* ===== PROPERTIES ===== *)

(** * Properties *)

(** ** Strings *)

Lemma str_eqb_eq (a b : str) : str_eqb a b = true <-> a = b.
Proof.
  revert b; induction a as [|x a IH]; intros [|y b]; simpl; split; intro H;
    try reflexivity; try discriminate.
  - apply andb_true_iff in H as [Hx Hab].
    apply N.eqb_eq in Hx. apply IH in Hab. now subst.
  - injection H as -> ->. rewrite N.eqb_refl. simpl. now apply IH.
Qed.

Lemma str_eqb_refl (a : str) : str_eqb a a = true.
Proof. now apply str_eqb_eq. Qed.

Lemma len_nonneg (s : str) : 0 <= len s.
Proof. unfold len. lia. Qed.

Lemma len_app (a b : str) : len (a ++ b) = len a + len b.
Proof. unfold len. rewrite length_app. lia. Qed.

Lemma len_times (c : char) (n : Z) : len (times c n) = Z.max 0 n.
Proof. unfold len, times. rewrite repeat_length. lia. Qed.

Lemma len_ljust (width : Z) (s : str) : len (ljust width s) = Z.max width (len s).
Proof. unfold ljust. rewrite len_app, len_times. pose proof (len_nonneg s). lia. Qed.

Lemma len_rjust (width : Z) (s : str) : len (rjust width s) = Z.max width (len s).
Proof. unfold rjust. rewrite len_app, len_times. pose proof (len_nonneg s). lia. Qed.

Lemma len_center (width : Z) (s : str) : len (center width s) = Z.max width (len s).
Proof.
  unfold center. pose proof (len_nonneg s) as Hs.
  destruct (width - len s <=? 0) eqn:E.
  - apply Z.leb_le in E. lia.
  - apply Z.leb_gt in E. rewrite !len_app, !len_times.
    assert (0 <= (width - len s) / 2) by (apply Z.div_pos; lia).
    assert ((width - len s) / 2 < width - len s) by (apply Z.div_lt; lia).
    destruct (Z.odd (width - len s) && Z.odd width); lia.
Qed.

Lemma len_slice_to (n : Z) (s : str) : 0 <= n -> len (slice_to n s) = Z.min n (len s).
Proof.
  intros Hn. unfold slice_to. destruct (n <? 0) eqn:E.
  - apply Z.ltb_lt in E. lia.
  - unfold len. rewrite length_firstn. lia.
Qed.

Lemma len_truncate (width : Z) (s : str) :
  0 <= width -> len (truncate width s) = Z.min width (len s).
Proof.
  intros Hw. unfold truncate. destruct (len s >? width) eqn:E.
  - now apply len_slice_to.
  - assert (len s <= width) by (destruct (Z.gtb_spec (len s) width); [discriminate|lia]). lia.
Qed.

Lemma len_apply_align (a : alignment) (width : Z) (s : str) :
  len (apply_align a width s) = Z.max width (len s).
Proof. destruct a; simpl; [apply len_ljust|apply len_center|apply len_rjust]. Qed.

(** The final adjustment of a row line yields exactly the table width. *)
Lemma len_fit_line (table_width : Z) (line : str) :
  0 <= table_width -> len (fit_line table_width line) = table_width.
Proof.
  intros Hw. unfold fit_line.
  destruct (Z.gtb_spec (len line) table_width) as [Hgt|Hle].
  - rewrite len_slice_to by exact Hw. lia.
  - destruct (Z.ltb_spec (len line) table_width) as [Hlt|Hge].
    + rewrite len_ljust. lia.
    + lia.
Qed.

(** ** Layout metrics *)

(** The base widths that the table of [get_char_width] can produce,
    together with the answer of its test [paper_size == '58mm']. *)
Lemma base_width_cases (paper_size font_size : str) :
  let b := base_width_of paper_size font_size in
  let n := str_eqb paper_size (lit "58mm") in
  (n = true /\ (b = 32 \/ b = 42 \/ b = 48)) \/
  (n = false /\ (b = 48 \/ b = 64)).
Proof.
  unfold base_width_of, base_widths. cbn [dict_get].
  destruct (str_eqb paper_size (lit "80mm")) eqn:E80.
  - apply str_eqb_eq in E80. subst paper_size. right.
    split; [reflexivity|]. cbn [dict_get].
    destruct (str_eqb font_size (lit "normal")); [now left|].
    destruct (str_eqb font_size (lit "small")); [now right|now left].
  - destruct (str_eqb paper_size (lit "58mm")) eqn:E58.
    + left. split; [reflexivity|]. cbn [dict_get].
      destruct (str_eqb font_size (lit "normal")); [now left|].
      destruct (str_eqb font_size (lit "small")); [right; now left|right; now right].
    + right. split; [reflexivity|]. cbn [dict_get]. now left.
Qed.

(** An unknown paper size, or an unknown font size of a known paper,
    falls back to the base width 48. *)
Lemma base_width_fallback (paper_size font_size : str) :
  (paper_size <> lit "80mm" /\ paper_size <> lit "58mm") \/
  (font_size <> lit "normal" /\ font_size <> lit "small") ->
  base_width_of paper_size font_size = 48.
Proof.
  unfold base_width_of, base_widths. cbn [dict_get]. intros H.
  destruct (str_eqb paper_size (lit "80mm")) eqn:E80;
    [apply str_eqb_eq in E80|];
    (destruct (str_eqb paper_size (lit "58mm")) eqn:E58;
      [apply str_eqb_eq in E58|]);
    cbn [dict_get];
    (destruct (str_eqb font_size (lit "normal")) eqn:En;
      [apply str_eqb_eq in En|]);
    (destruct (str_eqb font_size (lit "small")) eqn:Es;
      [apply str_eqb_eq in Es|]);
    try reflexivity;
    destruct H as [[H1 H2]|[H1 H2]]; congruence.
Qed.

(** C5, as the code has it: for every paper size, font size and content
    category (known or not) [get_char_width] returns without raising a
    positive number within the documented bounds of its category, which
    agrees with the documented formula of the category: [int()] of the
    result is the integer part of the documented value, and a float
    result is the documented value up to a relative rounding error of
    [2^-50]; the result is an [int] for the table and default categories,
    and in particular 48 for 80mm/normal/table and 34 for
    58mm/small/narrow; unknown paper/font combinations use the base width
    48. *)
Theorem get_char_width_positive_bounded (paper_size font_size content_type : str) :
  exists v,
    get_char_width paper_size font_size content_type = Ok v /\
    py_lt (PyInt 0) v = true /\
    within_documented_bounds paper_size content_type
      (base_width_of paper_size font_size) v /\
    get_char_width (lit "80mm") (lit "normal") (lit "table") = Ok (PyInt 48) /\
    get_char_width (lit "58mm") (lit "small") (lit "narrow") = Ok (PyInt 34) /\
    ((paper_size <> lit "80mm" /\ paper_size <> lit "58mm") \/
     (font_size <> lit "normal" /\ font_size <> lit "small") ->
     base_width_of paper_size font_size = 48).
Proof.
  pose proof (base_width_cases paper_size font_size) as Hc.
  pose proof (base_width_fallback paper_size font_size) as Hf.
  unfold get_char_width, within_documented_bounds, effectiveWidth_hundredths.
  cbv zeta in Hc.
  destruct (str_eqb content_type (lit "table"));
    [|destruct (str_eqb content_type (lit "header"));
      [|destruct (str_eqb content_type (lit "narrow"));
        [|destruct (str_eqb content_type (lit "wide"))]]];
    destruct Hc as [[Hn Hb]|[Hn Hb]];
    repeat (destruct Hb as [Hb|Hb]);
    rewrite ?Hn, Hb in *;
    (eexists; split; [vm_compute; reflexivity|]);
    (split; [vm_compute; reflexivity|]);
    (split; [vm_compute; repeat split; reflexivity|]);
    (split; [vm_compute; reflexivity|]);
    (split; [vm_compute; reflexivity|]);
    exact Hf.
Qed.

(** C5 as stated fails: on 58mm paper with the normal font the header
    category yields the float 35.2, which is neither an [int] nor a whole
    number. *)
Lemma get_char_width_header_not_integer :
  get_char_width (lit "58mm") (lit "normal") (lit "header")
    = Ok (PyFloat (S754_finite false 4953959590107546 (-47))) /\
  Prim2SF 35.2%float = S754_finite false 4953959590107546 (-47) /\
  py_is_integral (PyFloat (S754_finite false 4953959590107546 (-47))) = false /\
  ~ exists z : Z,
      get_char_width (lit "58mm") (lit "normal") (lit "header") = Ok (PyInt z).
Proof.
  repeat split; try (vm_compute; reflexivity).
  intros [z Hz]. vm_compute in Hz. discriminate.
Qed.



(** The table and default categories always yield an [int]: the base
    width itself for tables. *)
Lemma get_char_width_table (paper_size font_size : str) :
  get_char_width paper_size font_size (lit "table")
    = Ok (PyInt (base_width_of paper_size font_size)).
Proof.
  pose proof (base_width_cases paper_size font_size) as Hc. cbv zeta in Hc.
  unfold get_char_width.
  replace (str_eqb (lit "table") (lit "table")) with true by reflexivity.
  destruct Hc as [[Hn Hb]|[Hn Hb]]; rewrite Hn; [reflexivity|].
  destruct Hb as [Hb|Hb]; rewrite Hb; reflexivity.
Qed.

Lemma base_width_pos (paper_size font_size : str) :
  0 < base_width_of paper_size font_size.
Proof.
  pose proof (base_width_cases paper_size font_size) as Hc. cbv zeta in Hc.
  destruct Hc as [[_ Hb]|[_ Hb]]; repeat (destruct Hb as [Hb|Hb]); lia.
Qed.

(** ** Table rows *)

(** A row of one cell never raises. *)
Lemma table_row_line_single (table_width : Z) (cell : node) :
  table_row_line table_width [cell]
    = Ok (fit_line table_width
            (single_column_line table_width cell
               (replace_char newline space (get_text cell)))).
Proof. reflexivity. Qed.

(** C1: the text line of every table row that is rendered, with one
    column or several, with header cells or data cells, has exactly the
    effective table width of the paper and font; a row of one cell is
    always rendered. *)
Theorem table_row_line_exact_width
  (paper_size font_size : str) (cells : list node) (line : str) :
  table_row_line (base_width_of paper_size font_size) cells = Ok line ->
  get_char_width paper_size font_size (lit "table")
    = Ok (PyInt (base_width_of paper_size font_size)) /\
  len line = base_width_of paper_size font_size /\
  (forall cell, exists l,
      table_row_line (base_width_of paper_size font_size) [cell] = Ok l /\
      len l = base_width_of paper_size font_size).
Proof.
  intros H. pose proof (base_width_pos paper_size font_size) as Hpos.
  split; [apply get_char_width_table|]. split.
  - unfold table_row_line in H.
    destruct (match cells, cell_texts cells with
              | [cell], [text] =>
                  Ok (single_column_line (base_width_of paper_size font_size) cell text)
              | _, _ =>
                  multi_column_line (base_width_of paper_size font_size) cells
                    (cell_texts cells)
              end) as [l|e]; simpl in H; [|discriminate].
    injection H as <-. apply len_fit_line. lia.
  - intros cell. eexists. split; [apply table_row_line_single|].
    apply len_fit_line. lia.
Qed.

Lemma table_row_line_exact_width_witness :
  get_char_width (lit "80mm") (lit "normal") (lit "table")
    = Ok (PyInt (base_width_of (lit "80mm") (lit "normal"))) /\
  len (ljust 28 (lit "Product A") ++ rjust 19 (lit "$10.00") ++ [space])
    = base_width_of (lit "80mm") (lit "normal") /\
  (forall cell, exists l,
      table_row_line (base_width_of (lit "80mm") (lit "normal")) [cell] = Ok l /\
      len l = base_width_of (lit "80mm") (lit "normal")).
Proof.
  apply (table_row_line_exact_width (lit "80mm") (lit "normal") product_cells).
  vm_compute. reflexivity.
Defined.

(** A single cell without a style attribute whose text holds a digit, a
    point, a comma or a currency sign is right-aligned. *)
Lemma single_column_numeric_default_right (table_width : Z) (cell : node) (text : str) :
  has_attr cell (lit "style") = false ->
  is_numeric_text text = true ->
  single_column_line table_width cell text
    = rjust table_width (truncate table_width text).
Proof.
  intros Hs Hn. unfold single_column_line, single_column_align.
  rewrite Hs, Hn. reflexivity.
Qed.

(** An explicit [text-align:left] gives the same alignment as no style at
    all, so a numeric text is right-aligned all the same. *)
Lemma single_column_left_style_numeric_right (table_width : Z) (cell : node) (text : str) :
  has_attr cell (lit "style") = true ->
  style_align (lower (get_attr_or cell (lit "style") [])) = AlignLeft ->
  is_numeric_text text = true ->
  single_column_line table_width cell text
    = rjust table_width (truncate table_width text).
Proof.
  intros Hs Ha Hn. unfold single_column_line, single_column_align.
  rewrite Hs, Ha, Hn. reflexivity.
Qed.

(** C2 at [<td style="text-align:left">123</td>] on a 48-character table:
    the row is rendered right-aligned, not left-aligned. *)
Theorem single_column_explicit_left_renders_right :
  table_row_line 48 [left_numeric_cell] = Ok (rjust 48 (lit "123")) /\
  rjust 48 (lit "123") <> ljust 48 (lit "123").
Proof.
  split; [vm_compute; reflexivity|].
  vm_compute. discriminate.
Qed.

(** C3, as the code has it: on 80mm paper with the normal font the table
    of the scenario emits one text line of 48 characters; the columns are
    28 and 19 characters wide, the truncated shares [int(48 * (9 / 15))]
    and [int(48 * (6 / 15))]; "Product A" starts at column 1, "$10.00"
    is flush right in its column and ends at column 47, and column 48 is
    the blank that pads the line. *)
Theorem product_row_rendering :
  let out :=
    process_html_for_escpos accept_all (fun _ => None) (fun _ _ => false)
      product_table (lit "80mm") (lit "normal") false (lit "normal") [] in
  let line := ljust 28 (lit "Product A") ++ rjust 19 (lit "$10.00") ++ [space] in
  fst out = Ok tt /\
  text_ops (snd out) = [line] /\
  len line = 48 /\
  startswith (lit "Product A") line = true /\
  slice_to 6 (slice_from 41 line) = lit "$10.00" /\
  slice_from 47 line = [space] /\
  (let? styles := cell_styles_from 0 product_cells (cell_texts product_cells) in
   column_widths 48 styles) = Ok [28; 19].
Proof. vm_compute. repeat split. Qed.

(** C3 as stated fails: the emitted line does not end with "$10.00". *)
Lemma product_row_not_flush_right :
  ~ exists line,
      text_ops (snd (process_html_for_escpos accept_all (fun _ => None) (fun _ _ => false)
                       product_table (lit "80mm") (lit "normal") false (lit "normal") []))
        = [line] /\
      len line = 48 /\
      startswith (lit "Product A") line = true /\
      slice_from 42 line = lit "$10.00".
Proof.
  intros [line [H [_ [_ H42]]]].
  vm_compute in H. injection H as <-.
  vm_compute in H42. discriminate.
Qed.

(** ** Horizontal rules *)

(** C9, as the code has it: [double], [dotted] and [dashed] are looked
    for in the style (as [border-style:...]) and in the class list,
    [solid] and [thick] in the class list only; [double] wins over
    [dotted]/[dashed], which win over [solid]/[thick]; without any of
    them the rule is made of '-'. *)
Theorem hr_char_selection (element : node) :
  hr_char element =
    (if style_declares element (lit "double") || class_names element (lit "double")
     then 61%N
     else if style_declares element (lit "dotted") || class_names element (lit "dotted")
             || style_declares element (lit "dashed") || class_names element (lit "dashed")
     then 45%N
     else if class_names element (lit "solid") || class_names element (lit "thick")
     then 35%N
     else 45%N) /\
  hr_char (Elem (lit "hr") [(lit "class", lit "double")] []) = 61%N /\
  hr_char (Elem (lit "hr") (style_attr (lit "border-style:dashed")) []) = 45%N /\
  hr_char (Elem (lit "hr") [(lit "class", lit "thick")] []) = 35%N /\
  hr_char (Elem (lit "hr") [] []) = 45%N.
Proof.
  split; [|repeat split].
  unfold hr_char, hr_line_char, style_declares, class_names, has_attr, get_attr_or, get_class.
  destruct element as [t|name attrs cs]; cbn [get_attr]; [reflexivity|].
  change (lit "border-style:" ++ lit "double") with (lit "border-style:double").
  change (lit "border-style:" ++ lit "dotted") with (lit "border-style:dotted").
  change (lit "border-style:" ++ lit "dashed") with (lit "border-style:dashed").
  destruct (attr_lookup (lit "style") attrs) as [v|];
    destruct (attr_lookup (lit "class") attrs) as [c|];
    repeat match goal with
           | |- context [contains ?a []] => change (contains a []) with false
           | |- context [mem ?a []] => change (mem a []) with false
           | |- context [contains ?a (lower ?b)] => destruct (contains a (lower b))
           | |- context [mem ?a (split ?b)] => destruct (mem a (split b))
           end; reflexivity.
Qed.

(** C9 as stated fails for [solid] given in the style: the rule of
    [<hr style="border-style:solid">] is made of '-', not of '#'. *)
Lemma hr_solid_style_is_dash :
  style_declares hr_solid_style (lit "solid") = true /\
  hr_char hr_solid_style = 45%N /\
  hr_char hr_solid_style <> 35%N.
Proof. repeat split. vm_compute. discriminate. Qed.

(** ** Columns without a declared width *)

Lemma initial_width_flexible (table_width : Z) (st : style_info) :
  is_flexible st = true -> initial_width table_width st = Ok 0.
Proof.
  unfold is_flexible, initial_width. intros H.
  apply andb_true_iff in H as [Hf Hp].
  apply negb_true_iff in Hf. apply negb_true_iff in Hp.
  now rewrite Hp, Hf.
Qed.

Lemma rmap_nth_error {A B : Type} (f : A -> result B) (l : list A) (l' : list B) :
  rmap f l = Ok l' ->
  forall i a, nth_error l i = Some a ->
  exists b, f a = Ok b /\ nth_error l' i = Some b.
Proof.
  revert l'. induction l as [|x l IH]; intros l' H i a Hi.
  - destruct i; discriminate.
  - simpl in H. destruct (f x) as [b|e] eqn:Hx; simpl in H; [|discriminate].
    destruct (rmap f l) as [bs|e] eqn:Hl; simpl in H; [|discriminate].
    injection H as <-. destruct i as [|i]; simpl in Hi.
    + injection Hi as <-. exists b. now split.
    + now apply (IH bs eq_refl i a).
Qed.

Lemma format_col_zero (col : str) (st : style_info) : format_col col 0 st = [].
Proof.
  unfold format_col.
  assert (Ht : truncate 0 col = []).
  { unfold truncate. destruct (Z.gtb_spec (len col) 0) as [H|H].
    - reflexivity.
    - pose proof (len_nonneg col). destruct col; [reflexivity|].
      unfold len in *. simpl length in *. lia. }
  rewrite Ht. destruct (align st); reflexivity.
Qed.

(** C10, as the code has it: when the widths resolved from the
    percentage and fixed declarations already fill the table width or
    more, the distribution step gives the flexible columns nothing and
    they stay at width 0; when those widths fill the table width
    exactly, these are the final widths, and the text of a flexible cell
    is cut to the empty string. *)
Theorem flexible_columns_without_room
  (table_width : Z) (styles : list style_info) (col_widths : list Z) :
  rmap (initial_width table_width) styles = Ok col_widths ->
  table_width <= zsum col_widths ->
  distribute_flexible table_width styles col_widths = Ok col_widths /\
  (forall i st, nth_error styles i = Some st -> is_flexible st = true ->
                nth_error col_widths i = Some 0) /\
  (zsum col_widths = table_width ->
   column_widths table_width styles = Ok col_widths /\
   forall col st, format_col col 0 st = []).
Proof.
  intros Hinit Hsum.
  assert (Hd : distribute_flexible table_width styles col_widths = Ok col_widths).
  { unfold distribute_flexible.
    destruct (Z.gtb_spec (table_width - zsum col_widths) 0) as [H|H]; [lia|].
    now rewrite andb_false_r. }
  split; [exact Hd|]. split.
  - intros i st Hi Hflex.
    destruct (rmap_nth_error _ _ _ Hinit i st Hi) as [w [Hw Hn]].
    rewrite (initial_width_flexible _ _ Hflex) in Hw. now injection Hw as <-.
  - intros Heq. split; [|apply format_col_zero].
    unfold column_widths. rewrite Hinit. simpl. rewrite Hd. simpl.
    unfold fit_total.
    destruct (Z.gtb_spec (zsum col_widths) table_width) as [H|H]; [lia|reflexivity].
Qed.

Lemma flexible_columns_without_room_witness :
  distribute_flexible 48
    [mk_style_info None (Some 48) AlignLeft 0 1 false;
     mk_style_info None None AlignLeft 1 1 false] [48; 0] = Ok [48; 0] /\
  (forall i st,
      nth_error [mk_style_info None (Some 48) AlignLeft 0 1 false;
                 mk_style_info None None AlignLeft 1 1 false] i = Some st ->
      is_flexible st = true -> nth_error [48; 0] i = Some 0) /\
  (zsum [48; 0] = 48 ->
   column_widths 48
     [mk_style_info None (Some 48) AlignLeft 0 1 false;
      mk_style_info None None AlignLeft 1 1 false] = Ok [48; 0] /\
   forall col st, format_col col 0 st = []).
Proof.
  apply (flexible_columns_without_room 48
           [mk_style_info None (Some 48) AlignLeft 0 1 false;
            mk_style_info None None AlignLeft 1 1 false] [48; 0]).
  - reflexivity.
  - vm_compute. discriminate.
Defined.

(** C10 as stated fails when the declared widths exceed the table width:
    in [<td style="width:60ch">A</td><td>B</td>] on a 48-character table
    the flexible second column ends with width 1 and its text is printed. *)
Lemma flexible_column_survives_overflow :
  (let? styles := cell_styles_from 0 overfull_cells (cell_texts overfull_cells) in
   Ok (map is_flexible styles)) = Ok [false; true] /\
  (let? styles := cell_styles_from 0 overfull_cells (cell_texts overfull_cells) in
   rmap (initial_width 48) styles) = Ok [60; 0] /\
  (let? styles := cell_styles_from 0 overfull_cells (cell_texts overfull_cells) in
   column_widths 48 styles) = Ok [47; 1] /\
  table_row_line 48 overfull_cells = Ok (ljust 47 (lit "A") ++ lit "B") /\
  nth_error [47; 1] 1 <> Some 0.
Proof. vm_compute. repeat split. discriminate. Qed.

(** ** Images *)

Lemma image_requested_none (element : node) :
  get_attr element (lit "width") = None ->
  get_attr element (lit "height") = None ->
  (forall style, get_attr element (lit "style") = Some style ->
     re_search (match_px (lit "width")) style = None /\
     re_search (match_px (lit "height")) style = None) ->
  image_requested element = (None, None).
Proof.
  intros Hw Hh Hs. unfold image_requested. rewrite Hw, Hh.
  destruct (get_attr element (lit "style")) as [style|]; [|reflexivity].
  destruct (Hs style eq_refl) as [-> ->]. reflexivity.
Qed.

(** ** Exceptions during the traversal *)

Lemma process_element_img
  (rejects : list sink_op -> sink_op -> bool)
  (open_image : str -> option (Z * Z)) (resize_raises : Z -> Z -> bool)
  (paper_size font_size line_spacing : str) (char_width : Z)
  (attrs : list (str * str)) (cs : list node) :
  has_center_style (Elem (lit "img") attrs cs) = false ->
  process_element rejects open_image resize_raises paper_size font_size line_spacing
    char_width (Elem (lit "img") attrs cs)
  = process_img rejects open_image resize_raises paper_size (Elem (lit "img") attrs cs).
Proof.
  intros H. unfold has_center_style in H.
  cbn -[process_img get_attr get_text emit_centered emit_heading nonempty contains lit].
  rewrite H. reflexivity.
Qed.

(** C7 as stated fails: when the sink rejects the barcode call, the
    exception leaves the traversal and the paragraph after the barcode is
    never printed, although the same paragraph is printed when the sink
    accepts the barcode. *)
Lemma barcode_failure_aborts_traversal :
  let run rejects :=
    process_html_for_escpos rejects (fun _ => None) (fun _ _ => false)
      barcode_then_paragraph (lit "80mm") (lit "normal") false (lit "normal") [] in
  fst (run (reject_when is_barcode_op)) = Raise SinkError /\
  text_ops (snd (run (reject_when is_barcode_op))) = [] /\
  fst (run accept_all) = Ok tt /\
  text_ops (snd (run accept_all)) = [[newline]; lit "hello" ++ [newline]].
Proof. vm_compute. repeat split. Qed.

(** ** Paragraphs *)

Lemma wrap_words_bounded (w : Z) (words : list str) :
  Forall (fun word => len word <= w) words ->
  forall lines cur,
    Forall (fun l => len l <= w) lines -> len cur <= w ->
    Forall (fun l => len l <= w) (fst (wrap_words w words lines cur)) /\
    len (snd (wrap_words w words lines cur)) <= w.
Proof.
  induction 1 as [|word words Hword Hwords IH]; intros lines cur Hl Hc.
  - simpl. now split.
  - cbn [wrap_words].
    destruct (Z.leb_spec
                (len (cur ++ match cur with [] => word | _ :: _ => space :: word end)) w)
      as [Hfit|Hover].
    + apply IH; assumption.
    + destruct cur as [|c cur'].
      * simpl in Hover. lia.
      * apply IH; [constructor; assumption|assumption].
Qed.

(** When no word is longer than the width, no line of the paragraph is. *)
Lemma paragraph_lines_bounded (w : Z) (text : str) :
  0 <= w ->
  Forall (fun word => len word <= w) (split text) ->
  Forall (fun l => len l <= w) (paragraph_lines w text).
Proof.
  intros Hw Hwords. unfold paragraph_lines.
  destruct (Z.gtb_spec (len text) w) as [Hlong|Hshort].
  - unfold wrap_lines.
    pose proof (wrap_words_bounded w (split text) Hwords [] []
                  (Forall_nil _) Hw) as [Hl Hc].
    destruct (wrap_words w (split text) [] []) as [lines cur]. simpl in Hl, Hc.
    apply Forall_rev. destruct cur; [assumption|constructor; assumption].
  - constructor; [assumption|constructor].
Qed.

(** C4 at the paragraph [ab xxxx...x] with a word of forty [x], on 58mm
    paper with the normal font: the width is 32 and the second line that
    is printed has 40 characters. *)
Theorem paragraph_long_word_exceeds_width :
  char_width_int (lit "58mm") (lit "normal") (lit "default") = Ok 32 /\
  paragraph_lines 32 long_word_text = [lit "ab"; times 120%N 40] /\
  len (times 120%N 40) = 40 /\
  text_ops (snd (process_html_for_escpos accept_all (fun _ => None) (fun _ _ => false)
                   [Elem (lit "p") [] [Text long_word_text]]
                   (lit "58mm") (lit "normal") false (lit "normal") []))
    = [lit "ab" ++ [newline] ++ times 120%N 40 ++ [newline]].
Proof. vm_compute. repeat split. Qed.

(** * Further properties of the renderer *)

(** ** Calls made on the printer satisfy an invariant *)

Lemma emits_only_ret {A : Type} (P : sink_op -> Prop) (a : A) : emits_only P (ret a).
Proof. intros log. exists []. split; [now rewrite app_nil_r|constructor]. Qed.

Lemma emits_only_lift {A : Type} (P : sink_op -> Prop) (r : result A) :
  emits_only P (lift r).
Proof. intros log. exists []. split; [now rewrite app_nil_r|constructor]. Qed.

Lemma emits_only_call (P : sink_op -> Prop) rejects (op : sink_op) :
  P op -> emits_only P (call rejects op).
Proof.
  intros Hop log. unfold call. destruct (rejects log op).
  - exists []. split; [now rewrite app_nil_r|constructor].
  - exists [op]. split; [reflexivity|now constructor].
Qed.

Lemma emits_only_bind {A B : Type} (P : sink_op -> Prop) (m : M A) (k : A -> M B) :
  emits_only P m -> (forall a, emits_only P (k a)) -> emits_only P (bind m k).
Proof.
  intros Hm Hk log. unfold bind. destruct (Hm log) as [a1 [E1 F1]].
  destruct (m log) as [[a|e] log1]; simpl in E1; subst log1.
  - destruct (Hk a (log ++ a1)) as [a2 [E2 F2]].
    exists (a1 ++ a2). rewrite E2, app_assoc. split; [reflexivity|].
    apply Forall_app. now split.
  - exists a1. now split.
Qed.

Lemma emits_only_bind_lift {A B : Type} (P : sink_op -> Prop) (r : result A) (k : A -> M B) :
  (forall a, r = Ok a -> emits_only P (k a)) -> emits_only P (bind (lift r) k).
Proof.
  intros Hk log. unfold bind, lift. destruct r as [a|e].
  - apply (Hk a eq_refl).
  - exists []. split; [now rewrite app_nil_r|constructor].
Qed.

Lemma emits_only_try (P : sink_op -> Prop) (body handler : M unit) :
  emits_only P body -> emits_only P handler -> emits_only P (try_except body handler).
Proof.
  intros Hb Hh log. unfold try_except. destruct (Hb log) as [a1 [E1 F1]].
  destruct (body log) as [[a|e] log1]; simpl in E1; subst log1.
  - exists a1. now split.
  - destruct (Hh (log ++ a1)) as [a2 [E2 F2]].
    exists (a1 ++ a2). rewrite E2, app_assoc. split; [reflexivity|].
    apply Forall_app. now split.
Qed.

Lemma emits_only_for_each {A : Type} (P : sink_op -> Prop) (body : A -> M unit) (l : list A) :
  (forall x, In x l -> emits_only P (body x)) -> emits_only P (for_each body l).
Proof.
  induction l as [|x l IH]; intros H; cbn [for_each].
  - apply emits_only_ret.
  - apply emits_only_bind; [apply H; now left|].
    intros _. apply IH. intros y Hy. apply H. now right.
Qed.

Lemma emits_only_weaken {A : Type} (P Q : sink_op -> Prop) (m : M A) :
  (forall op, P op -> Q op) -> emits_only P m -> emits_only Q m.
Proof.
  intros H Hm log. destruct (Hm log) as [added [E F]]. exists added.
  split; [exact E|]. eapply Forall_impl; eauto.
Qed.

(** ** The calls that reach the printer *)

Lemma node_forall_ind (P : node -> Prop) :
  (forall s, P (Text s)) ->
  (forall name attrs cs, Forall P cs -> P (Elem name attrs cs)) ->
  forall n, P n.
Proof.
  intros HT HE. fix IH 1. intros [s|name attrs cs]; [apply HT|].
  apply HE. induction cs as [|c cs IHcs]; constructor; [apply IH|apply IHcs].
Qed.

Ltac emits_step :=
  first
    [ apply emits_only_ret
    | apply emits_only_lift
    | apply emits_only_try
    | apply emits_only_bind_lift; intros ? ?
    | apply emits_only_bind; [|intros ?]
    | apply emits_only_call
    | match goal with
      | |- emits_only _ (if ?b then _ else _) => destruct b eqn:?
      | |- emits_only _ (match ?x with _ => _ end) => destruct x eqn:?
      | |- emits_only _ (let '(_, _) := ?x in _) => destruct x eqn:?
      end ].

Ltac call_ok_solve :=
  match goal with
  | |- call_ok _ (esc_size _) => left; eexists; split; [reflexivity|lia]
  | |- call_ok _ (esc_spacing _) => right; eexists; split; [reflexivity|lia]
  | |- call_ok _ (OpLn _) => cbn; lia
  | |- call_ok _ (OpSet _) => exact I
  | |- call_ok _ (OpText _) => exact I
  | |- call_ok _ (OpBlockText _) => exact I
  end.

Lemma heading_size_range (name : str) :
  heading_size name = 1 \/ 3 <= heading_size name <= 8.
Proof.
  unfold heading_size.
  repeat match goal with |- context [if ?b then _ else _] => destruct b end; lia.
Qed.

(** The width handed to [image.resize] never exceeds the limit. *)
Lemma image_target_size_width (mx : Z) (w h : option Z) (ow oh nw nh : Z) :
  image_target_size mx w h ow oh = Ok (nw, nh) -> nw <= mx.
Proof.
  unfold image_target_size.
  match goal with
  | |- rbind ?first _ = _ -> _ => destruct first as [[w1 h1]|e]; cbn [rbind]; [|discriminate]
  end.
  destruct (Z.gtb_spec w1 mx) as [Hgt|Hle].
  - destruct (int_ratio mx h1 w1); cbn [rbind]; [|discriminate].
    intros E. injection E as <- _. lia.
  - intros E. injection E as <- _. exact Hle.
Qed.

Section Calls.
Variable rejects : list sink_op -> sink_op -> bool.
Variable open_image : str -> option (Z * Z).
Variable resize_raises : Z -> Z -> bool.
Variables paper_size font_size line_spacing : str.
Variable char_width : Z.

Lemma set_line_spacing_calls (spacing : str) :
  emits_only (call_ok paper_size) (set_line_spacing rejects spacing).
Proof. unfold set_line_spacing. repeat emits_step; call_ok_solve. Qed.

Lemma emit_heading_calls (b : bool) (size : Z) (text : str) :
  size = 1 \/ 3 <= size <= 8 ->
  emits_only (call_ok paper_size) (emit_heading rejects char_width b size text).
Proof. intros Hs. unfold emit_heading. repeat emits_step; call_ok_solve. Qed.

Lemma emit_centered_calls (text : str) :
  emits_only (call_ok paper_size) (emit_centered rejects char_width text).
Proof. unfold emit_centered. repeat emits_step; call_ok_solve. Qed.

Lemma process_center_child_calls (child : node) :
  emits_only (call_ok paper_size) (process_center_child rejects char_width child).
Proof.
  unfold process_center_child. destruct child as [t|[|c name] attrs cs].
  - destruct (nonempty (strip t)); [apply emit_centered_calls|apply emits_only_ret].
  - apply emits_only_ret.
  - destruct (is_heading (lower (c :: name))).
    + apply emit_heading_calls, heading_size_range.
    + destruct (nonempty (get_text (Elem (c :: name) attrs cs)));
        [apply emit_centered_calls|apply emits_only_ret].
Qed.

Lemma process_paragraph_calls (element : node) :
  emits_only (call_ok paper_size) (process_paragraph rejects paper_size font_size element).
Proof. unfold process_paragraph. repeat emits_step; call_ok_solve. Qed.

Lemma process_styled_calls (on off : kwarg) (element : node) :
  emits_only (call_ok paper_size) (process_styled rejects on off element).
Proof. unfold process_styled. repeat emits_step; call_ok_solve. Qed.

Lemma process_img_calls (element : node) :
  emits_only (call_ok paper_size)
    (process_img rejects open_image resize_raises paper_size element).
Proof.
  unfold process_img.
  destruct (contains (lit "base64") (get_attr_or element (lit "src") [])).
  - destruct (match nth_error (split_on 44%N [] (get_attr_or element (lit "src") [])) 1 with
              | Some img_b64 => open_image img_b64
              | None => None
              end) as [[ow oh]|]; [|apply emits_only_ret].
    destruct (image_requested element) as [w h].
    apply emits_only_bind_lift. intros [nw nh] Hsize.
    apply image_target_size_width in Hsize.
    destruct (resize_raises nw nh); [apply emits_only_lift|].
    repeat emits_step; try call_ok_solve. exact Hsize.
  - destruct (get_attr element (lit "data-type")) as [ty|]; [|apply emits_only_ret].
    destruct (str_eqb ty (lit "qr")); [|apply emits_only_ret].
    destruct (nonempty (get_attr_or element (lit "data-value") [])); [|apply emits_only_ret].
    apply emits_only_bind; [|intros _; apply emits_only_call; exact I].
    apply emits_only_call. cbn [call_ok].
    destruct (str_eqb paper_size (lit "80mm")); [now right|reflexivity].
Qed.

Lemma process_barcode_calls (element : node) :
  emits_only (call_ok paper_size) (process_barcode rejects paper_size element).
Proof.
  unfold process_barcode.
  apply emits_only_bind; [|intros _; apply emits_only_call; exact I].
  apply emits_only_call. cbn [call_ok]. repeat split.
Qed.

Lemma process_qr_calls (element : node) :
  emits_only (call_ok paper_size) (process_qr rejects paper_size element).
Proof.
  unfold process_qr.
  apply emits_only_bind; [|intros _; apply emits_only_call; exact I].
  apply emits_only_call. cbn [call_ok].
  destruct (str_eqb paper_size (lit "80mm")); [now left|reflexivity].
Qed.

Lemma process_hr_calls (element : node) :
  emits_only (call_ok paper_size)
    (process_hr rejects paper_size font_size line_spacing element).
Proof.
  unfold process_hr. apply emits_only_bind_lift. intros w _.
  apply emits_only_try.
  - repeat (apply emits_only_bind; [|intros _]);
      first [apply set_line_spacing_calls | apply emits_only_call; call_ok_solve].
  - repeat (apply emits_only_bind; [|intros _]); apply emits_only_call; call_ok_solve.
Qed.

Lemma process_rule_row_calls (cells : list node) :
  emits_only (call_ok paper_size)
    (process_rule_row rejects paper_size font_size line_spacing cells).
Proof.
  unfold process_rule_row. apply emits_only_bind_lift. intros w _.
  apply emits_only_try.
  - apply emits_only_bind; [apply emits_only_call; call_ok_solve|intros _].
    apply emits_only_bind; [|intros _].
    + destruct (str_eqb paper_size (lit "58mm"));
        repeat (apply emits_only_bind; [|intros _]); apply emits_only_call; call_ok_solve.
    + apply emits_only_bind; [apply set_line_spacing_calls|intros _].
      apply emits_only_call; call_ok_solve.
  - repeat (apply emits_only_bind; [|intros _]); apply emits_only_call; call_ok_solve.
Qed.

Lemma process_row_calls (table_width : Z) (tr : node) :
  emits_only (call_ok paper_size)
    (process_row rejects paper_size font_size line_spacing table_width tr).
Proof.
  unfold process_row. destruct (find_all [lit "td"; lit "th"] tr) as [|c cells].
  - apply emits_only_ret.
  - destruct (existsb (has_tag_named (lit "hr")) (c :: cells)).
    + apply process_rule_row_calls.
    + apply emits_only_bind_lift. intros line _.
      repeat (apply emits_only_bind; [|intros _]);
        repeat match goal with
               | |- emits_only _ (if ?b then _ else _) => destruct b
               end; apply emits_only_call; call_ok_solve.
Qed.

Lemma process_table_calls (element : node) :
  emits_only (call_ok paper_size)
    (process_table rejects paper_size font_size line_spacing element).
Proof.
  unfold process_table. apply emits_only_bind_lift. intros tw _.
  apply emits_only_for_each. intros tr _. apply process_row_calls.
Qed.

Lemma process_element_calls (element : node) :
  emits_only (call_ok paper_size)
    (process_element rejects open_image resize_raises paper_size font_size line_spacing
       char_width element).
Proof.
  induction element as [s|name attrs cs IH] using node_forall_ind.
  - apply emits_only_ret.
  - cbn [process_element]. cbv zeta.
    destruct (is_heading (lower name)); [apply emit_heading_calls, heading_size_range|].
    destruct (str_eqb (lower name) (lit "p")); [apply process_paragraph_calls|].
    destruct (str_eqb (lower name) (lit "center")).
    { apply emits_only_for_each. intros c _. apply process_center_child_calls. }
    match goal with |- emits_only _ (if ?b then _ else _) => destruct b end.
    { destruct (nonempty (get_text (Elem name attrs cs)));
        [apply emit_centered_calls|apply emits_only_ret]. }
    destruct (str_eqb (lower name) (lit "b")); [apply process_styled_calls|].
    destruct (str_eqb (lower name) (lit "i")); [apply process_styled_calls|].
    destruct (str_eqb (lower name) (lit "u")); [apply process_styled_calls|].
    destruct (str_eqb (lower name) (lit "img")); [apply process_img_calls|].
    destruct (str_eqb (lower name) (lit "barcode")); [apply process_barcode_calls|].
    destruct (str_eqb (lower name) (lit "table")); [apply process_table_calls|].
    destruct (str_eqb (lower name) (lit "hr")); [apply process_hr_calls|].
    destruct (str_eqb (lower name) (lit "qr")); [apply process_qr_calls|].
    assert (Hwalk : emits_only (call_ok paper_size)
      ((fix walk (l : list node) : M unit :=
          match l with
          | [] => ret tt
          | child :: rest =>
              (if is_tag child
               then process_element rejects open_image resize_raises paper_size
                      font_size line_spacing char_width child
               else ret tt) ;; walk rest
          end) cs)).
    { induction IH as [|c cs Hc Hcs IHcs].
      - apply emits_only_ret.
      - apply emits_only_bind; [|intros _; exact IHcs].
        destruct (is_tag c); [exact Hc|apply emits_only_ret]. }
    destruct (is_container (lower name)); exact Hwalk.
Qed.

Lemma print_char_width_test_calls :
  emits_only (call_ok paper_size) (print_char_width_test rejects paper_size).
Proof.
  unfold print_char_width_test. apply emits_only_try; [|apply emits_only_ret].
  repeat (apply emits_only_bind; [|intros _]);
    try (apply emits_only_call; call_ok_solve).
  apply emits_only_bind_lift. intros w _. apply emits_only_call; call_ok_solve.
Qed.

End Calls.

(** X1: whatever the document, the paper, the fonts and the printer's
    reactions, every call that a render makes on the printer has one of
    the shapes of [call_ok]: the only raw commands are [ESC ! n] with a
    size code in {0, 1, 3..8} and [ESC 3 n] with a spacing in
    {5, 10, 50, 60}; the paper is fed by 1, 2 or -2 lines only; no bitmap
    is wider than the paper's limit in pixels; QR codes have size 8 or 15
    on 80mm paper and 12 otherwise; barcodes are printed with width 2 on
    80mm paper and 1 otherwise, height 80, the text below, font A. *)
Theorem render_calls_are_well_formed
  (rejects : list sink_op -> sink_op -> bool)
  (open_image : str -> option (Z * Z)) (resize_raises : Z -> Z -> bool)
  (document : list node) (paper_size font_size : str) (test_width : bool)
  (line_spacing : str) :
  emits_only (call_ok paper_size)
    (process_html_for_escpos rejects open_image resize_raises document paper_size
       font_size test_width line_spacing).
Proof.
  unfold process_html_for_escpos.
  apply emits_only_bind; [apply set_line_spacing_calls|intros _].
  apply emits_only_bind_lift. intros cw _.
  apply emits_only_bind.
  - destruct test_width; [apply print_char_width_test_calls|apply emits_only_ret].
  - intros _. unfold process_children. apply emits_only_for_each. intros element _.
    destruct (is_tag element); [apply process_element_calls|apply emits_only_ret].
Qed.

(** ** The text lines of a table *)

Lemma char_width_int_table (paper_size font_size : str) :
  char_width_int paper_size font_size (lit "table") = Ok (base_width_of paper_size font_size).
Proof. unfold char_width_int. rewrite get_char_width_table. reflexivity. Qed.

(** The rule width [int(get_char_width(..., 'wide'))] is positive and
    smaller than the base width. *)
Lemma char_width_int_wide (paper_size font_size : str) :
  exists w, char_width_int paper_size font_size (lit "wide") = Ok w /\
            0 < w < base_width_of paper_size font_size.
Proof.
  pose proof (base_width_cases paper_size font_size) as Hc. cbv zeta in Hc.
  unfold char_width_int, get_char_width.
  replace (str_eqb (lit "wide") (lit "table")) with false by reflexivity.
  replace (str_eqb (lit "wide") (lit "header")) with false by reflexivity.
  replace (str_eqb (lit "wide") (lit "narrow")) with false by reflexivity.
  replace (str_eqb (lit "wide") (lit "wide")) with true by reflexivity.
  destruct Hc as [[Hn Hb]|[Hn Hb]]; rewrite Hn;
    repeat (destruct Hb as [Hb|Hb]); rewrite Hb;
    eexists; (split; [vm_compute; reflexivity|lia]).
Qed.

Section TableLines.
Variable rejects : list sink_op -> sink_op -> bool.
Variables paper_size font_size line_spacing : str.

Lemma set_line_spacing_emits (P : sink_op -> Prop) (spacing : str) :
  (forall bytes, P (OpRaw bytes)) -> emits_only P (set_line_spacing rejects spacing).
Proof. intros H. unfold set_line_spacing. repeat emits_step; apply H. Qed.

Lemma process_rule_row_lines (hrw : Z) (cells : list node) :
  char_width_int paper_size font_size (lit "wide") = Ok hrw -> 0 < hrw ->
  emits_only (text_len_is hrw)
    (process_rule_row rejects paper_size font_size line_spacing cells).
Proof.
  intros Hw Hpos. unfold process_rule_row.
  apply emits_only_bind_lift. intros w Ew. rewrite Hw in Ew. injection Ew as <-.
  assert (Hline : forall c, len (times c hrw) = hrw) by (intros c; rewrite len_times; lia).
  repeat emits_step;
    try (apply set_line_spacing_emits; intros; exact I);
    try exact I; cbn [text_len_is]; apply Hline.
Qed.

Lemma process_row_lines (hrw : Z) (tr : node) :
  char_width_int paper_size font_size (lit "wide") = Ok hrw -> 0 < hrw ->
  emits_only
    (text_len_is (if row_has_rule tr then hrw else base_width_of paper_size font_size))
    (process_row rejects paper_size font_size line_spacing
       (base_width_of paper_size font_size) tr).
Proof.
  intros Hw Hpos. unfold process_row, row_has_rule.
  destruct (find_all [lit "td"; lit "th"] tr) as [|c cells]; [apply emits_only_ret|].
  destruct (existsb (has_tag_named (lit "hr")) (c :: cells)).
  - now apply process_rule_row_lines.
  - apply emits_only_bind_lift. intros line Hline.
    assert (Hlen : len line = base_width_of paper_size font_size).
    { unfold table_row_line in Hline.
      destruct (match c :: cells, cell_texts (c :: cells) with
                | [cell], [text] =>
                    Ok (single_column_line (base_width_of paper_size font_size) cell text)
                | _, _ =>
                    multi_column_line (base_width_of paper_size font_size) (c :: cells)
                      (cell_texts (c :: cells))
                end) as [l|e]; simpl in Hline; [|discriminate].
      injection Hline as <-. apply len_fit_line.
      pose proof (base_width_pos paper_size font_size). lia. }
    repeat emits_step; try exact I; cbn [text_len_is]; exact Hlen.
Qed.

End TableLines.

Lemma process_element_table
  (rejects : list sink_op -> sink_op -> bool)
  (open_image : str -> option (Z * Z)) (resize_raises : Z -> Z -> bool)
  (paper_size font_size line_spacing : str) (char_width : Z)
  (attrs : list (str * str)) (cs : list node) :
  has_center_style (Elem (lit "table") attrs cs) = false ->
  process_element rejects open_image resize_raises paper_size font_size line_spacing
    char_width (Elem (lit "table") attrs cs)
  = process_table rejects paper_size font_size line_spacing (Elem (lit "table") attrs cs).
Proof.
  intros H. unfold has_center_style in H.
  cbn -[process_table get_attr get_text emit_centered emit_heading nonempty contains lit].
  rewrite H. reflexivity.
Qed.

(** X2: the table branch -- which a [<table>] without a
    [text-align:center] style reaches -- processes the [<tr>] rows of the
    table one after the other, and on any printer every text line sent
    for a row that holds an [<hr>] is exactly as long as the rule width
    [int(get_char_width(paper, font, 'wide'))], while every text line
    sent for any other row is exactly as long as the table width
    [get_char_width(paper, font, 'table')]; the rule width is positive
    and smaller than the table width. *)
Theorem process_table_lines
  (rejects : list sink_op -> sink_op -> bool)
  (open_image : str -> option (Z * Z)) (resize_raises : Z -> Z -> bool)
  (paper_size font_size line_spacing : str) (char_width : Z) :
  exists hr_width,
    char_width_int paper_size font_size (lit "wide") = Ok hr_width /\
    0 < hr_width < base_width_of paper_size font_size /\
    get_char_width paper_size font_size (lit "table")
      = Ok (PyInt (base_width_of paper_size font_size)) /\
    (forall attrs cs log,
       has_center_style (Elem (lit "table") attrs cs) = false ->
       process_element rejects open_image resize_raises paper_size font_size line_spacing
         char_width (Elem (lit "table") attrs cs) log
       = for_each
           (process_row rejects paper_size font_size line_spacing
              (base_width_of paper_size font_size))
           (find_all [lit "tr"] (Elem (lit "table") attrs cs)) log) /\
    (forall tr,
       emits_only
         (text_len_is (if row_has_rule tr then hr_width
                       else base_width_of paper_size font_size))
         (process_row rejects paper_size font_size line_spacing
            (base_width_of paper_size font_size) tr)).
Proof.
  destruct (char_width_int_wide paper_size font_size) as [hrw [Hw Hr]].
  exists hrw. split; [exact Hw|]. split; [exact Hr|].
  split; [apply get_char_width_table|]. split.
  - intros attrs cs log Hc. rewrite process_element_table by exact Hc.
    unfold process_table. rewrite char_width_int_table. reflexivity.
  - intros tr. apply process_row_lines; [exact Hw|lia].
Qed.

(** ** Tags the walker does not render *)

Lemma for_each_app {A : Type} (body : A -> M unit) (a b : list A) (log : list sink_op) :
  for_each body (a ++ b) log = (for_each body a ;; for_each body b) log.
Proof.
  revert log. induction a as [|x a IH]; intros log; [reflexivity|].
  cbn [app for_each]. unfold bind in *.
  destruct (body x log) as [[u|e] log1]; [apply IH|reflexivity].
Qed.

Lemma rendered_tag_false (n : str) :
  rendered_tag n = false ->
  is_heading n = false /\
  str_eqb n (lit "p") = false /\ str_eqb n (lit "center") = false /\
  str_eqb n (lit "b") = false /\ str_eqb n (lit "i") = false /\
  str_eqb n (lit "u") = false /\ str_eqb n (lit "img") = false /\
  str_eqb n (lit "barcode") = false /\ str_eqb n (lit "table") = false /\
  str_eqb n (lit "hr") = false /\ str_eqb n (lit "qr") = false.
Proof.
  unfold rendered_tag, mem. cbn [existsb]. intros H.
  apply orb_false_iff in H as [H0 H].
  repeat (apply orb_false_iff in H as [? H]).
  repeat split; assumption.
Qed.

Section PassThrough.
Variable rejects : list sink_op -> sink_op -> bool.
Variable open_image : str -> option (Z * Z).
Variable resize_raises : Z -> Z -> bool.
Variables paper_size font_size line_spacing : str.
Variable char_width : Z.

Lemma process_children_filter (nodes : list node) (log : list sink_op) :
  process_children rejects open_image resize_raises paper_size font_size line_spacing
    char_width (filter is_tag nodes) log
  = process_children rejects open_image resize_raises paper_size font_size line_spacing
      char_width nodes log.
Proof.
  revert log. induction nodes as [|n nodes IH]; intros log; [reflexivity|].
  cbn [filter]. unfold process_children in *. destruct (is_tag n) eqn:E.
  - cbn [for_each]. rewrite E. unfold bind.
    destruct (process_element rejects open_image resize_raises paper_size font_size
                line_spacing char_width n log) as [[[]|e] log1]; [apply IH|reflexivity].
  - cbn [for_each]. rewrite E. unfold bind, ret. apply IH.
Qed.

Lemma process_children_app (a b : list node) (log : list sink_op) :
  process_children rejects open_image resize_raises paper_size font_size line_spacing
    char_width (a ++ b) log
  = (process_children rejects open_image resize_raises paper_size font_size line_spacing
       char_width a ;;
     process_children rejects open_image resize_raises paper_size font_size line_spacing
       char_width b) log.
Proof. apply for_each_app. Qed.

End PassThrough.

(** X3: a tag that the walker does not render itself (any name other
    than [h1]..[h6], [p], [center], [b], [i], [u], [img], [barcode],
    [table], [hr] and [qr]) and that carries no [text-align:center] style
    is transparent: rendering it is rendering its child tags in order,
    on any printer and from any state of it; the text that stands
    directly inside such a tag is not printed. *)
Theorem pass_through
  (rejects : list sink_op -> sink_op -> bool)
  (open_image : str -> option (Z * Z)) (resize_raises : Z -> Z -> bool)
  (paper_size font_size line_spacing : str) (char_width : Z)
  (name : str) (attrs : list (str * str)) (cs : list node) (log : list sink_op) :
  rendered_tag (lower name) = false ->
  has_center_style (Elem name attrs cs) = false ->
  process_element rejects open_image resize_raises paper_size font_size line_spacing
    char_width (Elem name attrs cs) log
  = process_children rejects open_image resize_raises paper_size font_size line_spacing
      char_width (filter is_tag cs) log.
Proof.
  intros Hr Hc. apply rendered_tag_false in Hr.
  destruct Hr as (H0 & H1 & H2 & H3 & H4 & H5 & H6 & H7 & H8 & H9 & H10).
  rewrite process_children_filter.
  cbn [process_element]. cbv zeta.
  rewrite H0, H1, H2. unfold has_center_style in Hc. rewrite Hc.
  rewrite H3, H4, H5, H6, H7, H8, H9, H10.
  assert (Hw : forall l lg,
     (fix walk (l : list node) : M unit :=
          match l with
          | [] => ret tt
          | child :: rest =>
              (if is_tag child
               then process_element rejects open_image resize_raises paper_size font_size
                      line_spacing char_width child
               else ret tt) ;; walk rest
          end) l lg
     = process_children rejects open_image resize_raises paper_size font_size line_spacing
         char_width l lg).
  { induction l as [|c l IHl]; intros lg; [reflexivity|].
    unfold process_children. cbn [for_each]. unfold bind.
    destruct ((if is_tag c
               then process_element rejects open_image resize_raises paper_size font_size
                      line_spacing char_width c
               else ret tt) lg) as [[[]|e] lg1];
      [apply IHl|reflexivity]. }
  destruct (is_container (lower name)); apply Hw.
Qed.

Lemma pass_through_witness :
  process_element accept_all (fun _ => None) (fun _ _ => false) (lit "80mm") (lit "normal")
    (lit "normal") 48 div_with_text []
  = process_children accept_all (fun _ => None) (fun _ _ => false) (lit "80mm")
      (lit "normal") (lit "normal") 48 [Elem (lit "p") [] [Text (lit "world")]] [].
Proof.
  apply (pass_through accept_all (fun _ => None) (fun _ _ => false) (lit "80mm")
           (lit "normal") (lit "normal") 48 (lit "div") []
           [Text (lit "hello "); Elem (lit "p") [] [Text (lit "world")]] []);
    reflexivity.
Defined.

(** ** Sink failures in the image branch *)

Lemma int_ratio_no_sink_error (a b c : Z) : int_ratio a b c <> Raise SinkError.
Proof.
  unfold int_ratio, int_truediv. destruct (c =? 0); [discriminate|].
  destruct (SFdiv prec emax (exact_int (a * b)) (exact_int c)) as [s|s| |s m e];
    cbn; try discriminate; destruct s; discriminate.
Qed.

Lemma image_target_size_no_sink_error (mx : Z) (w h : option Z) (ow oh : Z) :
  image_target_size mx w h ow oh <> Raise SinkError.
Proof.
  unfold image_target_size.
  match goal with
  | |- rbind ?first _ <> _ =>
      assert (Hfirst : first <> Raise SinkError);
      [|destruct first as [[nw nh]|e]; cbn [rbind]; [|congruence]]
  end.
  - destruct (truthy_dim w || truthy_dim h); [discriminate|].
    destruct (ow >? mx); [|discriminate].
    pose proof (int_ratio_no_sink_error mx oh ow) as H.
    destruct (int_ratio mx oh ow); cbn [rbind]; [discriminate|congruence].
  - destruct (nw >? mx); [|discriminate].
    pose proof (int_ratio_no_sink_error mx nh nw) as H.
    destruct (int_ratio mx nh nw); cbn [rbind]; [discriminate|congruence].
Qed.

(** X4: in the branch of an [<img>] with a base64 source, a failure of
    the printer never leaves the branch: whatever calls the printer
    rejects, the branch does not end with the printer's exception. *)
Theorem image_branch_contains_sink_failures
  (rejects : list sink_op -> sink_op -> bool)
  (open_image : str -> option (Z * Z)) (resize_raises : Z -> Z -> bool)
  (paper_size : str) (element : node) (log : list sink_op) :
  contains (lit "base64") (get_attr_or element (lit "src") []) = true ->
  fst (process_img rejects open_image resize_raises paper_size element log)
    <> Raise SinkError.
Proof.
  intros Hb. unfold process_img. rewrite Hb.
  destruct (match nth_error (split_on 44%N [] (get_attr_or element (lit "src") [])) 1 with
            | Some img_b64 => open_image img_b64
            | None => None
            end) as [[ow oh]|]; [|discriminate].
  destruct (image_requested element) as [w h].
  unfold bind, lift.
  pose proof (image_target_size_no_sink_error (max_width_px paper_size) w h ow oh) as Ht.
  destruct (image_target_size (max_width_px paper_size) w h ow oh) as [[nw nh]|e];
    [|cbn; congruence].
  destruct (resize_raises nw nh); [discriminate|].
  unfold try_except, bind, call, ret.
  destruct (rejects log (OpImage nw nh)); [discriminate|].
  destruct (rejects (log ++ [OpImage nw nh]) (OpText [newline])); discriminate.
Qed.

Lemma image_branch_contains_sink_failures_witness :
  fst (process_img (reject_when is_image_op) (fun _ => Some (600, 400)) (fun _ _ => false)
         (lit "80mm") plain_img [])
    <> Raise SinkError.
Proof.
  apply (image_branch_contains_sink_failures (reject_when is_image_op)
           (fun _ => Some (600, 400)) (fun _ _ => false) (lit "80mm") plain_img []).
  reflexivity.
Defined.

(** ** Rules on a sink without backward feeds *)

(** X5: on a printer that rejects backward paper feeds, an [<hr>] is
    still printed, through the fallback of the branch: the alignment is
    set to centre twice (the second time with character size 1x1) and one
    text line made of the rule character, of the rule width
    [int(get_char_width(paper, font, 'wide'))], is sent; nothing is
    raised and the line spacing is left untouched. *)
Theorem process_hr_without_backward_feed
  (paper_size font_size line_spacing : str) (element : node) (log : list sink_op) :
  exists hr_width,
    char_width_int paper_size font_size (lit "wide") = Ok hr_width /\
    process_hr (reject_when is_negative_feed) paper_size font_size line_spacing element log
    = (Ok tt,
       log ++ [OpSet [KAlign AlignCenter; KFont 0];
               OpSet [KAlign AlignCenter; KFont 0; KCustomSize true; KWidth 1; KHeight 1];
               OpText (times (hr_char element) hr_width ++ [newline])]).
Proof.
  destruct (char_width_int_wide paper_size font_size) as [w [Hw _]].
  exists w. split; [exact Hw|].
  unfold process_hr, bind, lift. rewrite Hw.
  unfold try_except, bind, call, reject_when. cbn [is_negative_feed Z.ltb Z.compare].
  rewrite <- !app_assoc. reflexivity.
Qed.

(** ** Word wrap keeps the words *)

Lemma visible_app (a b : str) : visible (a ++ b) = visible a ++ visible b.
Proof. apply filter_app. Qed.

Lemma visible_id (s : str) : forallb (fun c => negb (is_space c)) s = true -> visible s = s.
Proof.
  induction s as [|c s IH]; [reflexivity|]. cbn [forallb visible filter].
  intros H. apply andb_true_iff in H as [Hc Hs]. rewrite Hc. f_equal. now apply IH.
Qed.

Lemma visible_rev (s : str) : visible (rev s) = rev (visible s).
Proof.
  induction s as [|c s IH]; [reflexivity|]. cbn [rev]. rewrite visible_app, IH.
  cbn [visible filter]. destruct (negb (is_space c)); cbn [rev]; [reflexivity|].
  now rewrite app_nil_r.
Qed.

(** The words of [split] are made of visible characters, and together
    they are the visible characters of the text. *)
Lemma split_acc_words (s cur : str) :
  forallb (fun c => negb (is_space c)) cur = true ->
  Forall (fun w => forallb (fun c => negb (is_space c)) w = true /\ w <> []) (split_acc cur s) /\
  concat (split_acc cur s) = rev cur ++ visible s.
Proof.
  revert cur. induction s as [|c s IH]; intros cur Hcur.
  - cbn [split_acc visible filter]. destruct cur as [|x cur].
    + split; [constructor|reflexivity].
    + split.
      * constructor; [|constructor]. split.
        -- rewrite forallb_forall in *. intros y Hy. apply Hcur. now apply in_rev.
        -- intros E. apply (f_equal (@length _)) in E. rewrite length_rev in E. discriminate.
      * cbn [concat]. now rewrite !app_nil_r.
  - cbn [split_acc visible filter]. destruct (is_space c) eqn:Ec; cbn [negb].
    + destruct (IH [] eq_refl) as [F E]. destruct cur as [|x cur].
      * split; [exact F|]. rewrite E. reflexivity.
      * split.
        -- constructor; [|exact F]. split.
           ++ rewrite forallb_forall in *. intros y Hy. apply Hcur. now apply in_rev.
           ++ intros E'. apply (f_equal (@length _)) in E'. rewrite length_rev in E'. discriminate.
        -- cbn [concat]. rewrite E. reflexivity.
    + assert (Hc : forallb (fun c0 => negb (is_space c0)) (c :: cur) = true).
      { cbn [forallb]. rewrite Ec. exact Hcur. }
      destruct (IH (c :: cur) Hc) as [F E]. split; [exact F|].
      rewrite E. cbn [rev]. rewrite <- app_assoc. reflexivity.
Qed.

Lemma split_words (s : str) :
  Forall (fun w => forallb (fun c => negb (is_space c)) w = true /\ w <> []) (split s) /\
  concat (split s) = visible s.
Proof. unfold split. apply (split_acc_words s [] eq_refl). Qed.

Lemma slice_to_from (n : Z) (s : str) : slice_to n s ++ slice_from n s = s.
Proof. unfold slice_to, slice_from. destruct (n <? 0); apply firstn_skipn. Qed.

Lemma visible_space_cons (s : str) : visible (space :: s) = visible s.
Proof. reflexivity. Qed.

Lemma wrap_words_visible (w : Z) (words : list str) :
  Forall (fun wd => forallb (fun c => negb (is_space c)) wd = true /\ wd <> []) words ->
  forall lines cur,
    visible (concat (rev (fst (wrap_words w words lines cur)))
             ++ snd (wrap_words w words lines cur))
    = visible (concat (rev lines) ++ cur) ++ concat words.
Proof.
  induction 1 as [|word words [Hword _] Hwords IH]; intros lines cur.
  - cbn [wrap_words fst snd concat]. now rewrite app_nil_r.
  - cbn [wrap_words concat].
    destruct (len (cur ++ match cur with [] => word | _ :: _ => space :: word end) <=? w).
    + rewrite IH. rewrite !visible_app, <- !app_assoc. do 2 f_equal.
      destruct cur; [cbn [visible filter]|rewrite visible_space_cons];
        now rewrite (visible_id word Hword).
    + destruct cur as [|c cur'].
      * rewrite IH. cbn [rev]. rewrite concat_app. cbn [concat]. rewrite !app_nil_r.
        rewrite <- app_assoc.
        assert (Hs : slice_to w word ++
                     (if len word >? w then slice_from w word else []) = word).
        { destruct (Z.gtb_spec (len word) w) as [Hgt|Hle]; [apply slice_to_from|].
          rewrite app_nil_r. unfold slice_to.
          pose proof (len_nonneg word) as Hn.
          destruct (Z.ltb_spec w 0); [lia|].
          apply firstn_all2. unfold len in Hle. lia. }
        unfold str, char in *. rewrite Hs. rewrite !visible_app. rewrite (visible_id word Hword).
        now rewrite <- app_assoc.
      * rewrite IH. cbn [rev]. rewrite concat_app. cbn [concat]. rewrite !app_nil_r.
        rewrite !visible_app. rewrite (visible_id word Hword).
        now rewrite <- !app_assoc.
Qed.

(** X6: the lines printed for a paragraph hold exactly the characters
    of its text that are not white space, in their order: wrapping (and
    the hard split of an over-long word) neither loses, repeats nor
    reorders a visible character, whatever the width. *)
Theorem paragraph_keeps_visible_characters (paragraph_width : Z) (text : str) :
  visible (concat (paragraph_lines paragraph_width text)) = visible text.
Proof.
  unfold paragraph_lines. destruct (len text >? paragraph_width).
  - unfold wrap_lines. destruct (split_words text) as [Hw Hc].
    pose proof (wrap_words_visible paragraph_width (split text) Hw [] []) as H.
    destruct (wrap_words paragraph_width (split text) [] []) as [lines cur].
    cbn [fst snd rev concat app visible filter] in H. rewrite Hc in H.
    destruct cur as [|c cur].
    + rewrite app_nil_r in H. exact H.
    + cbn [rev]. rewrite concat_app. cbn [concat]. rewrite app_nil_r. exact H.
  - cbn [concat]. now rewrite app_nil_r.
Qed.

(** ** Wrapped lines are runs of whole words *)

Lemma join_snoc (sep : str) (g : list str) (x : str) :
  g <> [] -> join sep (g ++ [x]) = join sep g ++ sep ++ x.
Proof.
  induction g as [|a g IH]; [congruence|]. intros _.
  destruct g as [|b g].
  - reflexivity.
  - change (join sep ((a :: b :: g) ++ [x])) with (a ++ sep ++ join sep ((b :: g) ++ [x])).
    rewrite IH by discriminate.
    change (join sep (a :: b :: g)) with (a ++ sep ++ join sep (b :: g)).
    now rewrite <- !app_assoc.
Qed.

Lemma join_nil_inv (sep : str) (g : list str) :
  Forall (fun w => w <> []) g -> join sep g = [] -> g = [].
Proof.
  intros Hg Hj. destruct g as [|a g]; [reflexivity|].
  inversion Hg as [|? ? Ha _]; subst.
  destruct g; cbn [join] in Hj; [congruence|].
  destruct a; [congruence|discriminate].
Qed.

Lemma wrap_words_groups (w : Z) (words : list str) :
  Forall (fun wd => wd <> [] /\ len wd <= w) words ->
  forall lines cur G g,
    rev lines = map (join [space]) G -> Forall (fun x => x <> []) G ->
    cur = join [space] g -> Forall (fun wd => wd <> []) g ->
    exists G' g',
      rev (fst (wrap_words w words lines cur)) = map (join [space]) G' /\
      Forall (fun x => x <> []) G' /\
      snd (wrap_words w words lines cur) = join [space] g' /\
      Forall (fun wd => wd <> []) g' /\
      concat G' ++ g' = concat G ++ g ++ words.
Proof.
  induction 1 as [|word words [Hne Hlen] Hwords IH]; intros lines cur G g HG HGne Hcur Hg.
  - exists G, g. cbn [wrap_words fst snd]. rewrite app_nil_r. repeat split; assumption.
  - cbn [wrap_words].
    destruct (len (cur ++ match cur with [] => word | _ :: _ => space :: word end) <=? w) eqn:Efit.
    + destruct (IH lines
                  (cur ++ match cur with [] => word | _ :: _ => space :: word end)
                  G (g ++ [word])) as (G' & g' & H1 & H2 & H3 & H4 & H5);
        try assumption.
      * destruct cur as [|c cur'].
        -- symmetry in Hcur. apply join_nil_inv in Hcur; [|assumption]. subst g. reflexivity.
        -- assert (g <> []) by (intros ->; discriminate).
           rewrite join_snoc by assumption. now rewrite <- Hcur.
      * apply Forall_app. split; [assumption|now constructor].
      * exists G', g'. repeat split; try assumption.
        rewrite H5. now rewrite <- !app_assoc.
    + destruct cur as [|c cur'].
      * cbn [app] in Efit. apply Z.leb_gt in Efit. lia.
      * assert (Hgne : g <> []) by (intros ->; discriminate).
        destruct (IH ((c :: cur') :: lines) word (G ++ [g]) [word])
          as (G' & g' & H1 & H2 & H3 & H4 & H5).
        -- cbn [rev]. rewrite HG, map_app, Hcur. reflexivity.
        -- apply Forall_app. split; [assumption|now constructor].
        -- reflexivity.
        -- now constructor.
        -- exists G', g'. repeat split; try assumption.
           rewrite H5, concat_app. cbn [concat]. rewrite app_nil_r.
           now rewrite <- !app_assoc.
Qed.

(** X7: when no word of a paragraph is longer than the width, the
    wrapped lines are the words of the text, in order and none missing,
    cut into non-empty runs; each line is its run joined by single
    blanks, and no line is longer than the width. *)
Theorem wrap_lines_are_word_groups (paragraph_width : Z) (text : str) :
  0 <= paragraph_width ->
  Forall (fun word => len word <= paragraph_width) (split text) ->
  exists groups,
    concat groups = split text /\
    Forall (fun g => g <> []) groups /\
    wrap_lines paragraph_width text = map (join [space]) groups /\
    Forall (fun line => len line <= paragraph_width) (wrap_lines paragraph_width text).
Proof.
  intros Hw Hlen.
  assert (Hwords : Forall (fun wd => wd <> [] /\ len wd <= paragraph_width) (split text)).
  { destruct (split_words text) as [Hv _]. rewrite Forall_forall in *.
    intros x Hx. split; [apply (Hv x Hx)|apply (Hlen x Hx)]. }
  destruct (wrap_words_groups paragraph_width (split text) Hwords [] [] [] []
              eq_refl (Forall_nil _) eq_refl (Forall_nil _))
    as (G' & g' & H1 & H2 & H3 & H4 & H5).
  pose proof (wrap_words_bounded paragraph_width (split text) Hlen [] []
                (Forall_nil _) Hw) as [Hl Hc].
  unfold wrap_lines.
  destruct (wrap_words paragraph_width (split text) [] []) as [lines cur].
  cbn [fst snd] in *. cbn [concat app] in H5.
  destruct cur as [|c cur].
  - symmetry in H3. apply join_nil_inv in H3; [|assumption]. subst g'.
    rewrite app_nil_r in H5. exists G'. repeat split; try assumption.
    now apply Forall_rev.
  - exists (G' ++ [g']). repeat split.
    + rewrite concat_app. cbn [concat]. now rewrite app_nil_r.
    + apply Forall_app. split; [assumption|]. constructor; [|constructor].
      intros ->. discriminate.
    + cbn [rev]. rewrite H1, map_app, H3. reflexivity.
    + apply Forall_rev. now constructor.
Qed.

Lemma wrap_lines_are_word_groups_witness :
  exists groups,
    concat groups = split wrapped_text /\
    Forall (fun g => g <> []) groups /\
    wrap_lines 10 wrapped_text = map (join [space]) groups /\
    Forall (fun line => len line <= 10) (wrap_lines 10 wrapped_text).
Proof.
  apply (wrap_lines_are_word_groups 10 wrapped_text).
  - lia.
  - vm_compute. repeat constructor; discriminate.
Defined.

(** ** Column widths are never negative *)

Lemma span_digits_digits (s : str) : forallb is_digit (fst (span_digits s)) = true.
Proof.
  induction s as [|c s IH]; [reflexivity|]. cbn [span_digits].
  destruct (is_digit c) eqn:E; [|reflexivity].
  destruct (span_digits s) as [d r]. cbn [fst forallb] in *. now rewrite E, IH.
Qed.

Lemma int_of_digits_nonneg (s : str) : forallb is_digit s = true -> 0 <= int_of_digits s.
Proof.
  unfold int_of_digits. intros H.
  assert (G : forall acc, 0 <= acc ->
            0 <= fold_left (fun a c => 10 * a + (Z.of_N c - 48)) s acc).
  { induction s as [|c s IH]; intros acc Hacc; [exact Hacc|].
    cbn [fold_left forallb] in *. apply andb_true_iff in H as [Hc Hs].
    apply IH; [exact Hs|]. unfold is_digit in Hc.
    apply andb_true_iff in Hc as [Hc1 Hc2]. apply N.leb_le in Hc1. lia. }
  apply G. lia.
Qed.

Lemma re_search_some {A : Type} (m : str -> option A) (s : str) (a : A) :
  re_search m s = Some a -> exists t, m t = Some a.
Proof.
  induction s as [|c s IH]; cbn [re_search]; intros H.
  - destruct (m []) eqn:E; [injection H as <-; now exists []|discriminate].
  - destruct (m (c :: s)) eqn:E; [injection H as <-; now exists (c :: s)|].
    now apply IH.
Qed.

Lemma match_width_value_digits (s g : str) :
  match_width_value s = Some g -> forallb is_digit g = true.
Proof.
  unfold match_width_value. destruct (match_width_colon s) as [r|]; [|discriminate].
  pose proof (span_digits_digits r) as H.
  destruct (fst (span_digits r)) as [|c d]; [discriminate|].
  intros E. injection E as <-. exact H.
Qed.

Lemma style_widths_fixed_nonneg (style : str) (wp : option float) (wf : option Z) :
  style_widths style = Ok (wp, wf) -> fixed_nonneg wf.
Proof.
  unfold style_widths.
  destruct (re_search match_width_value style) as [g|] eqn:Eg.
  - apply re_search_some in Eg as [t Et]. apply match_width_value_digits in Et.
    apply int_of_digits_nonneg in Et.
    destruct (contains (lit "ch") style).
    { intros E. injection E as _ <-. exact Et. }
    destruct (contains (lit "em") style).
    { destruct (int_mul_float (int_of_digits g) (decimal 14 1)) as [x|e]; cbn [rbind];
        [|discriminate].
      destruct (float_trunc x) as [v|e]; cbn [rbind]; [|discriminate].
      intros E. injection E as _ <-. cbn. lia. }
    destruct (contains (lit "%") style).
    { destruct (float_of_int (int_of_digits g)); cbn [rbind]; [|discriminate].
      intros E. injection E as _ <-. exact I. }
    intros E. injection E as _ <-. cbn. lia.
  - intros E. injection E as _ <-. exact I.
Qed.

Lemma cell_style_fixed_nonneg (i : nat) (cell : node) (col : str) (st : style_info) :
  cell_style i cell col = Ok st -> fixed_nonneg (width_fixed st).
Proof.
  unfold cell_style. destruct (has_attr cell (lit "style")).
  - destruct (style_widths (lower (get_attr_or cell (lit "style") []))) as [[wp wf]|e] eqn:E;
      cbn [rbind]; [|discriminate].
    intros H. injection H as <-. cbn. now apply style_widths_fixed_nonneg in E.
  - intros H. injection H as <-. exact I.
Qed.

Lemma cell_styles_from_spec (cells : list node) :
  forall cols i styles,
    cell_styles_from i cells cols = Ok styles ->
    List.length styles = Nat.min (List.length cells) (List.length cols) /\
    Forall (fun st => fixed_nonneg (width_fixed st)) styles.
Proof.
  induction cells as [|cell cells IH]; intros cols i styles H.
  - injection H as <-. split; [reflexivity|constructor].
  - destruct cols as [|col cols].
    + injection H as <-. split; [reflexivity|constructor].
    + cbn [cell_styles_from] in H.
      destruct (cell_style i cell col) as [st|e] eqn:Est; cbn [rbind] in H; [|discriminate].
      destruct (cell_styles_from (S i) cells cols) as [rest|e] eqn:Er; cbn [rbind] in H;
        [|discriminate].
      injection H as <-. destruct (IH cols (S i) rest Er) as [Hl Hf].
      split; [cbn; now rewrite Hl|].
      constructor; [now apply cell_style_fixed_nonneg in Est|exact Hf].
Qed.

Lemma initial_width_nonneg (table_width : Z) (st : style_info) (w : Z) :
  fixed_nonneg (width_fixed st) -> initial_width table_width st = Ok w -> 0 <= w.
Proof.
  unfold initial_width. intros Hf. destruct (percent_truthy st).
  - destruct (width_percent st) as [pct|]; [|intros E; injection E as <-; lia].
    destruct (int_mul_float table_width pct); cbn [rbind]; [|discriminate].
    destruct (float_of_int 100); cbn [rbind]; [|discriminate].
    destruct (float_div _ _); cbn [rbind]; [|discriminate].
    destruct (float_trunc _); cbn [rbind]; [|discriminate].
    intros E. injection E as <-. lia.
  - destruct (fixed_truthy st).
    + destruct (width_fixed st); intros E; injection E as <-; [exact Hf|lia].
    + intros E. injection E as <-. lia.
Qed.

Lemma rmap_forall2 {A B : Type} (f : A -> result B) (l : list A) (l' : list B) :
  rmap f l = Ok l' -> Forall2 (fun a b => f a = Ok b) l l'.
Proof.
  revert l'. induction l as [|a l IH]; intros l' H.
  - injection H as <-. constructor.
  - cbn [rmap] in H. destruct (f a) as [b|e] eqn:Ea; cbn [rbind] in H; [|discriminate].
    destruct (rmap f l) as [bs|e]; cbn [rbind] in H; [|discriminate].
    injection H as <-. constructor; [exact Ea|now apply IH].
Qed.

Lemma list_set_length (l : list Z) (i : nat) (v : Z) :
  List.length (list_set l i v) = List.length l.
Proof.
  revert i. induction l as [|x l IH]; intros [|i]; cbn; try reflexivity. now rewrite IH.
Qed.

Lemma list_set_forall (P : Z -> Prop) (l : list Z) (i : nat) (v : Z) :
  Forall P l -> P v -> Forall P (list_set l i v).
Proof.
  intros Hl Hv. revert i. induction Hl as [|x l Hx Hl IH]; intros [|i]; cbn;
    try constructor; auto.
Qed.

Lemma distribute_by_content_spec (remaining total : Z) (styles : list style_info)
  (flex : list nat) :
  forall ws ws',
    distribute_by_content remaining total styles flex ws = Ok ws' ->
    Forall (fun w => 0 <= w) ws ->
    List.length ws' = List.length ws /\ Forall (fun w => 0 <= w) ws'.
Proof.
  induction flex as [|i flex IH]; intros ws ws' H Hws.
  - injection H as <-. now split.
  - cbn [distribute_by_content] in H.
    destruct (int_truediv _ total) as [r|e]; cbn [rbind] in H; [|discriminate].
    destruct (int_mul_float remaining r) as [x|e]; cbn [rbind] in H; [|discriminate].
    destruct (float_trunc x) as [v|e]; cbn [rbind] in H; [|discriminate].
    apply IH in H.
    + rewrite list_set_length in H. exact H.
    + apply list_set_forall; [exact Hws|lia].
Qed.

Lemma distribute_evenly_spec (flex_width extra_width : Z) (flex : list nat) :
  0 <= flex_width ->
  forall i ws,
    Forall (fun w => 0 <= w) ws ->
    List.length (distribute_evenly flex_width extra_width i flex ws) = List.length ws /\
    Forall (fun w => 0 <= w) (distribute_evenly flex_width extra_width i flex ws).
Proof.
  intros Hf. induction flex as [|j flex IH]; intros i ws Hws; cbn [distribute_evenly].
  - now split.
  - destruct (IH (i + 1)
                (list_set ws j (flex_width + (if i <? extra_width then 1 else 0)))) as [H1 H2].
    + apply list_set_forall; [exact Hws|]. destruct (i <? extra_width); lia.
    + rewrite list_set_length in H1. now split.
Qed.

Lemma distribute_flexible_spec (table_width : Z) (styles : list style_info) (ws ws' : list Z) :
  distribute_flexible table_width styles ws = Ok ws' ->
  Forall (fun w => 0 <= w) ws ->
  List.length ws' = List.length ws /\ Forall (fun w => 0 <= w) ws'.
Proof.
  unfold distribute_flexible. intros H Hws.
  destruct (negb (Nat.eqb (List.length (flexible_columns styles)) 0) &&
            (table_width - zsum ws >? 0)).
  - match type of H with (if ?c then _ else _) = _ => destruct c end.
    + now apply distribute_by_content_spec in H.
    + injection H as <-. apply distribute_evenly_spec; [lia|exact Hws].
  - injection H as <-. now split.
Qed.

Lemma bump_spec (k : nat) (d : Z) (ws : list Z) :
  -1 <= d -> Forall (fun w => 1 <= w) ws ->
  List.length (bump k d ws) = List.length ws /\ Forall (fun w => 0 <= w) (bump k d ws).
Proof.
  intros Hd Hws. revert k. induction Hws as [|w ws Hw Hws IH]; intros [|k]; cbn [bump].
  - split; [reflexivity|constructor].
  - split; [reflexivity|constructor].
  - split; [reflexivity|]. constructor; [lia|]. eapply Forall_impl; [|exact Hws].
    cbn. intros. lia.
  - destruct (IH k) as [H1 H2]. split; [cbn; now rewrite H1|]. constructor; [lia|exact H2].
Qed.

Lemma scaled_widths_spec (table_width : Z) (ws scaled : list Z) :
  scaled_widths table_width ws = Ok scaled ->
  List.length scaled = List.length ws /\ Forall (fun w => 1 <= w) scaled.
Proof.
  unfold scaled_widths.
  destruct (int_truediv table_width (zsum ws)) as [factor|e]; cbn [rbind]; [|discriminate].
  intros H. apply rmap_forall2 in H.
  induction H as [|w s ws scaled Hs H IH].
  - split; [reflexivity|constructor].
  - destruct IH as [IH1 IH2]. split; [cbn; now rewrite IH1|]. constructor; [|exact IH2].
    unfold scale_width in Hs.
    destruct (int_mul_float w factor) as [x|e]; cbn [rbind] in Hs; [|discriminate].
    destruct (float_trunc x) as [v|e]; cbn [rbind] in Hs; [|discriminate].
    injection Hs as <-. lia.
Qed.

Lemma fit_total_spec (table_width : Z) (ws ws' : list Z) :
  fit_total table_width ws = Ok ws' ->
  Forall (fun w => 0 <= w) ws ->
  List.length ws' = List.length ws /\ Forall (fun w => 0 <= w) ws'.
Proof.
  unfold fit_total. intros H Hws. destruct (zsum ws >? table_width).
  - destruct (scaled_widths table_width ws) as [scaled|e] eqn:Es; cbn [rbind] in H;
      [|discriminate].
    injection H as <-. apply scaled_widths_spec in Es as [El Ef].
    rewrite <- El. apply bump_spec; [|exact Ef].
    destruct (table_width - zsum scaled >? 0); lia.
  - injection H as <-. now split.
Qed.

Lemma column_widths_spec (table_width : Z) (styles : list style_info) (ws : list Z) :
  Forall (fun st => fixed_nonneg (width_fixed st)) styles ->
  column_widths table_width styles = Ok ws ->
  List.length ws = List.length styles /\ Forall (fun w => 0 <= w) ws.
Proof.
  unfold column_widths. intros Hst H.
  destruct (rmap (initial_width table_width) styles) as [ws0|e] eqn:E0; cbn [rbind] in H;
    [|discriminate].
  destruct (distribute_flexible table_width styles ws0) as [ws1|e] eqn:E1; cbn [rbind] in H;
    [|discriminate].
  apply rmap_forall2 in E0.
  assert (H0 : List.length ws0 = List.length styles /\ Forall (fun w => 0 <= w) ws0).
  { clear E1 H. induction E0 as [|st w styles ws0 Hw E0 IH].
    - split; [reflexivity|constructor].
    - inversion Hst as [|? ? Hs Hss]; subst. destruct (IH Hss) as [I1 I2].
      split; [cbn; now rewrite I1|]. constructor; [|exact I2].
      now apply (initial_width_nonneg table_width st). }
  destruct H0 as [L0 F0].
  apply distribute_flexible_spec in E1 as [L1 F1]; [|exact F0].
  apply fit_total_spec in H as [L2 F2]; [|exact F1].
  split; [congruence|exact F2].
Qed.

(** ** A formatted cell is exactly as wide as its column *)

Lemma len_format_col (col : str) (w : Z) (st : style_info) :
  0 <= w -> len (format_col col w st) = w.
Proof.
  intros Hw. unfold format_col. rewrite len_apply_align, len_truncate by exact Hw.
  pose proof (len_nonneg col). lia.
Qed.

Lemma len_concat_format_cols (cols : list str) :
  forall ws styles,
    List.length ws = List.length cols -> List.length styles = List.length cols ->
    Forall (fun w => 0 <= w) ws ->
    len (concat (format_cols cols ws styles)) = zsum ws.
Proof.
  induction cols as [|col cols IH]; intros [|w ws] [|st styles] Hl1 Hl2 Hws;
    try discriminate; [reflexivity|].
  inversion Hws as [|? ? Hw Hws']; subst.
  cbn [format_cols concat zsum fold_right]. rewrite len_app, len_format_col by exact Hw.
  rewrite IH; [reflexivity| | |exact Hws']; cbn in *; lia.
Qed.

(** X8: for a row of several cells that yields a line, one width is
    computed per cell, no width is negative, and the line built from the
    formatted cells is exactly as long as the sum of the widths (every
    cell is cut or padded to its width); when that sum does not exceed
    the table width, the final adjustment only appends blanks, so the
    cells keep their columns in the printed line. *)
Theorem multi_column_line_length (table_width : Z) (cells : list node) (line : str) :
  multi_column_line table_width cells (cell_texts cells) = Ok line ->
  exists styles col_widths,
    cell_styles_from 0 cells (cell_texts cells) = Ok styles /\
    column_widths table_width styles = Ok col_widths /\
    List.length col_widths = List.length cells /\
    Forall (fun w => 0 <= w) col_widths /\
    len line = zsum col_widths /\
    (zsum col_widths <= table_width ->
     fit_line table_width line = line ++ times space (table_width - zsum col_widths)).
Proof.
  unfold multi_column_line. intros H.
  destruct (cell_styles_from 0 cells (cell_texts cells)) as [styles|e] eqn:Es;
    cbn [rbind] in H; [|discriminate].
  destruct (column_widths table_width styles) as [ws|e] eqn:Ew; cbn [rbind] in H;
    [|discriminate].
  injection H as <-.
  apply cell_styles_from_spec in Es as [Ls Fs].
  unfold cell_texts in Ls. rewrite length_map, Nat.min_id in Ls.
  pose proof (column_widths_spec table_width styles ws Fs Ew) as [Lw Fw].
  assert (Hlen : len (concat (format_cols (cell_texts cells) ws styles)) = zsum ws).
  { apply len_concat_format_cols; [| |exact Fw]; unfold cell_texts;
      rewrite length_map; congruence. }
  exists styles, ws. repeat split; try assumption; try congruence.
  intros Hle. unfold fit_line. rewrite Hlen.
  destruct (Z.gtb_spec (zsum ws) table_width) as [Hgt|_]; [lia|].
  destruct (Z.ltb_spec (zsum ws) table_width) as [Hlt|Hge].
  - unfold ljust. now rewrite Hlen.
  - replace (table_width - zsum ws) with 0 by lia. cbn. now rewrite app_nil_r.
Qed.

Lemma multi_column_line_length_witness :
  exists styles col_widths,
    cell_styles_from 0 product_cells (cell_texts product_cells) = Ok styles /\
    column_widths 48 styles = Ok col_widths /\
    List.length col_widths = List.length product_cells /\
    Forall (fun w => 0 <= w) col_widths /\
    len (ljust 28 (lit "Product A") ++ rjust 19 (lit "$10.00")) = zsum col_widths /\
    (zsum col_widths <= 48 ->
     fit_line 48 (ljust 28 (lit "Product A") ++ rjust 19 (lit "$10.00"))
     = (ljust 28 (lit "Product A") ++ rjust 19 (lit "$10.00"))
         ++ times space (48 - zsum col_widths)).
Proof.
  apply (multi_column_line_length 48 product_cells).
  vm_compute. reflexivity.
Defined.

(** ** Manual centring *)

(** X10: on a printer that rejects [set], centred text is still
    printed, padded by hand: one text call with
    [(char_width - len(text)) // 2] blanks (none when the text is as
    long as the width or longer) before the text. The padding is never
    negative, and when the text fits, the blanks to its right that the
    width leaves are as many as those to its left, or one more. *)
Theorem manual_centering (char_width : Z) (text : str) (log : list sink_op) :
  emit_centered (reject_when is_set_op) char_width text log
    = (Ok tt,
       log ++ [OpText (times space (center_padding char_width text) ++ text ++ [newline])]) /\
  0 <= center_padding char_width text /\
  (len text <= char_width ->
   0 <= char_width - len text - 2 * center_padding char_width text <= 1) /\
  (char_width <= len text -> center_padding char_width text = 0).
Proof.
  split; [reflexivity|]. unfold center_padding.
  pose proof (Z.div_mod (char_width - len text) 2 ltac:(lia)) as Hd.
  pose proof (Z.mod_pos_bound (char_width - len text) 2 ltac:(lia)) as Hm.
  repeat split; lia.
Qed.

(** ** Headings reset the character size *)

(** X11: whenever a heading is rendered without an exception leaving
    the branch -- through the normal path or through its fallback, on any
    printer -- the last two calls made are the raw command [ESC ! 0]
    and a [set] that switches bold off: a heading never leaves its size
    or weight on for what follows. *)
Theorem heading_resets_size_and_bold
  (rejects : list sink_op -> sink_op -> bool) (char_width : Z)
  (first_bold : bool) (size : Z) (text : str) (log : list sink_op) :
  fst (emit_heading rejects char_width first_bold size text log) = Ok tt ->
  exists before kwargs,
    snd (emit_heading rejects char_width first_bold size text log)
      = before ++ [esc_size 0; OpSet kwargs] /\
    In (KBold false) kwargs.
Proof.
  unfold emit_heading, try_except, bind, call, ret.
  destruct (1 <? size);
    repeat match goal with
           | |- context [rejects ?l ?op] => destruct (rejects l op)
           end;
    cbn [fst snd]; intros H; try discriminate;
    repeat rewrite <- app_assoc; cbn [app];
    match goal with
    | |- exists before kwargs, ?l ++ ?rest = _ /\ _ =>
        idtac
    end.
  all: eexists; eexists; split;
    [ match goal with
      | |- ?l ++ ?rest = ?b ++ [?x; ?y] =>
          let n := constr:(Nat.sub (List.length rest) 2) in
          instantiate (2 := l ++ firstn n rest); cbn [firstn length Nat.sub];
          rewrite <- ?app_assoc; reflexivity
      end
    | cbn; auto ].
Qed.

Lemma heading_resets_size_and_bold_witness :
  exists before kwargs,
    snd (emit_heading accept_all 48 false 3 (lit "Total") [])
      = before ++ [esc_size 0; OpSet kwargs] /\
    In (KBold false) kwargs.
Proof.
  apply (heading_resets_size_and_bold accept_all 48 false 3 (lit "Total") []).
  reflexivity.
Defined.

(** ** The outcome of a print job *)

(** X12: [print_html] reports success exactly when the document was
    rendered and finished (cut, and closed for the system printer)
    without an exception on the system printer, or else on the [Dummy]
    printer of the fallback. When the system printer did the job the
    [Dummy] printer is not used at all; when it did not (not available,
    not opened, or an exception at any point) and the simulation goes
    through, success is still reported, although the system printer
    received only the calls made before its failure. *)
Theorem print_html_success
  (win32_available win32_opens : bool)
  (win32_rejects : list sink_op -> sink_op -> bool)
  (win32_finish_raises : list sink_op -> bool)
  (dummy_rejects : list sink_op -> sink_op -> bool)
  (dummy_cut_raises : list sink_op -> bool)
  (open_image : str -> option (Z * Z)) (resize_raises : Z -> Z -> bool)
  (exn_text : exn -> str)
  (printer_name : str) (document : list node) (paper_size font_size : str)
  (test_width : bool) (line_spacing : str) :
  let render rejects :=
    process_html_for_escpos rejects open_image resize_raises document paper_size
      font_size test_width line_spacing [] in
  let printed :=
    win32_available = true /\ win32_opens = true /\
    fst (render win32_rejects) = Ok tt /\
    win32_finish_raises (snd (render win32_rejects)) = false in
  let simulated :=
    fst (render dummy_rejects) = Ok tt /\
    dummy_cut_raises (snd (render dummy_rejects)) = false in
  let r :=
    print_html win32_available win32_opens win32_rejects win32_finish_raises
      dummy_rejects dummy_cut_raises open_image resize_raises exn_text
      printer_name document paper_size font_size test_width line_spacing in
  (success r = true <-> printed \/ simulated) /\
  (printed -> dummy_log r = []) /\
  (~ printed -> simulated ->
   success r = true /\ dummy_log r = snd (render dummy_rejects) /\
   win32_log r = (if win32_available && win32_opens
                  then snd (render win32_rejects) else [])).
Proof.
  intros render printed simulated r. subst r printed simulated. unfold print_html.
  fold (render win32_rejects). fold (render dummy_rejects).
  destruct win32_available, win32_opens; cbn [andb];
    destruct (render win32_rejects) as [[[]|e1] wlog];
    destruct (render dummy_rejects) as [[[]|e2] dlog]; cbn [fst snd];
    try destruct (win32_finish_raises wlog); try destruct (dummy_cut_raises dlog);
    cbn [negb fst snd success dummy_log win32_log];
    (split; [split; [intros H; try discriminate; tauto | intros [H|H]; try reflexivity;
                     destruct H as (? & ? & ? & ?) || destruct H as (? & ?);
                     discriminate]
            |split; [intros (? & ? & ? & ?); try reflexivity; discriminate
                    |intros Hn (? & ?); try discriminate;
                     try (exfalso; apply Hn; tauto); repeat split]]).
Qed.

(** ** Rounding to binary64 *)

Lemma digits2_pos_size (p : positive) : digits2_pos p = Pos.size p.
Proof. induction p; simpl; congruence. Qed.

Lemma Zdigits2_bounds (p : positive) :
  2 ^ (Zdigits2 (Zpos p) - 1) <= Zpos p < 2 ^ Zdigits2 (Zpos p).
Proof.
  change (Zdigits2 (Zpos p)) with (Zpos (digits2_pos p)).
  rewrite digits2_pos_size.
  pose proof (Pos.size_gt p) as Hgt. pose proof (Pos.size_le p) as Hle.
  split.
  - assert (H : 2 ^ Zpos (Pos.size p) <= 2 * Zpos p).
    { change (2 * Zpos p) with (Zpos (p~0)). rewrite <- Pos2Z.inj_pow. exact Hle. }
    replace (Zpos (Pos.size p)) with (Z.succ (Zpos (Pos.size p) - 1)) in H by lia.
    rewrite Z.pow_succ_r in H by lia. lia.
  - rewrite <- Pos2Z.inj_pow. exact Hgt.
Qed.

Lemma Zdigits2_unique (m d : Z) :
  0 < m -> 2 ^ (d - 1) <= m < 2 ^ d -> Zdigits2 m = d.
Proof.
  intros Hm [Hlo Hhi]. destruct m as [|p|p]; try lia.
  pose proof (Zdigits2_bounds p) as [Blo Bhi].
  assert (0 < Zdigits2 (Zpos p)) by (change (Zdigits2 (Zpos p)) with (Zpos (digits2_pos p)); lia).
  assert (0 < d).
  { destruct (Z_lt_le_dec 0 d) as [|Hd]; [assumption|].
    assert (2 ^ d <= 2 ^ 0) by (apply Z.pow_le_mono_r; lia).
    change (2 ^ 0) with 1 in *. lia. }
  destruct (Z_lt_le_dec (Zdigits2 (Zpos p)) d) as [Hlt|Hge].
  - assert (2 ^ Zdigits2 (Zpos p) <= 2 ^ (d - 1)) by (apply Z.pow_le_mono_r; lia). lia.
  - destruct (Z_lt_le_dec d (Zdigits2 (Zpos p))) as [Hlt|Hge'].
    + assert (2 ^ d <= 2 ^ (Zdigits2 (Zpos p) - 1)) by (apply Z.pow_le_mono_r; lia). lia.
    + lia.
Qed.

(** shr_1 halves its mantissa. *)
Lemma shr_m_shr_1 (mrs : shr_record) :
  0 <= shr_m mrs -> shr_m (shr_1 mrs) = shr_m mrs / 2.
Proof.
  destruct mrs as [m r s]. simpl. intros Hm.
  destruct m as [|p|p]; try lia; [reflexivity|].
  destruct p as [p|p|]; simpl.
  - rewrite Pos2Z.inj_xI. apply Z.div_unique with (r := 1); lia.
  - rewrite Pos2Z.inj_xO. apply Z.div_unique with (r := 0); lia.
  - reflexivity.
Qed.

Lemma shr_m_iter_pos (p : positive) :
  forall mrs, 0 <= shr_m mrs ->
    shr_m (SpecFloat.iter_pos shr_1 p mrs) = shr_m mrs / 2 ^ Zpos p.
Proof.
  induction p as [p IH|p IH|]; intros mrs Hm; simpl SpecFloat.iter_pos.
  - assert (H1 : 0 <= shr_m (shr_1 mrs)).
    { rewrite shr_m_shr_1 by assumption. apply Z.div_pos; lia. }
    assert (H2 : 0 <= shr_m (SpecFloat.iter_pos shr_1 p (shr_1 mrs))).
    { rewrite IH by assumption. apply Z.div_pos; [assumption|]. apply Z.pow_pos_nonneg; lia. }
    rewrite IH by assumption. rewrite IH by assumption.
    rewrite shr_m_shr_1 by assumption.
    rewrite !Z.div_div by (try apply Z.pow_pos_nonneg; lia).
    f_equal. rewrite <- Z.pow_add_r by lia. rewrite <- Z.pow_succ_r by lia.
    f_equal. lia.
  - assert (H2 : 0 <= shr_m (SpecFloat.iter_pos shr_1 p mrs)).
    { rewrite IH by assumption. apply Z.div_pos; [assumption|]. apply Z.pow_pos_nonneg; lia. }
    rewrite IH by assumption. rewrite IH by assumption.
    rewrite !Z.div_div by (try apply Z.pow_pos_nonneg; lia).
    f_equal. rewrite <- Z.pow_add_r by lia. f_equal. lia.
  - rewrite shr_m_shr_1 by assumption. reflexivity.
Qed.

(** The mantissa and exponent after [shr]. *)
Lemma shr_spec (mrs : shr_record) (e n : Z) :
  0 <= shr_m mrs ->
  shr_m (fst (shr mrs e n)) = shr_m mrs / 2 ^ Z.max 0 n /\
  snd (shr mrs e n) = e + Z.max 0 n.
Proof.
  intros Hm. unfold shr. destruct n as [|p|p]; simpl fst; simpl snd.
  - rewrite Z.div_1_r. split; [reflexivity|lia].
  - rewrite shr_m_iter_pos by assumption. split; [reflexivity|lia].
  - change (Z.max 0 (Zneg p)) with 0. rewrite Z.div_1_r. split; [reflexivity|lia].
Qed.

Lemma shr_m_record_of_loc (m : Z) (l : location) : shr_m (shr_record_of_loc m l) = m.
Proof. destruct l as [|[| |]]; reflexivity. Qed.

Lemma round_nearest_even_bounds (m : Z) (l : location) :
  m <= round_nearest_even m l <= m + 1.
Proof. unfold round_nearest_even. destruct l as [|[| |]]; try destruct (Z.even m); lia. Qed.

Lemma fexp_normal (k : Z) : 3 - emax - prec <= k - prec -> fexp prec emax k = k - prec.
Proof. unfold fexp, SpecFloat.emin. intros H. lia. Qed.

Lemma div_pow2_bounds (mx d k : Z) :
  0 <= k -> k < d ->
  2 ^ (d - 1) <= mx < 2 ^ d ->
  2 ^ (d - k - 1) <= mx / 2 ^ k < 2 ^ (d - k).
Proof.
  intros Hk Hd [Hlo Hhi].
  assert (Hp : 0 < 2 ^ k) by (apply Z.pow_pos_nonneg; lia).
  split.
  - apply Z.div_le_lower_bound; [assumption|].
    rewrite <- Z.pow_add_r by lia. replace (k + (d - k - 1)) with (d - 1) by lia. assumption.
  - apply Z.div_lt_upper_bound; [assumption|].
    rewrite <- Z.pow_add_r by lia. replace (k + (d - k)) with d by lia. assumption.
Qed.


Lemma binary_round_aux_normal (mx ex : Z) (lx : location) :
  0 < mx ->
  prec <= Zdigits2 mx ->
  3 - emax - prec <= Zdigits2 mx + ex - prec ->
  let k := Zdigits2 mx - prec in
  let m1 := mx / 2 ^ k in
  let e1 := ex + k in
  exists m e,
    m1 <= Zpos m * 2 ^ (e - e1) <= m1 + 1 /\
    e1 <= e <= e1 + 1 /\
    2 ^ (prec - 1) <= Zpos m < 2 ^ prec /\
    binary_round_aux prec emax false mx ex lx
      = if e <=? emax - prec then S754_finite false m e else S754_infinity false.
Proof.
  intros Hmx Hd Hn k m1 e1.
  assert (Hk : 0 <= k) by (unfold k; lia).
  assert (Hdig : 2 ^ (Zdigits2 mx - 1) <= mx < 2 ^ Zdigits2 mx).
  { destruct mx as [|p|p]; try lia. apply Zdigits2_bounds. }
  assert (Hm1 : 2 ^ (prec - 1) <= m1 < 2 ^ prec).
  { unfold m1. pose proof (div_pow2_bounds mx (Zdigits2 mx) k Hk) as H.
    replace (Zdigits2 mx - k - 1) with (prec - 1) in H by (unfold k; lia).
    replace (Zdigits2 mx - k) with prec in H by (unfold k; lia).
    apply H; [unfold k, prec; lia|assumption]. }
  unfold binary_round_aux, shr_fexp.
  rewrite (fexp_normal (Zdigits2 mx + ex)) by assumption.
  replace (Zdigits2 mx + ex - prec - ex) with k by (unfold k; lia).
  pose proof (shr_spec (shr_record_of_loc mx lx) ex k) as Hs.
  rewrite shr_m_record_of_loc in Hs. specialize (Hs (Z.lt_le_incl _ _ Hmx)).
  rewrite Z.max_r in Hs by assumption.
  destruct (shr (shr_record_of_loc mx lx) ex k) as [mrs' e'].
  simpl fst in Hs. simpl snd in Hs. destruct Hs as [Hs1 Hs2].
  fold m1 in Hs1. fold e1 in Hs2. subst e'. rewrite Hs1.
  pose proof (round_nearest_even_bounds m1 (loc_of_shr_record mrs')) as Hr.
  set (m2 := round_nearest_even m1 (loc_of_shr_record mrs')) in *.
  assert (Hm2pos : 0 < m2).
  { assert (0 < 2 ^ (prec - 1)) by (apply Z.pow_pos_nonneg; unfold prec; lia). lia. }
  destruct (Z_lt_le_dec m2 (2 ^ prec)) as [Hlt|Hge].
  - (* the mantissa still has 53 bits *)
    assert (Hd2 : Zdigits2 m2 = prec) by (apply Zdigits2_unique; lia).
      rewrite Hd2.
    rewrite (fexp_normal (prec + e1)) by (unfold e1, k; lia).
      replace (prec + e1 - prec - e1) with 0 by lia.
    unfold shr. cbn [shr_m shr_record_of_loc].
      destruct m2 as [|p|p]; try lia.
    exists p, e1. rewrite Z.sub_diag. rewrite Z.mul_1_r.
      repeat split; try lia.
  - (* the mantissa was rounded up to 2^53 *)
    assert (Hm2 : m2 = 2 ^ prec) by lia.
    assert (Hd2 : Zdigits2 m2 = prec + 1).
    { apply Zdigits2_unique; [lia|]. rewrite Hm2.
      replace (prec + 1 - 1) with prec by lia. split; [lia|].
      apply Z.pow_lt_mono_r; unfold prec; lia. }
      rewrite Hd2.
    rewrite (fexp_normal (prec + 1 + e1)) by (unfold e1, k; lia).
    replace (prec + 1 + e1 - prec - e1) with 1 by lia.
      rewrite Hm2.
      change (2 ^ prec) with 9007199254740992.
      cbn [shr shr_record_of_loc SpecFloat.iter_pos shr_1 shr_m].
    exists 4503599627370496%positive, (e1 + 1).
    replace (e1 + 1 - e1) with 1 by lia.
    change (2 ^ (prec - 1)) with 4503599627370496 in *.
    change (2 ^ prec) with 9007199254740992 in *.
    change (2 ^ 1) with 2.
    repeat split; try lia.
Qed.

Lemma powerRZ_2_pos (e : Z) : (0 < powerRZ 2 e)%R.
Proof. apply powerRZ_lt. lra. Qed.

Lemma IZR_pow2 (n : Z) : 0 <= n -> IZR (2 ^ n) = powerRZ 2 n.
Proof.
  intros Hn. rewrite <- (Z2Nat.id n Hn). rewrite <- pow_IZR. now rewrite <- pow_powerRZ.
Qed.

Lemma F2R_shift (m e n : Z) : 0 <= n -> F2R (m * 2 ^ n) e = F2R m (e + n).
Proof.
  intros Hn. unfold F2R. rewrite mult_IZR, IZR_pow2 by exact Hn.
  rewrite powerRZ_add by lra. lra.
Qed.

Lemma F2R_le (m n e : Z) : m <= n -> (F2R m e <= F2R n e)%R.
Proof.
  intros H. unfold F2R. apply Rmult_le_compat_r.
  - left. apply powerRZ_2_pos.
  - now apply IZR_le.
Qed.

Lemma F2R_lt (m n e : Z) : m < n -> (F2R m e < F2R n e)%R.
Proof.
  intros H. unfold F2R. apply Rmult_lt_compat_r.
  - apply powerRZ_2_pos.
  - now apply IZR_lt.
Qed.

Lemma F2R_plus (m n e : Z) : F2R (m + n) e = (F2R m e + F2R n e)%R.
Proof. unfold F2R. rewrite plus_IZR. lra. Qed.

Lemma eps_pos : (0 < eps)%R.
Proof. apply powerRZ_2_pos. Qed.

(** Rounding a positive real known through its truncation [mx * 2^ex]. *)
Lemma binary_round_aux_bound (mx ex : Z) (lx : location) (x : R) :
  0 < mx ->
  prec <= Zdigits2 mx ->
  3 - emax - prec <= Zdigits2 mx + ex - prec ->
  (F2R mx ex <= x <= F2R (mx + 1) ex)%R ->
  let e1 := ex + (Zdigits2 mx - prec) in
  exists m e,
    e1 <= e <= e1 + 1 /\
    2 ^ (prec - 1) <= Zpos m < 2 ^ prec /\
    binary_round_aux prec emax false mx ex lx
      = (if e <=? emax - prec then S754_finite false m e else S754_infinity false) /\
    (x * (1 - eps) <= F2R (Zpos m) e <= x * (1 + eps))%R.
Proof.
  intros Hmx Hd Hn Hx e1.
  destruct (binary_round_aux_normal mx ex lx Hmx Hd Hn) as (m & e & Hm2 & He & Hcan & Hres).
  cbv zeta in Hm2, He. fold e1 in Hm2, He.
  set (k := Zdigits2 mx - prec) in *.
  set (m1 := mx / 2 ^ k) in *.
  exists m, e. split; [exact He|]. split; [exact Hcan|]. split; [exact Hres|].
  assert (Hk : 0 <= k) by (unfold k; lia).
  assert (Hp : 0 < 2 ^ k) by (apply Z.pow_pos_nonneg; lia).
  assert (Hdiv : m1 * 2 ^ k <= mx < (m1 + 1) * 2 ^ k).
  { unfold m1. pose proof (Z.div_mod mx (2 ^ k) ltac:(lia)) as Hdm.
    pose proof (Z.mod_pos_bound mx (2 ^ k) Hp) as Hmb. nia. }
  (* everything on the grid of step 2^e1 *)
  assert (Hval : F2R (Zpos m) e = F2R (Zpos m * 2 ^ (e - e1)) e1).
  { rewrite F2R_shift by lia. f_equal. lia. }
  assert (Hlo : (F2R m1 e1 <= x)%R).
  { apply Rle_trans with (F2R mx ex); [|apply Hx].
    unfold e1. fold k. rewrite <- F2R_shift by exact Hk. apply F2R_le. lia. }
  assert (Hhi : (x <= F2R (m1 + 1) e1)%R).
  { apply Rle_trans with (F2R (mx + 1) ex); [apply Hx|].
    unfold e1. fold k. rewrite <- F2R_shift by exact Hk. apply F2R_le. lia. }
  assert (Hulp : (F2R 1 e1 <= F2R m1 e1 * eps)%R).
  { unfold F2R, eps.
    assert (H52 : (IZR (2 ^ 52) <= IZR m1)%R).
    { apply IZR_le.
      assert (2 ^ (prec - 1) <= m1).
      { unfold m1. pose proof (div_pow2_bounds mx (Zdigits2 mx) k Hk) as H.
        replace (Zdigits2 mx - k - 1) with (prec - 1) in H by (unfold k; lia).
        apply H; [unfold k, prec; lia|].
        destruct mx as [|p|p]; try lia. apply Zdigits2_bounds. }
      exact H. }
    rewrite IZR_pow2 in H52 by lia.
    assert (Hone : (powerRZ 2 52 * powerRZ 2 (-52) = 1)%R).
    { rewrite <- powerRZ_add by lra. reflexivity. }
    pose proof (powerRZ_2_pos e1) as He1. pose proof (powerRZ_2_pos (-52)) as H52'.
    assert ((1 <= IZR m1 * powerRZ 2 (-52))%R).
    { rewrite <- Hone. apply Rmult_le_compat_r; lra. }
    nra. }
  rewrite Hval.
  assert (Hm2lo : (F2R m1 e1 <= F2R (Zpos m * 2 ^ (e - e1)) e1)%R) by (apply F2R_le; lia).
  assert (Hm2hi : (F2R (Zpos m * 2 ^ (e - e1)) e1 <= F2R (m1 + 1) e1)%R)
    by (apply F2R_le; lia).
  rewrite F2R_plus in Hhi, Hm2hi.
  assert (Hxe : (F2R m1 e1 * eps <= x * eps)%R).
  { apply Rmult_le_compat_r; [left; apply eps_pos|exact Hlo]. }
  split; lra.
Qed.

Lemma pos_iter_xO (p d : positive) : Zpos (Pos.iter xO p d) = Zpos p * 2 ^ Zpos d.
Proof.
  induction d as [|d IH] using Pos.peano_ind.
  - cbn [Pos.iter]. lia.
  - rewrite Pos.iter_succ. rewrite Pos2Z.inj_xO, IH, Pos2Z.inj_succ.
    rewrite Z.pow_succ_r by lia. lia.
Qed.

Lemma shl_align_spec (mx : positive) (ex ex' : Z) :
  snd (shl_align mx ex ex') = Z.min ex ex' /\
  Zpos (fst (shl_align mx ex ex')) = Zpos mx * 2 ^ (ex - Z.min ex ex').
Proof.
  unfold shl_align. destruct (ex' - ex) as [|d|d] eqn:E; cbn [fst snd].
  - rewrite Z.min_l by lia. rewrite Z.sub_diag. split; lia.
  - rewrite Z.min_l by lia. rewrite Z.sub_diag. split; lia.
  - rewrite Z.min_r by lia. split; [reflexivity|].
    rewrite pos_iter_xO. f_equal. f_equal. lia.
Qed.

(** [float(w)] for a positive [int] below [2^1023]. *)
Lemma float_of_int_bound (w : Z) :
  0 < w < 2 ^ 1023 ->
  exists m e,
    float_of_int w = Ok (S754_finite false m e) /\
    canonical m /\ Zdigits2 w - 53 <= e <= Zdigits2 w - 52 /\
    (IZR w * (1 - eps) <= F2R (Zpos m) e <= IZR w * (1 + eps))%R.
Proof.
  intros [Hpos Hlt]. destruct w as [|p|p]; try lia.
  unfold float_of_int, binary_normalize, binary_round.
  pose proof (shl_align_spec p 0 (fexp prec emax (Zpos (digits2_pos p) + 0))) as [Hez Hmz].
  destruct (shl_align p 0 (fexp prec emax (Zpos (digits2_pos p) + 0))) as [mz ez].
  cbn [fst snd] in Hez, Hmz.
  pose proof (Zdigits2_bounds p) as Hdig.
  change (Zdigits2 (Zpos p)) with (Zpos (digits2_pos p)) in Hdig.
  set (d := Zpos (digits2_pos p)) in *.
  assert (Hd1 : 1 <= d) by (unfold d; lia).
  change (Zdigits2 (Zpos p)) with d.
  clearbody d.
  assert (Hd2 : d <= 1023).
  { destruct (Z_lt_le_dec 1023 d) as [H|H]; [|exact H].
    assert (2 ^ 1023 <= 2 ^ (d - 1)) by (apply Z.pow_le_mono_r; lia). lia. }
  rewrite Z.add_0_r in Hez, Hmz.
  rewrite fexp_normal in Hez, Hmz by (unfold emax, prec; lia).
  (* the aligned mantissa has max d 53 digits *)
  assert (Hdz : Zdigits2 (Zpos mz) = Z.max d prec).
  { apply Zdigits2_unique; [lia|]. rewrite Hmz.
    destruct (Z_lt_le_dec d prec) as [Hs|Hl].
    - rewrite Z.min_r by lia. rewrite Z.max_r by lia.
      replace (0 - (d - prec)) with (prec - d) by lia.
      replace (2 ^ (prec - 1)) with (2 ^ (d - 1) * 2 ^ (prec - d))
        by (rewrite <- Z.pow_add_r by lia; f_equal; lia).
      replace (2 ^ prec) with (2 ^ d * 2 ^ (prec - d))
        by (rewrite <- Z.pow_add_r by lia; f_equal; lia).
      assert (0 < 2 ^ (prec - d)) by (apply Z.pow_pos_nonneg; lia). nia.
    - rewrite Z.min_l by lia. rewrite Z.max_l by lia. rewrite Z.sub_0_r.
      change (2 ^ 0) with 1. lia. }
  assert (Hval : F2R (Zpos mz) ez = IZR (Zpos p)).
  { rewrite Hmz. rewrite F2R_shift by lia. replace (ez + (0 - Z.min 0 (d - prec))) with 0 by lia.
    unfold F2R. cbn [powerRZ]. lra. }
  destruct (binary_round_aux_bound (Zpos mz) ez loc_Exact (IZR (Zpos p)))
    as (m & e & He & Hcan & Hres & Hb).
  - lia.
  - rewrite Hdz. lia.
  - rewrite Hdz, Hez. unfold emax, prec. clear - Hd1. lia.
  - rewrite Hval. split; [lra|]. rewrite <- Hval. apply F2R_le. lia.
  - rewrite Hdz, Hez in He.
    assert (Hle : (e <=? emax - prec) = true) by (apply Z.leb_le; unfold emax, prec in *; lia).
    rewrite Hle in Hres. rewrite Hres.
    exists m, e. split; [reflexivity|]. split; [exact Hcan|].
    split; [unfold prec in *; lia|exact Hb].
Qed.

Lemma Zdigits2_ge (m n : Z) : 0 <= n -> 2 ^ n <= m -> n + 1 <= Zdigits2 m.
Proof.
  intros Hn Hm. assert (0 < 2 ^ n) by (apply Z.pow_pos_nonneg; lia).
  destruct m as [|p|p]; try lia.
  pose proof (Zdigits2_bounds p) as [_ Hhi].
  destruct (Z_lt_le_dec (Zdigits2 (Zpos p)) (n + 1)) as [Hlt|Hge]; [|exact Hge].
  assert (2 ^ Zdigits2 (Zpos p) <= 2 ^ n) by (apply Z.pow_le_mono_r; lia). lia.
Qed.

Lemma Zdigits2_le (m n : Z) : 0 < m -> m < 2 ^ n -> Zdigits2 m <= n.
Proof.
  intros Hm Hlt. destruct m as [|p|p]; try lia.
  pose proof (Zdigits2_bounds p) as [Hlo _].
  destruct (Z_lt_le_dec n (Zdigits2 (Zpos p))) as [Hgt|Hle]; [|exact Hle].
  assert (2 ^ n <= 2 ^ (Zdigits2 (Zpos p) - 1)) by (apply Z.pow_le_mono_r; lia). lia.
Qed.

(** [a / b] for positive [int]s whose quotient is in the normal range
    and is not too large. *)
Lemma int_truediv_bound (a b : Z) :
  0 < a -> 0 < b ->
  Zdigits2 a <= Zdigits2 b + 53 ->
  Zdigits2 b - Zdigits2 a <= 1021 ->
  exists m e,
    int_truediv a b = Ok (S754_finite false m e) /\
    canonical m /\
    Zdigits2 a - Zdigits2 b - 53 <= e <= Zdigits2 a - Zdigits2 b - 51 /\
    (IZR a / IZR b * (1 - eps) <= F2R (Zpos m) e <= IZR a / IZR b * (1 + eps))%R.
Proof.
  intros Ha Hb Hd1 Hd2. destruct a as [|pa|pa]; try lia. destruct b as [|pb|pb]; try lia.
  set (d1 := Zdigits2 (Zpos pa)) in *. set (d2 := Zdigits2 (Zpos pb)) in *.
  pose proof (Zdigits2_bounds pa) as Ba. pose proof (Zdigits2_bounds pb) as Bb.
  fold d1 in Ba. fold d2 in Bb.
  assert (Hd1pos : 1 <= d1) by (unfold d1; cbn; lia).
  assert (Hd2pos : 1 <= d2) by (unfold d2; cbn; lia).
  unfold int_truediv. change (Zpos pb =? 0) with false. cbv iota.
  unfold exact_int, SFdiv, SFdiv_core_binary. fold d1. fold d2.
  rewrite !Z.add_0_r. rewrite !Z.sub_0_r.
  rewrite (fexp_normal (d1 - d2)) by (unfold emax, prec; lia).
  change (xorb false false) with false.
  set (e' := d1 - d2 - prec).
  assert (He' : e' <= 0) by (unfold e', prec; lia).
  rewrite (Z.min_l e' 0) by exact He'.
  set (s := 0 - e').
  assert (Hs : 0 <= s) by (unfold s; lia).
  assert (Hm' : forall t, 0 <= t ->
                match t with
                | Zpos _ => Z.shiftl (Zpos pa) t
                | Z0 => Zpos pa
                | Zneg _ => 0
                end = Zpos pa * 2 ^ t).
  { intros [|pt|pt] Ht; try lia. apply Z.shiftl_mul_pow2. lia. }
  rewrite (Hm' s Hs). clear Hm'.
  clearbody d1 d2.
  pose proof (Z.div_eucl_eq (Zpos pa * 2 ^ s) (Zpos pb) ltac:(lia)) as Heq.
  pose proof (Z.mod_pos_bound (Zpos pa * 2 ^ s) (Zpos pb) ltac:(lia)) as Hmod.
  unfold Z.modulo in Hmod.
  destruct (Z.div_eucl (Zpos pa * 2 ^ s) (Zpos pb)) as [q r].
  assert (Hps : 0 < 2 ^ s) by (apply Z.pow_pos_nonneg; lia).
  (* 2^52 <= q < 2^54 *)
  assert (Hqlo : 2 ^ 52 <= q).
  { assert (H1 : 2 ^ 52 * 2 ^ d2 <= Zpos pa * 2 ^ s).
    { replace (2 ^ 52 * 2 ^ d2) with (2 ^ (d1 - 1) * 2 ^ s).
      - apply Z.mul_le_mono_nonneg_r; lia.
      - rewrite <- !Z.pow_add_r by lia. f_equal. unfold s, e', prec. lia. }
    assert (H2 : 2 ^ 52 * Zpos pb < (q + 1) * Zpos pb) by nia.
    assert (0 < 2 ^ 52) by (apply Z.pow_pos_nonneg; lia). nia. }
  assert (Hqhi : q < 2 ^ 54).
  { assert (H1 : Zpos pa * 2 ^ s < 2 ^ 54 * 2 ^ (d2 - 1)).
    { replace (2 ^ 54 * 2 ^ (d2 - 1)) with (2 ^ d1 * 2 ^ s).
      - apply Z.mul_lt_mono_pos_r; lia.
      - rewrite <- !Z.pow_add_r by lia. f_equal. unfold s, e', prec. lia. }
    assert (0 < 2 ^ 54) by (apply Z.pow_pos_nonneg; lia). nia. }
  assert (Hq : 0 < q) by (assert (0 < 2 ^ 52) by (apply Z.pow_pos_nonneg; lia); lia).
  assert (Hdq1 : 53 <= Zdigits2 q) by (apply (Zdigits2_ge q 52); lia).
  assert (Hdq2 : Zdigits2 q <= 54) by (apply Zdigits2_le; lia).
  destruct (binary_round_aux_bound q e' (new_location (Zpos pb) r)
              (IZR (Zpos pa) / IZR (Zpos pb))%R) as (m & e & He & Hcan & Hres & Hbd).
  - exact Hq.
  - unfold prec. lia.
  - unfold e' in *. unfold emax, prec in *. lia.
  - assert (Hbpos : (0 < IZR (Zpos pb))%R) by (apply IZR_lt; lia).
    assert (Hpow : (powerRZ 2 e' * powerRZ 2 s = 1)%R).
    { rewrite <- powerRZ_add by lra. replace (e' + s) with 0 by (unfold s; lia). reflexivity. }
    pose proof (powerRZ_2_pos e') as Pe. pose proof (powerRZ_2_pos s) as Ps.
    assert (Hnum : (IZR (Zpos pa) * powerRZ 2 s = IZR q * IZR (Zpos pb) + IZR r)%R).
    { rewrite <- IZR_pow2 by lia. rewrite <- !mult_IZR, <- plus_IZR. f_equal. lia. }
    assert (Hr0 : (0 <= IZR r)%R) by (apply IZR_le; lia).
    assert (Hr1 : (IZR r < IZR (Zpos pb))%R) by (apply IZR_lt; lia).
    assert (Hx : (IZR (Zpos pa) / IZR (Zpos pb)
                  = (IZR q + IZR r / IZR (Zpos pb)) * powerRZ 2 e')%R).
    { apply Rmult_eq_reg_r with (powerRZ 2 s); [|lra].
      rewrite Rmult_assoc, Hpow. field_simplify; [|lra|lra].
      rewrite Hnum. field. lra. }
    assert (Hfrac0 : (0 <= IZR r / IZR (Zpos pb))%R).
    { apply Rmult_le_pos; [lra|]. left. now apply Rinv_0_lt_compat. }
    assert (Hfrac1 : (IZR r / IZR (Zpos pb) < 1)%R).
    { apply Rmult_lt_reg_r with (IZR (Zpos pb)); [lra|].
      unfold Rdiv. rewrite Rmult_assoc, Rinv_l by lra. lra. }
    rewrite Hx. unfold F2R. rewrite plus_IZR. split.
    + apply Rmult_le_compat_r; lra.
    + apply Rmult_le_compat_r; lra.
  - assert (Hle : (e <=? emax - prec) = true)
      by (apply Z.leb_le; unfold e' in *; unfold emax, prec in *; lia).
    rewrite Hle in Hres. rewrite Hres.
    exists m, e. split; [reflexivity|]. split; [exact Hcan|].
    split; [unfold e' in *; unfold prec in *; lia|exact Hbd].
Qed.

Lemma F2R_mult (m n e f : Z) : F2R (m * n) (e + f) = (F2R m e * F2R n f)%R.
Proof. unfold F2R. rewrite mult_IZR, powerRZ_add by lra. ring. Qed.

(** The product of two positive normal floats, away from underflow and
    overflow. *)
Lemma float_mul_bound (mg mf : positive) (eg ef : Z) :
  canonical mg -> canonical mf -> - 1126 <= eg + ef <= 917 ->
  exists m e,
    float_mul (S754_finite false mg eg) (S754_finite false mf ef) = S754_finite false m e /\
    canonical m /\
    (F2R (Zpos mg) eg * F2R (Zpos mf) ef * (1 - eps)
       <= F2R (Zpos m) e
       <= F2R (Zpos mg) eg * F2R (Zpos mf) ef * (1 + eps))%R.
Proof.
  unfold canonical. change (2 ^ (prec - 1)) with 4503599627370496.
  change (2 ^ prec) with 9007199254740992.
  intros Hg Hf He.
  unfold float_mul, SFmul. change (xorb false false) with false.
  rewrite Pos2Z.inj_mul.
  assert (Hlo : 2 ^ 104 <= Zpos mg * Zpos mf)
    by (change (2 ^ 104) with (4503599627370496 * 4503599627370496); nia).
  assert (Hhi : Zpos mg * Zpos mf < 2 ^ 106)
    by (change (2 ^ 106) with (9007199254740992 * 9007199254740992); nia).
  assert (Hd1 : 105 <= Zdigits2 (Zpos mg * Zpos mf)) by (apply (Zdigits2_ge _ 104); lia).
  assert (Hd2 : Zdigits2 (Zpos mg * Zpos mf) <= 106) by (apply Zdigits2_le; lia).
  destruct (binary_round_aux_bound (Zpos mg * Zpos mf) (eg + ef) loc_Exact
              (F2R (Zpos mg) eg * F2R (Zpos mf) ef)%R) as (m & e & Hr & Hcan & Hres & Hbd).
  - lia.
  - unfold prec. lia.
  - unfold emax, prec. lia.
  - rewrite <- F2R_mult. split; [lra|]. apply F2R_le. lia.
  - assert (Hle : (e <=? emax - prec) = true)
      by (apply Z.leb_le; unfold emax, prec in *; lia).
    rewrite Hle in Hres. exists m, e. split; [exact Hres|]. split; [|exact Hbd].
    exact Hcan.
Qed.

(** [int(x)] of a positive float is the floor of its value. *)
Lemma float_trunc_floor (m : positive) (e : Z) :
  exists v, float_trunc (S754_finite false m e) = Ok v /\ 0 <= v /\
    (IZR v <= F2R (Zpos m) e < IZR v + 1)%R.
Proof.
  unfold float_trunc. destruct (0 <=? e) eqn:E.
  - apply Z.leb_le in E. exists (Zpos m * 2 ^ e). split; [reflexivity|].
    assert (0 < 2 ^ e) by (apply Z.pow_pos_nonneg; lia). split; [nia|].
    assert (Hv : F2R (Zpos m) e = IZR (Zpos m * 2 ^ e)).
    { rewrite <- (Z.add_0_l e) at 1. rewrite <- F2R_shift by exact E.
      unfold F2R. cbn [powerRZ]. lra. }
    rewrite Hv. lra.
  - apply Z.leb_gt in E. exists (Zpos m / 2 ^ (- e)). split; [reflexivity|].
    assert (Hp : 0 < 2 ^ (- e)) by (apply Z.pow_pos_nonneg; lia).
    pose proof (Z.div_mod (Zpos m) (2 ^ (- e)) ltac:(lia)) as Hdm.
    pose proof (Z.mod_pos_bound (Zpos m) (2 ^ (- e)) Hp) as Hr.
    set (v := Zpos m / 2 ^ (- e)) in *. set (r := Zpos m mod 2 ^ (- e)) in *.
    split; [apply Z.div_pos; lia|].
    assert (Hpe : (powerRZ 2 e * powerRZ 2 (- e) = 1)%R).
    { rewrite <- powerRZ_add by lra. replace (e + - e) with 0 by lia. reflexivity. }
    pose proof (powerRZ_2_pos e) as P1. pose proof (powerRZ_2_pos (- e)) as P2.
    assert (Hv : F2R (Zpos m) e = (IZR v + IZR r * powerRZ 2 e)%R).
    { unfold F2R. rewrite Hdm at 1. rewrite plus_IZR, mult_IZR, IZR_pow2 by lia.
      rewrite Rmult_plus_distr_r.
      replace (IZR (2 ^ 0)) with 1%R in * by reflexivity.
      assert (powerRZ 2 (- e) * IZR v * powerRZ 2 e = IZR v)%R as ->
        by (rewrite (Rmult_comm (powerRZ 2 (- e))), Rmult_assoc,
              (Rmult_comm (powerRZ 2 (- e))), Hpe; ring).
      reflexivity. }
    assert (Hr0 : (0 <= IZR r)%R) by (apply IZR_le; lia).
    assert (Hr1 : (IZR r < powerRZ 2 (- e))%R)
      by (rewrite <- IZR_pow2 by lia; apply IZR_lt; lia).
    rewrite Hv. split.
    + assert (0 <= IZR r * powerRZ 2 e)%R by (apply Rmult_le_pos; lra). lra.
    + assert (IZR r * powerRZ 2 e < powerRZ 2 (- e) * powerRZ 2 e)%R
        by (apply Rmult_lt_compat_r; lra).
      rewrite (Rmult_comm (powerRZ 2 (- e))) in H. lra.
Qed.

Lemma eps_small : (eps <= 1 / 4)%R.
Proof.
  unfold eps. change (-52) with (- (52)). rewrite powerRZ_neg' by lra.
  rewrite <- IZR_pow2 by lia. change (2 ^ 52) with 4503599627370496.
  apply Rmult_le_reg_r with 4503599627370496%R; [lra|].
  rewrite Rinv_l by lra. lra.
Qed.

(** The product and its truncation in [max(1, int(w * factor))]. *)
Lemma scale_width_core (mf : positive) (ef : Z) (c : R) (w : Z) :
  canonical mf -> - 1052 <= ef <= - 51 ->
  (0 < c)%R ->
  (c * (1 - eps) <= F2R (Zpos mf) ef <= c * (1 + eps))%R ->
  0 <= w < 2 ^ 1000 ->
  exists x v,
    int_mul_float w (S754_finite false mf ef) = Ok x /\
    float_trunc x = Ok v /\ 0 <= v /\
    (IZR w * c * ((1 - eps) * (1 - eps) * (1 - eps)) - 1 <= IZR v
       <= IZR w * c * ((1 + eps) * (1 + eps) * (1 + eps)))%R.
Proof.
  intros Hcf Hef Hc Hf [Hw0 Hw1].
  pose proof eps_pos as E0. pose proof eps_small as E1.
  destruct (Z.eq_dec w 0) as [->|Hnz].
  - exists (S754_zero false), 0. split; [reflexivity|]. split; [reflexivity|].
    split; [lia|]. lra.
  - assert (Hwlt : w < 2 ^ 1023).
    { assert (2 ^ 1000 <= 2 ^ 1023) by (apply Z.pow_le_mono_r; lia). lia. }
    destruct (float_of_int_bound w ltac:(lia)) as (mg & eg & Hg & Hcg & Heg & Hbg).
    assert (Hdw1 : 1 <= Zdigits2 w) by (destruct w; cbn; lia).
    assert (Hdw2 : Zdigits2 w <= 1000) by (apply Zdigits2_le; lia).
    destruct (float_mul_bound mg mf eg ef Hcg Hcf ltac:(lia)) as (m & e & Hm & _ & Hbm).
    destruct (float_trunc_floor m e) as (v & Hv & Hv0 & Hbv).
    exists (S754_finite false m e), v. split.
    { unfold int_mul_float. rewrite Hg. cbn [rbind]. now rewrite Hm. }
    split; [exact Hv|]. split; [exact Hv0|].
    set (G := F2R (Zpos mg) eg) in *. set (F := F2R (Zpos mf) ef) in *.
    set (X := F2R (Zpos m) e) in *.
    assert (HW : (1 <= IZR w)%R) by (apply IZR_le; lia).
    assert (HG0 : (0 <= G)%R) by nra.
    assert (HF0 : (0 <= F)%R) by nra.
    assert (Hlo1 : (IZR w * c * ((1 - eps) * (1 - eps)) <= G * F)%R).
    { apply Rle_trans with (IZR w * (1 - eps) * F)%R.
      - replace (IZR w * c * ((1 - eps) * (1 - eps)))%R
          with (IZR w * (1 - eps) * (c * (1 - eps)))%R by ring.
        apply Rmult_le_compat_l; [nra|lra].
      - apply Rmult_le_compat_r; lra. }
    assert (Hhi1 : (G * F <= IZR w * c * ((1 + eps) * (1 + eps)))%R).
    { apply Rle_trans with (IZR w * (1 + eps) * F)%R.
      - apply Rmult_le_compat_r; lra.
      - replace (IZR w * c * ((1 + eps) * (1 + eps)))%R
          with (IZR w * (1 + eps) * (c * (1 + eps)))%R by ring.
        apply Rmult_le_compat_l; [nra|lra]. }
    assert (Hlo2 : (IZR w * c * ((1 - eps) * (1 - eps) * (1 - eps)) <= X)%R).
    { apply Rle_trans with (G * F * (1 - eps))%R; [|lra].
      replace (IZR w * c * ((1 - eps) * (1 - eps) * (1 - eps)))%R
        with (IZR w * c * ((1 - eps) * (1 - eps)) * (1 - eps))%R by ring.
      apply Rmult_le_compat_r; lra. }
    assert (Hhi2 : (X <= IZR w * c * ((1 + eps) * (1 + eps) * (1 + eps)))%R).
    { apply Rle_trans with (G * F * (1 + eps))%R; [lra|].
      replace (IZR w * c * ((1 + eps) * (1 + eps) * (1 + eps)))%R
        with (IZR w * c * ((1 + eps) * (1 + eps)) * (1 + eps))%R by ring.
      apply Rmult_le_compat_r; lra. }
    split; lra.
Qed.

(** One column of the proportional reduction: [max(1, int(w * factor))]
    against the exact share [w * c], for a factor within one rounding of [c]. *)
Lemma scale_width_bound (mf : positive) (ef : Z) (c : R) (w : Z) :
  canonical mf -> - 1052 <= ef <= - 51 ->
  (0 < c)%R ->
  (c * (1 - eps) <= F2R (Zpos mf) ef <= c * (1 + eps))%R ->
  0 <= w < 2 ^ 1000 ->
  exists s,
    scale_width (S754_finite false mf ef) w = Ok s /\ 1 <= s /\
    (IZR w * c * ((1 - eps) * (1 - eps) * (1 - eps)) - 1 <= IZR s
       <= IZR w * c * ((1 + eps) * (1 + eps) * (1 + eps)) + 1)%R.
Proof.
  intros Hcf Hef Hc Hf Hw.
  destruct (scale_width_core mf ef c w Hcf Hef Hc Hf Hw) as (x & v & Hx & Hv & Hv0 & Hb).
  exists (Z.max 1 v). split; [unfold scale_width; rewrite Hx; cbn [rbind]; now rewrite Hv|].
  split; [lia|].
  assert (Hv0' : (0 <= IZR v)%R) by (apply IZR_le; lia).
  destruct (Z.max_spec 1 v) as [[Hlt ->]|[Hge ->]]; [lra|].
  assert (IZR v <= 1)%R by (apply IZR_le; lia). lra.
Qed.

Lemma scaled_sum_bound (mf : positive) (ef : Z) (c : R) (ws : list Z) :
  canonical mf -> - 1052 <= ef <= - 51 ->
  (0 < c)%R ->
  (c * (1 - eps) <= F2R (Zpos mf) ef <= c * (1 + eps))%R ->
  Forall (fun w => 0 <= w < 2 ^ 1000) ws ->
  exists ss,
    rmap (scale_width (S754_finite false mf ef)) ws = Ok ss /\
    List.length ss = List.length ws /\
    Forall (fun s => 1 <= s) ss /\
    (IZR (zsum ws) * c * ((1 - eps) * (1 - eps) * (1 - eps)) - INR (List.length ws)
       <= IZR (zsum ss)
       <= IZR (zsum ws) * c * ((1 + eps) * (1 + eps) * (1 + eps)) + INR (List.length ws))%R.
Proof.
  intros Hcf Hef Hc Hf Hws. induction Hws as [|w ws Hw Hws IH].
  - exists []. split; [reflexivity|]. split; [reflexivity|]. split; [constructor|].
    cbn. lra.
  - destruct IH as (ss & Hss & Hlen & Hall & Hb).
    destruct (scale_width_bound mf ef c w Hcf Hef Hc Hf Hw) as (s & Hs & Hs1 & Hbs).
    exists (s :: ss). split; [cbn [rmap]; rewrite Hs; cbn [rbind]; rewrite Hss; reflexivity|].
    split; [cbn; now rewrite Hlen|]. split; [constructor; assumption|].
    change (zsum (w :: ws)) with (w + zsum ws). change (zsum (s :: ss)) with (s + zsum ss).
    change (List.length (w :: ws)) with (S (List.length ws)).
    rewrite S_INR, !plus_IZR. lra.
Qed.

(** ** The proportional reduction of overflowing widths *)

Lemma bump_sum (k : nat) (d : Z) (ws : list Z) :
  zsum (bump k d ws) = zsum ws + d * Z.of_nat (Nat.min k (List.length ws)).
Proof.
  revert k. induction ws as [|w ws IH]; intros [|k]; cbn [bump]; try (cbn; lia).
  change (zsum ((w + d) :: bump k d ws)) with (w + d + zsum (bump k d ws)).
  rewrite IH. change (zsum (w :: ws)) with (w + zsum ws).
  change (Nat.min (S k) (List.length (w :: ws))) with (S (Nat.min k (List.length ws))).
  lia.
Qed.

Lemma bump_length (k : nat) (d : Z) (ws : list Z) :
  List.length (bump k d ws) = List.length ws.
Proof.
  revert k. induction ws as [|w ws IH]; intros [|k]; cbn [bump]; try reflexivity.
  cbn [List.length]. now rewrite IH.
Qed.

Lemma bump_nonneg (k : nat) (d : Z) (ws : list Z) :
  - 1 <= d -> Forall (fun w => 1 <= w) ws -> Forall (fun w => 0 <= w) (bump k d ws).
Proof.
  intros Hd Hws. revert k. induction Hws as [|w ws Hw Hws IH]; intros [|k]; cbn [bump].
  - constructor.
  - constructor.
  - constructor; [lia|]. eapply Forall_impl; [|exact Hws]. cbn. intros. lia.
  - constructor; [lia|apply IH].
Qed.

Lemma zsum_nonneg (ws : list Z) : Forall (fun w => 0 <= w) ws -> 0 <= zsum ws.
Proof.
  induction 1 as [|w ws Hw _ IH]; [cbn; lia|].
  change (zsum (w :: ws)) with (w + zsum ws). lia.
Qed.

Lemma nonneg_below_sum (ws : list Z) :
  Forall (fun w => 0 <= w) ws -> Forall (fun w => 0 <= w <= zsum ws) ws.
Proof.
  induction 1 as [|w ws Hw Hws IH]; constructor.
  - pose proof (zsum_nonneg ws Hws). change (zsum (w :: ws)) with (w + zsum ws). lia.
  - eapply Forall_impl; [|exact IH]. cbn beta. intros a Ha.
    change (zsum (w :: ws)) with (w + zsum ws). lia.
Qed.

(** X9: when the widths of a row (none negative) sum to more than the
    table width, the proportional reduction [max(1, int(w * factor))]
    with the float [factor = table_width / sum], followed by the
    one-character corrections of the first columns, never raises and
    gives as many widths, none negative, whose sum is the table width
    exactly; this for every table width below [2^50] and widths summing
    to less than [2^1000], where the three roundings per column cannot
    add up to a whole character. *)
Theorem fit_total_sums_to_table_width (table_width : Z) (col_widths : list Z) :
  0 < table_width < 2 ^ 50 ->
  Forall (fun w => 0 <= w) col_widths ->
  table_width < zsum col_widths < 2 ^ 1000 ->
  exists fitted,
    fit_total table_width col_widths = Ok fitted /\
    List.length fitted = List.length col_widths /\
    Forall (fun w => 0 <= w) fitted /\
    zsum fitted = table_width.
Proof.
  intros [Htw0 Htw1] Hws [Hov Hbig].
  set (total := zsum col_widths) in *.
  unfold fit_total. fold total.
  assert (Hgt : (total >? table_width) = true) by (apply Z.gtb_lt; lia).
  rewrite Hgt. unfold scaled_widths. fold total.
  assert (Hd1 : 1 <= Zdigits2 table_width) by (destruct table_width; cbn; lia).
  assert (Hd2 : Zdigits2 total <= 1000) by (apply Zdigits2_le; lia).
  assert (Hd12 : Zdigits2 table_width <= Zdigits2 total).
  { destruct total as [|pt|pt] eqn:Et; try lia.
    apply Zdigits2_le; [lia|]. pose proof (Zdigits2_bounds pt). lia. }
  destruct (int_truediv_bound table_width total ltac:(lia) ltac:(lia) ltac:(lia) ltac:(lia))
    as (mf & ef & Hdiv & Hcf & Hef & Hbf).
  rewrite Hdiv. cbn [rbind].
  set (c := (IZR table_width / IZR total)%R) in *.
  assert (HT : (0 < IZR table_width)%R) by (apply IZR_lt; lia).
  assert (HS : (0 < IZR total)%R) by (apply IZR_lt; lia).
  assert (Hc : (0 < c)%R) by (apply Rdiv_lt_0_compat; assumption).
  assert (Hsc : (IZR total * c = IZR table_width)%R) by (unfold c; field; lra).
  assert (Hall : Forall (fun w => 0 <= w < 2 ^ 1000) col_widths).
  { eapply Forall_impl; [|exact (nonneg_below_sum col_widths Hws)].
    cbn. fold total. intros. lia. }
  destruct (scaled_sum_bound mf ef c col_widths Hcf ltac:(lia) Hc Hbf Hall)
    as (ss & Hss & Hlen & Hone & Hb).
  fold total in Hb. rewrite Hsc in Hb.
  rewrite Hss. cbn [rbind]. eexists. split; [reflexivity|].
  rewrite bump_length. split; [exact Hlen|].
  split.
  { apply bump_nonneg; [|exact Hone]. destruct (table_width - zsum ss >? 0); lia. }
  rewrite bump_sum.
  (* the rounding error of the whole row is below one character *)
  pose proof eps_pos as E0. pose proof eps_small as E1.
  assert (Hte : (IZR table_width * eps < 1 / 4)%R).
  { assert (H50 : (IZR table_width < IZR (2 ^ 50))%R) by (apply IZR_lt; lia).
    rewrite IZR_pow2 in H50 by lia.
    assert (Hpp : (powerRZ 2 50 * eps = 1 / 4)%R).
    { unfold eps. rewrite <- powerRZ_add by lra. change (50 + -52) with (-2).
      unfold powerRZ. change (Pos.to_nat 2) with 2%nat. cbn [pow]. lra. }
    rewrite <- Hpp. apply Rmult_lt_compat_r; assumption. }
  assert (Hup : ((1 + eps) * (1 + eps) * (1 + eps) <= 1 + 4 * eps)%R) by nra.
  assert (Hdn : (1 - 3 * eps <= (1 - eps) * (1 - eps) * (1 - eps))%R) by nra.
  assert (Hhi : (IZR table_width * ((1 + eps) * (1 + eps) * (1 + eps))
                 <= IZR table_width + 4 * (IZR table_width * eps))%R) by nra.
  assert (Hlo : (IZR table_width - 3 * (IZR table_width * eps)
                 <= IZR table_width * ((1 - eps) * (1 - eps) * (1 - eps)))%R) by nra.
  rewrite INR_IZR_INZ in Hb.
  set (n := Z.of_nat (List.length col_widths)) in *.
  assert (H1 : table_width - n - 1 < zsum ss).
  { apply lt_IZR. rewrite !minus_IZR. lra. }
  assert (H2 : zsum ss < table_width + n + 1).
  { apply lt_IZR. rewrite !plus_IZR. lra. }
  rewrite Hlen. fold n.
  assert (Hn : 0 <= n) by (unfold n; lia).
  rewrite !Nat2Z.inj_min, Z2Nat.id by lia. fold n.
  rewrite !Z.min_l by lia.
  destruct (table_width - zsum ss >? 0) eqn:Ed.
  - apply Z.gtb_lt in Ed. lia.
  - assert (table_width - zsum ss <= 0) by (destruct (Z.gtb_spec (table_width - zsum ss) 0); [discriminate|lia]).
    lia.
Qed.

Lemma fit_total_sums_to_table_width_witness :
  exists fitted,
    fit_total 48 [30; 0; 30] = Ok fitted /\
    List.length fitted = List.length [30; 0; 30] /\
    Forall (fun w => 0 <= w) fitted /\
    zsum fitted = 48.
Proof.
  apply (fit_total_sums_to_table_width 48 [30; 0; 30]).
  - split; [lia|reflexivity].
  - repeat constructor; discriminate.
  - split; [reflexivity|reflexivity].
Defined.

(** ** Shares by content *)

Lemma list_set_sum (l : list Z) (i : nat) (v : Z) :
  (i < List.length l)%nat -> zsum (list_set l i v) = zsum l - nth i l 0 + v.
Proof.
  revert i. induction l as [|x l IH]; intros [|i] Hi; cbn [List.length] in Hi; try lia.
  - cbn [list_set nth]. change (zsum (v :: l)) with (v + zsum l).
    change (zsum (x :: l)) with (x + zsum l). lia.
  - cbn [list_set nth]. change (zsum (x :: list_set l i v)) with (x + zsum (list_set l i v)).
    change (zsum (x :: l)) with (x + zsum l). rewrite IH by lia. lia.
Qed.

Lemma nth_list_set_other (l : list Z) (i j : nat) (v : Z) :
  i <> j -> nth j (list_set l i v) 0 = nth j l 0.
Proof.
  revert i j. induction l as [|x l IH]; intros [|i] [|j] Hij; cbn [list_set nth];
    try reflexivity; try congruence.
  apply IH. congruence.
Qed.

Section ByContent.
Variables remaining total : Z.
Variable styles : list style_info.
Hypothesis remaining_range : 0 < remaining < 2 ^ 50.
Hypothesis total_range : 0 < total < 2 ^ 1000.

Lemma distribute_by_content_sum (flex : list nat) :
  NoDup flex ->
  forall ws,
    (forall idx, In idx flex ->
       (idx < List.length ws)%nat /\ nth idx ws 0 = 0 /\
       share_at_least_one remaining total styles idx) ->
    exists ws',
      distribute_by_content remaining total styles flex ws = Ok ws' /\
      List.length ws' = List.length ws /\
      (forall j, ~ In j flex -> nth j ws' 0 = nth j ws 0) /\
      (IZR (zsum ws)
         + IZR (zsum (map (clen_of styles) flex))
           * (IZR remaining / IZR total * ((1 - eps) * (1 - eps) * (1 - eps)))
         - IZR (Z.of_nat (List.length flex))
       <= IZR (zsum ws')
       <= IZR (zsum ws)
         + IZR (zsum (map (clen_of styles) flex))
           * (IZR remaining / IZR total * ((1 + eps) * (1 + eps) * (1 + eps))))%R.
Proof.
  pose proof eps_pos as E0. pose proof eps_small as E1.
  assert (HT : (0 < IZR total)%R) by (apply IZR_lt; lia).
  assert (HR : (0 < IZR remaining)%R) by (apply IZR_lt; lia).
  induction 1 as [|idx flex Hnotin Hnd IH]; intros ws Hflex.
  - exists ws. split; [reflexivity|]. split; [reflexivity|]. split; [reflexivity|].
    cbn. lra.
  - destruct (Hflex idx (or_introl eq_refl)) as (Hlt & Hzero & st & Hst & [Hc0 Hc1] & Hshare).
    cbn [distribute_by_content]. rewrite Hst.
    assert (Hd1 : 1 <= Zdigits2 (content_length st))
      by (destruct (content_length st); cbn; lia).
    assert (Hd2 : Zdigits2 total <= 1000) by (apply Zdigits2_le; lia).
    assert (Hd12 : Zdigits2 (content_length st) <= Zdigits2 total).
    { destruct total as [|pt|pt] eqn:Et; try lia.
      apply Zdigits2_le; [lia|]. pose proof (Zdigits2_bounds pt). lia. }
    destruct (int_truediv_bound (content_length st) total
                ltac:(lia) ltac:(lia) ltac:(lia) ltac:(lia))
      as (mf & ef & Hdiv & Hcf & Hef & Hbf).
    rewrite Hdiv. cbn [rbind].
    set (c := (IZR (content_length st) / IZR total)%R) in *.
    assert (HC : (0 < IZR (content_length st))%R) by (apply IZR_lt; lia).
    assert (Hc : (0 < c)%R) by (apply Rdiv_lt_0_compat; assumption).
    assert (Hrem : 0 <= remaining < 2 ^ 1000).
    { assert (2 ^ 50 <= 2 ^ 1000) by (apply Z.pow_le_mono_r; lia). lia. }
    destruct (scale_width_core mf ef c remaining Hcf ltac:(lia) Hc Hbf Hrem)
      as (x & v & Hx & Hv & Hv0 & Hb).
    rewrite Hx. cbn [rbind]. rewrite Hv. cbn [rbind].
    destruct (IH (list_set ws idx (Z.max 1 v))) as (ws' & Hws' & Hlen & Hkeep & Hsum).
    { intros j Hj. rewrite list_set_length.
      destruct (Hflex j (or_intror Hj)) as (Hj1 & Hj2 & Hj3).
      split; [exact Hj1|]. split; [|exact Hj3].
      rewrite nth_list_set_other; [exact Hj2|]. intros ->. contradiction. }
    exists ws'. split; [exact Hws'|].
    rewrite list_set_length in Hlen. split; [exact Hlen|].
    split.
    { intros j Hj. rewrite Hkeep by (intros Hin; apply Hj; now right).
      apply nth_list_set_other. intros ->. apply Hj. now left. }
    rewrite list_set_sum in Hsum by exact Hlt. rewrite Hzero in Hsum.
    replace (zsum ws - 0 + Z.max 1 v) with (zsum ws + Z.max 1 v) in Hsum by lia.
    rewrite plus_IZR in Hsum.
    change (map (clen_of styles) (idx :: flex))
      with (clen_of styles idx :: map (clen_of styles) flex).
    change (zsum (clen_of styles idx :: map (clen_of styles) flex))
      with (clen_of styles idx + zsum (map (clen_of styles) flex)).
    unfold clen_of at 1 3. rewrite Hst.
    change (List.length (idx :: flex)) with (S (List.length flex)).
    rewrite Nat2Z.inj_succ, succ_IZR, !plus_IZR.
    (* the share of this column *)
    assert (Hone : (1 <= IZR remaining * c)%R).
    { unfold c. apply Rmult_le_reg_r with (IZR total); [exact HT|].
      replace (IZR remaining * (IZR (content_length st) / IZR total) * IZR total)%R
        with (IZR (content_length st * remaining))%R
        by (rewrite mult_IZR; field; lra).
      rewrite Rmult_1_l. apply IZR_le. exact Hshare. }
    assert (Hup3 : (1 <= (1 + eps) * (1 + eps) * (1 + eps))%R) by nra.
    assert (Hs1 : (IZR (Z.max 1 v)
                   <= IZR remaining * c * ((1 + eps) * (1 + eps) * (1 + eps)))%R).
    { destruct (Z.max_spec 1 v) as [[_ ->]|[_ ->]]; [lra|]. nra. }
    assert (Hs2 : (IZR remaining * c * ((1 - eps) * (1 - eps) * (1 - eps)) - 1
                   <= IZR (Z.max 1 v))%R).
    { assert (IZR v <= IZR (Z.max 1 v))%R by (apply IZR_le; lia). lra. }
    assert (Hcc : forall k : R,
               (IZR (content_length st) * (IZR remaining / IZR total * k)
                = IZR remaining * c * k)%R).
    { intros k. unfold c. field. lra. }
    rewrite !Rmult_plus_distr_r, !Hcc. lra.
Qed.

End ByContent.

Lemma cell_style_index (i : nat) (cell : node) (col : str) (st : style_info) :
  cell_style i cell col = Ok st -> index st = i /\ 0 <= content_length st.
Proof.
  unfold cell_style. pose proof (len_nonneg col) as Hn.
  destruct (has_attr cell (lit "style")).
  - destruct (style_widths (lower (get_attr_or cell (lit "style") []))) as [w|e];
      cbn [rbind]; [|discriminate].
    intros H. injection H as <-. now split.
  - intros H. injection H as <-. now split.
Qed.

Lemma cell_styles_from_index (cells : list node) :
  forall cols i styles,
    cell_styles_from i cells cols = Ok styles ->
    forall k st, nth_error styles k = Some st ->
                 index st = (i + k)%nat /\ 0 <= content_length st.
Proof.
  induction cells as [|cell cells IH]; intros cols i styles H k st Hk.
  - injection H as <-. destruct k; discriminate.
  - destruct cols as [|col cols].
    + injection H as <-. destruct k; discriminate.
    + cbn [cell_styles_from] in H.
      destruct (cell_style i cell col) as [st0|e] eqn:Est; cbn [rbind] in H; [|discriminate].
      destruct (cell_styles_from (S i) cells cols) as [rest|e] eqn:Er; cbn [rbind] in H;
        [|discriminate].
      injection H as <-. destruct k as [|k]; cbn [nth_error] in Hk.
      * injection Hk as <-. apply cell_style_index in Est as [E1 E2].
        split; [lia|exact E2].
      * destruct (IH cols (S i) rest Er k st Hk) as [E1 E2]. split; [lia|exact E2].
Qed.

(** The flexible indices of well-numbered styles are distinct positions
    of flexible styles. *)
Lemma flexible_columns_positions (styles : list style_info) :
  forall i,
    (forall k st, nth_error styles k = Some st -> index st = (i + k)%nat) ->
    NoDup (flexible_columns styles) /\
    (forall idx, In idx (flexible_columns styles) ->
       (i <= idx)%nat /\
       exists st, nth_error styles (idx - i) = Some st /\ is_flexible st = true).
Proof.
  unfold flexible_columns.
  induction styles as [|st0 styles IH]; intros i Hidx.
  - split; [constructor|]. intros idx [].
  - destruct (IH (S i)) as [Hnd Hin].
    { intros k st Hk. rewrite (Hidx (S k) st Hk). lia. }
    pose proof (Hidx 0%nat st0 eq_refl) as H0. rewrite Nat.add_0_r in H0.
    cbn [filter].
    destruct (negb (fixed_truthy st0) && negb (percent_truthy st0)) eqn:Ef.
    + cbn [map]. split.
      * constructor; [|exact Hnd]. intros Hc. apply Hin in Hc as [Hle _]. lia.
      * intros idx [<-|Hi].
        -- split; [lia|]. exists st0. rewrite H0, Nat.sub_diag. split; [reflexivity|exact Ef].
        -- destruct (Hin idx Hi) as (Hle & st & Hst & Hfl). split; [lia|].
           exists st. split; [|exact Hfl].
           replace (idx - i)%nat with (S (idx - S i)) by lia. exact Hst.
    + split; [exact Hnd|]. intros idx Hi.
      destruct (Hin idx Hi) as (Hle & st & Hst & Hfl). split; [lia|].
      exists st. split; [|exact Hfl].
      replace (idx - i)%nat with (S (idx - S i)) by lia. exact Hst.
Qed.

Lemma initial_widths_spec (table_width : Z) (styles : list style_info) (ws : list Z) :
  Forall (fun st => fixed_nonneg (width_fixed st)) styles ->
  rmap (initial_width table_width) styles = Ok ws ->
  List.length ws = List.length styles /\ Forall (fun w => 0 <= w) ws.
Proof.
  intros Hst H. apply rmap_forall2 in H.
  induction H as [|st w styles ws Hw H IH].
  - split; [reflexivity|constructor].
  - inversion Hst as [|? ? Hs Hss]; subst. destruct (IH Hss) as [I1 I2].
    split; [cbn; now rewrite I1|]. constructor; [|exact I2].
    now apply (initial_width_nonneg table_width st).
Qed.

Lemma zsum_map_member (f : nat -> Z) (l : list nat) (x : nat) :
  (forall y, In y l -> 0 <= f y) -> In x l -> f x <= zsum (map f l).
Proof.
  induction l as [|a l IH]; intros Hpos []; cbn [map];
    change (zsum (f a :: map f l)) with (f a + zsum (map f l)).
  - subst a. assert (0 <= zsum (map f l)).
    { clear IH. induction l as [|b l IHl]; [cbn; lia|]. cbn [map].
      change (zsum (f b :: map f l)) with (f b + zsum (map f l)).
      pose proof (Hpos b (or_intror (or_introl eq_refl))).
      assert (0 <= zsum (map f l)).
      { apply IHl. intros y [->|Hy]; apply Hpos; [now left|right; now right]. }
      lia. }
    lia.
  - pose proof (Hpos a (or_introl eq_refl)).
    assert (f x <= zsum (map f l)) by (apply IH; [intros y Hy; apply Hpos; now right|assumption]).
    lia.
Qed.

(** X13: in a multi-column row where the declared widths leave room
    and every flexible cell's proportional share
    [remaining * content_length / total_content_length] is at least one
    character, the width computation never raises, the declared columns
    keep their declared widths, and the shares given to the flexible
    columns never overflow: the widths sum to at most the table width (so
    the reduction step is not entered) and to no less than the table width
    minus one character per flexible column. *)
Theorem content_shares_fit
  (table_width : Z) (cells : list node) (styles : list style_info) (declared : list Z) :
  cell_styles_from 0 cells (cell_texts cells) = Ok styles ->
  rmap (initial_width table_width) styles = Ok declared ->
  let flex := flexible_columns styles in
  let remaining := table_width - zsum declared in
  let total := zsum (map (clen_of styles) flex) in
  table_width < 2 ^ 50 -> 0 < remaining -> 0 < total < 2 ^ 1000 ->
  (forall st, In st styles -> is_flexible st = true ->
              total <= content_length st * remaining) ->
  exists col_widths,
    column_widths table_width styles = Ok col_widths /\
    List.length col_widths = List.length styles /\
    (forall i, ~ In i flex -> nth i col_widths 0 = nth i declared 0) /\
    table_width - Z.of_nat (List.length flex) <= zsum col_widths <= table_width.
Proof.
  intros Hstyles Hdecl flex remaining total Htw Hrem Htotal Hshare.
  pose proof (cell_styles_from_index cells _ 0%nat styles Hstyles) as Hidx.
  destruct (cell_styles_from_spec cells _ _ _ Hstyles) as [_ Hfix].
  destruct (initial_widths_spec table_width styles declared Hfix Hdecl) as [Hlen Hpos].
  pose proof (zsum_nonneg declared Hpos) as Hsum0.
  destruct (flexible_columns_positions styles 0%nat) as [Hnd Hflex].
  { intros k st Hk. apply (Hidx k st Hk). }
  fold flex in Hnd, Hflex.
  assert (Hclen : forall y, In y flex -> 0 <= clen_of styles y).
  { intros y _. unfold clen_of. destruct (nth_error styles y) as [st|] eqn:E; [|lia].
    apply (Hidx y st E). }
  assert (Hgood : forall idx, In idx flex ->
            (idx < List.length declared)%nat /\ nth idx declared 0 = 0 /\
            share_at_least_one remaining total styles idx).
  { intros idx Hin. destruct (Hflex idx Hin) as (_ & st & Hst & Hfl).
    rewrite Nat.sub_0_r in Hst.
    assert (Hlt : (idx < List.length styles)%nat)
      by (apply nth_error_Some; congruence).
    split; [lia|]. split.
    - destruct (rmap_nth_error _ _ _ Hdecl idx st Hst) as (w & Hw & Hnth).
      rewrite (initial_width_flexible table_width st Hfl) in Hw. injection Hw as <-.
      now apply nth_error_nth.
    - exists st. split; [exact Hst|].
      assert (Hin' : In st styles) by (eapply nth_error_In; eassumption).
      pose proof (Hshare st Hin' Hfl) as Hs.
      pose proof (zsum_map_member (clen_of styles) flex idx Hclen Hin) as Hmem.
      unfold clen_of in Hmem at 1. rewrite Hst in Hmem. fold total in Hmem.
      split; [|exact Hs]. split; [nia|exact Hmem]. }
  destruct (distribute_by_content_sum remaining total styles ltac:(lia) Htotal flex Hnd
              declared Hgood) as (ws & Hws & Hwlen & Hkeep & Hb).
  fold total in Hb.
  (* the rounding error of the whole row is below one character *)
  pose proof eps_pos as E0. pose proof eps_small as E1.
  assert (HT : (0 < IZR total)%R) by (apply IZR_lt; lia).
  assert (HR : (0 < IZR remaining)%R) by (apply IZR_lt; lia).
  assert (Hte : (IZR remaining * eps < 1 / 4)%R).
  { assert (H50 : (IZR remaining < IZR (2 ^ 50))%R) by (apply IZR_lt; lia).
    rewrite IZR_pow2 in H50 by lia.
    assert (Hpp : (powerRZ 2 50 * eps = 1 / 4)%R).
    { unfold eps. rewrite <- powerRZ_add by lra. change (50 + -52) with (-2).
      unfold powerRZ. change (Pos.to_nat 2) with 2%nat. cbn [pow]. lra. }
    rewrite <- Hpp. apply Rmult_lt_compat_r; assumption. }
  assert (Hup : ((1 + eps) * (1 + eps) * (1 + eps) <= 1 + 4 * eps)%R) by nra.
  assert (Hdn : (1 - 3 * eps <= (1 - eps) * (1 - eps) * (1 - eps))%R) by nra.
  assert (Hk : forall k : R,
             (IZR total * (IZR remaining / IZR total * k) = IZR remaining * k)%R)
    by (intros k; field; lra).
  rewrite !Hk in Hb.
  assert (Hhi : (IZR remaining * ((1 + eps) * (1 + eps) * (1 + eps))
                 <= IZR remaining + 4 * (IZR remaining * eps))%R) by nra.
  assert (Hlo : (IZR remaining - 3 * (IZR remaining * eps)
                 <= IZR remaining * ((1 - eps) * (1 - eps) * (1 - eps)))%R) by nra.
  set (n := Z.of_nat (List.length flex)) in *.
  assert (H1 : zsum declared + remaining - n - 1 < zsum ws).
  { apply lt_IZR. rewrite !minus_IZR, plus_IZR. lra. }
  assert (H2 : zsum ws < zsum declared + remaining + 1).
  { apply lt_IZR. rewrite !plus_IZR. lra. }
  exists ws. split.
  - unfold column_widths. rewrite Hdecl. cbn [rbind].
    assert (Hdf : distribute_flexible table_width styles declared = Ok ws).
    { unfold distribute_flexible. fold flex. fold remaining.
      change (zsum (map (fun i => match nth_error styles i with
                                  | Some st => content_length st
                                  | None => 0
                                  end) flex)) with total.
      assert (Hne : Nat.eqb (List.length flex) 0 = false).
      { apply Nat.eqb_neq. intros E. apply length_zero_iff_nil in E.
        unfold total in Htotal. rewrite E in Htotal. cbn in Htotal. lia. }
      rewrite Hne. cbn [negb andb].
      assert (Hr : (remaining >? 0) = true) by (apply Z.gtb_lt; lia).
      rewrite Hr.
      assert (Ht : (total >? 0) = true) by (apply Z.gtb_lt; lia).
      rewrite Ht. exact Hws. }
    rewrite Hdf. cbn [rbind]. unfold fit_total.
    assert (Hfit : (zsum ws >? table_width) = false).
    { destruct (Z.gtb_spec (zsum ws) table_width); [unfold remaining in *; lia|reflexivity]. }
    now rewrite Hfit.
  - split; [congruence|]. split; [exact Hkeep|]. unfold remaining in *. lia.
Qed.

Lemma content_shares_fit_witness :
  exists col_widths,
    column_widths 48 product_styles = Ok col_widths /\
    List.length col_widths = List.length product_styles /\
    (forall i, ~ In i (flexible_columns product_styles) ->
               nth i col_widths 0 = nth i [0; 0] 0) /\
    48 - Z.of_nat (List.length (flexible_columns product_styles)) <= zsum col_widths <= 48.
Proof.
  apply (content_shares_fit 48 product_cells product_styles [0; 0]).
  - vm_compute. reflexivity.
  - vm_compute. reflexivity.
  - reflexivity.
  - reflexivity.
  - split; reflexivity.
  - intros st [<-|[<-|[]]] _; vm_compute; discriminate.
Defined.

(** ** Even shares *)

Lemma nth_list_set_same (l : list Z) (i : nat) (v : Z) :
  (i < List.length l)%nat -> nth i (list_set l i v) 0 = v.
Proof.
  revert i. induction l as [|x l IH]; intros [|i] Hi; cbn [List.length] in Hi; try lia.
  - reflexivity.
  - cbn [list_set nth]. apply IH. lia.
Qed.

Lemma distribute_evenly_sum (flex_width extra_width : Z) (flex : list nat) :
  NoDup flex ->
  forall i ws,
    (forall idx, In idx flex -> (idx < List.length ws)%nat /\ nth idx ws 0 = 0) ->
    List.length (distribute_evenly flex_width extra_width i flex ws) = List.length ws /\
    (forall j, ~ In j flex ->
       nth j (distribute_evenly flex_width extra_width i flex ws) 0 = nth j ws 0) /\
    (forall idx, In idx flex ->
       flex_width <= nth idx (distribute_evenly flex_width extra_width i flex ws) 0
         <= flex_width + 1) /\
    zsum (distribute_evenly flex_width extra_width i flex ws)
    = zsum ws + flex_width * Z.of_nat (List.length flex)
      + Z.max 0 (Z.min (Z.of_nat (List.length flex)) (extra_width - i)).
Proof.
  induction 1 as [|idx flex Hnotin Hnd IH]; intros i ws Hflex.
  - cbn [distribute_evenly List.length]. split; [reflexivity|].
    split; [reflexivity|]. split; [intros j []|]. change (Z.of_nat 0) with 0. lia.
  - cbn [distribute_evenly].
    set (v := flex_width + (if i <? extra_width then 1 else 0)).
    destruct (Hflex idx (or_introl eq_refl)) as [Hlt Hzero].
    destruct (IH (i + 1) (list_set ws idx v)) as (Hlen & Hkeep & Hrange & Hsum).
    { intros j Hj. rewrite list_set_length.
      destruct (Hflex j (or_intror Hj)) as [Hj1 Hj2]. split; [exact Hj1|].
      rewrite nth_list_set_other; [exact Hj2|]. intros ->. contradiction. }
    rewrite list_set_length in Hlen. split; [exact Hlen|]. split; [|split].
    + intros j Hj. rewrite Hkeep by (intros Hin; apply Hj; now right).
      apply nth_list_set_other. intros ->. apply Hj. now left.
    + intros j [<-|Hj]; [|now apply Hrange].
      rewrite Hkeep by exact Hnotin. rewrite nth_list_set_same by exact Hlt.
      unfold v. destruct (i <? extra_width); lia.
    + rewrite Hsum, list_set_sum by exact Hlt. rewrite Hzero.
      change (List.length (idx :: flex)) with (S (List.length flex)).
      rewrite Nat2Z.inj_succ. unfold v.
      destruct (Z.ltb_spec i extra_width); lia.
Qed.

(** X14: in a multi-column row whose flexible cells are all empty and
    where the declared widths leave at least one character per flexible
    column, the remaining width is split evenly: the declared columns keep
    their widths, every flexible column gets [remaining // n] characters
    or one more, and the widths sum to the table width exactly. *)
Theorem even_shares_fill
  (table_width : Z) (cells : list node) (styles : list style_info) (declared : list Z) :
  cell_styles_from 0 cells (cell_texts cells) = Ok styles ->
  rmap (initial_width table_width) styles = Ok declared ->
  let flex := flexible_columns styles in
  let remaining := table_width - zsum declared in
  let n := Z.of_nat (List.length flex) in
  (forall st, In st styles -> is_flexible st = true -> content_length st = 0) ->
  0 < n <= remaining ->
  exists col_widths,
    column_widths table_width styles = Ok col_widths /\
    List.length col_widths = List.length styles /\
    (forall i, ~ In i flex -> nth i col_widths 0 = nth i declared 0) /\
    (forall i, In i flex -> remaining / n <= nth i col_widths 0 <= remaining / n + 1) /\
    zsum col_widths = table_width.
Proof.
  intros Hstyles Hdecl flex remaining n Hempty Hn.
  pose proof (cell_styles_from_index cells _ 0%nat styles Hstyles) as Hidx.
  destruct (cell_styles_from_spec cells _ _ _ Hstyles) as [_ Hfix].
  destruct (initial_widths_spec table_width styles declared Hfix Hdecl) as [Hlen Hpos].
  destruct (flexible_columns_positions styles 0%nat) as [Hnd Hflex].
  { intros k st Hk. apply (Hidx k st Hk). }
  fold flex in Hnd, Hflex.
  assert (Hgood : forall idx, In idx flex ->
            (idx < List.length declared)%nat /\ nth idx declared 0 = 0).
  { intros idx Hin. destruct (Hflex idx Hin) as (_ & st & Hst & Hfl).
    rewrite Nat.sub_0_r in Hst.
    assert (Hlt : (idx < List.length styles)%nat)
      by (apply nth_error_Some; congruence).
    split; [lia|].
    destruct (rmap_nth_error _ _ _ Hdecl idx st Hst) as (w & Hw & Hnth).
    rewrite (initial_width_flexible table_width st Hfl) in Hw. injection Hw as <-.
    now apply nth_error_nth. }
  assert (Htotal : zsum (map (fun i => match nth_error styles i with
                                       | Some st => content_length st
                                       | None => 0
                                       end) flex) = 0).
  { assert (Hall : forall idx, In idx flex ->
              match nth_error styles idx with
              | Some st => content_length st
              | None => 0
              end = 0).
    { intros idx Hin. destruct (Hflex idx Hin) as (_ & st & Hst & Hfl).
      rewrite Nat.sub_0_r in Hst. rewrite Hst.
      apply Hempty; [eapply nth_error_In; eassumption|exact Hfl]. }
    clear - Hall. induction flex as [|a flex IH]; [reflexivity|].
    cbn [map]. rewrite (Hall a (or_introl eq_refl)).
    change (zsum (0 :: ?l)) with (0 + zsum l). rewrite IH; [reflexivity|].
    intros idx Hi. apply Hall. now right. }
  pose proof (Z.div_mod remaining n ltac:(lia)) as Hdm.
  pose proof (Z.mod_pos_bound remaining n ltac:(lia)) as Hmod.
  assert (Hq : 1 <= remaining / n) by (apply Z.div_le_lower_bound; lia).
  destruct (distribute_evenly_sum (Z.max 1 (remaining / n)) (remaining mod n) flex Hnd
              0 declared Hgood) as (Hl & Hkeep & Hrange & Hsum).
  fold n in Hsum. rewrite Z.max_r in Hl, Hkeep, Hrange, Hsum by exact Hq.
  exists (distribute_evenly (remaining / n) (remaining mod n) 0 flex declared).
  assert (Hdf : distribute_flexible table_width styles declared
                = Ok (distribute_evenly (remaining / n) (remaining mod n) 0 flex declared)).
  { unfold distribute_flexible. fold flex. fold remaining. rewrite Htotal.
    assert (Hne : Nat.eqb (List.length flex) 0 = false)
      by (apply Nat.eqb_neq; unfold n in Hn; lia).
    rewrite Hne. cbn [negb andb].
    assert (Hr : (remaining >? 0) = true) by (apply Z.gtb_lt; lia).
    rewrite Hr. change (0 >? 0) with false. cbv iota. fold n.
    rewrite Z.max_r by exact Hq. reflexivity. }
  assert (Hz : zsum (distribute_evenly (remaining / n) (remaining mod n) 0 flex declared)
               = table_width).
  { rewrite Hsum. unfold remaining in *. nia. }
  split.
  - unfold column_widths. rewrite Hdecl. cbn [rbind]. rewrite Hdf. cbn [rbind].
    unfold fit_total. rewrite Hz. rewrite Z.gtb_ltb, Z.ltb_irrefl. reflexivity.
  - split; [congruence|]. split; [exact Hkeep|]. split; [exact Hrange|exact Hz].
Qed.

Lemma even_shares_fill_witness :
  exists col_widths,
    column_widths 48 spacer_styles = Ok col_widths /\
    List.length col_widths = List.length spacer_styles /\
    (forall i, ~ In i (flexible_columns spacer_styles) ->
               nth i col_widths 0 = nth i [20; 0; 0] 0) /\
    (forall i, In i (flexible_columns spacer_styles) ->
               (48 - zsum [20; 0; 0]) / Z.of_nat (List.length (flexible_columns spacer_styles))
               <= nth i col_widths 0
               <= (48 - zsum [20; 0; 0])
                  / Z.of_nat (List.length (flexible_columns spacer_styles)) + 1) /\
    zsum col_widths = 48.
Proof.
  apply (even_shares_fill 48 spacer_cells spacer_styles [20; 0; 0]).
  - vm_compute. reflexivity.
  - vm_compute. reflexivity.
  - intros st [<-|[<-|[<-|[]]]] H; [discriminate H|reflexivity|reflexivity].
  - split; reflexivity || (vm_compute; discriminate).
Defined.

(** ** The height of a scaled image *)

(** The quotient of two positive [int]s is never rounded below a whole
    number that the exact quotient reaches. *)
Lemma int_truediv_ge_integer (a b n : Z) (m : positive) (e : Z) :
  0 < a -> 0 < b ->
  Zdigits2 a <= Zdigits2 b + 53 ->
  Zdigits2 b - Zdigits2 a <= 1021 ->
  0 <= n < 2 ^ 53 -> n * b <= a ->
  int_truediv a b = Ok (S754_finite false m e) ->
  (IZR n <= F2R (Zpos m) e)%R.
Proof.
  intros Ha Hb Hd1 Hd2 [Hn0 Hn1] Hnb. destruct a as [|pa|pa]; try lia.
  destruct b as [|pb|pb]; try lia.
  set (d1 := Zdigits2 (Zpos pa)) in *. set (d2 := Zdigits2 (Zpos pb)) in *.
  pose proof (Zdigits2_bounds pa) as Ba. pose proof (Zdigits2_bounds pb) as Bb.
  fold d1 in Ba. fold d2 in Bb.
  assert (Hd1pos : 1 <= d1) by (unfold d1; cbn; lia).
  assert (Hd2pos : 1 <= d2) by (unfold d2; cbn; lia).
  unfold int_truediv. change (Zpos pb =? 0) with false. cbv iota.
  unfold exact_int, SFdiv, SFdiv_core_binary. fold d1. fold d2.
  rewrite !Z.add_0_r. rewrite !Z.sub_0_r.
  rewrite (fexp_normal (d1 - d2)) by (unfold emax, prec; lia).
  change (xorb false false) with false.
  set (e' := d1 - d2 - prec).
  assert (He' : e' <= 0) by (unfold e', prec; lia).
  rewrite (Z.min_l e' 0) by exact He'.
  set (s := 0 - e').
  assert (Hs : 0 <= s) by (unfold s; lia).
  assert (Hm' : forall t, 0 <= t ->
                match t with
                | Zpos _ => Z.shiftl (Zpos pa) t
                | Z0 => Zpos pa
                | Zneg _ => 0
                end = Zpos pa * 2 ^ t).
  { intros [|pt|pt] Ht; try lia. apply Z.shiftl_mul_pow2. lia. }
  rewrite (Hm' s Hs). clear Hm'.
  clearbody d1 d2.
  pose proof (Z.div_eucl_eq (Zpos pa * 2 ^ s) (Zpos pb) ltac:(lia)) as Heq.
  pose proof (Z.mod_pos_bound (Zpos pa * 2 ^ s) (Zpos pb) ltac:(lia)) as Hmod.
  unfold Z.modulo in Hmod.
  destruct (Z.div_eucl (Zpos pa * 2 ^ s) (Zpos pb)) as [q r].
  assert (Hps : 0 < 2 ^ s) by (apply Z.pow_pos_nonneg; lia).
  assert (Hqlo : 2 ^ 52 <= q).
  { assert (H1 : 2 ^ 52 * 2 ^ d2 <= Zpos pa * 2 ^ s).
    { replace (2 ^ 52 * 2 ^ d2) with (2 ^ (d1 - 1) * 2 ^ s).
      - apply Z.mul_le_mono_nonneg_r; lia.
      - rewrite <- !Z.pow_add_r by lia. f_equal. unfold s, e', prec. lia. }
    assert (H2 : 2 ^ 52 * Zpos pb < (q + 1) * Zpos pb) by nia.
    assert (0 < 2 ^ 52) by (apply Z.pow_pos_nonneg; lia). nia. }
  assert (Hqhi : q < 2 ^ 54).
  { assert (H1 : Zpos pa * 2 ^ s < 2 ^ 54 * 2 ^ (d2 - 1)).
    { replace (2 ^ 54 * 2 ^ (d2 - 1)) with (2 ^ d1 * 2 ^ s).
      - apply Z.mul_lt_mono_pos_r; lia.
      - rewrite <- !Z.pow_add_r by lia. f_equal. unfold s, e', prec. lia. }
    assert (0 < 2 ^ 54) by (apply Z.pow_pos_nonneg; lia). nia. }
  assert (Hq : 0 < q) by (assert (0 < 2 ^ 52) by (apply Z.pow_pos_nonneg; lia); lia).
  assert (Hdq1 : 53 <= Zdigits2 q) by (apply (Zdigits2_ge q 52); lia).
  assert (Hdq2 : Zdigits2 q <= 54) by (apply Zdigits2_le; lia).
  destruct (binary_round_aux_normal q e' (new_location (Zpos pb) r))
    as (m0 & e0 & Hm1 & He0 & Hcan & Hres).
  - exact Hq.
  - unfold prec. lia.
  - unfold e' in *. unfold emax, prec in *. lia.
  - set (k := Zdigits2 q - prec) in *.
    assert (Hk : 0 <= k <= 1) by (unfold k, prec; lia).
    assert (Hle : (e0 <=? emax - prec) = true)
      by (apply Z.leb_le; unfold e' in *; unfold emax, prec in *; lia).
    rewrite Hle in Hres. rewrite Hres. intros H. injection H as <- <-.
    (* the kept mantissa, at exponent e1 = e' + k, is at least n *)
    set (e1 := e' + k) in *.
    assert (Hval : (F2R (q / 2 ^ k) e1 <= F2R (Zpos m0) e0)%R).
    { replace e0 with (e1 + (e0 - e1)) by lia.
      rewrite <- F2R_shift by lia. apply F2R_le. lia. }
    apply Rle_trans with (F2R (q / 2 ^ k) e1); [|exact Hval].
    assert (Hpk : 0 < 2 ^ k) by (apply Z.pow_pos_nonneg; lia).
    destruct (Z_le_gt_dec e1 0) as [Hneg|Hposi].
    + (* e1 <= 0: n is a multiple of the unit in the last place *)
      assert (Hsk : s = k + (- e1)) by (unfold e1, s; lia).
      assert (Hpe : 0 < 2 ^ (- e1)) by (apply Z.pow_pos_nonneg; lia).
      assert (Hmant : n * 2 ^ (- e1) <= q / 2 ^ k).
      { apply Z.div_le_lower_bound; [lia|].
        assert (Hq' : n * 2 ^ s <= q).
        { assert (n * 2 ^ s * Zpos pb <= Zpos pa * 2 ^ s) by nia.
          assert (n * 2 ^ s * Zpos pb < (q + 1) * Zpos pb) by lia.
          nia. }
        rewrite Hsk, Z.pow_add_r in Hq' by lia. lia. }
      apply Rle_trans with (F2R (n * 2 ^ (- e1)) e1); [|apply F2R_le; exact Hmant].
      rewrite F2R_shift by lia. replace (e1 + - e1) with 0 by lia.
      unfold F2R. cbn [powerRZ]. lra.
    + (* e1 > 0: the value is at least 2^53 *)
      assert (Hm1lo : 2 ^ 52 <= q / 2 ^ k).
      { apply Z.div_le_lower_bound; [lia|].
        destruct (Z.eq_dec k 0) as [->|Hk1]; [change (2 ^ 0) with 1; lia|].
        assert (k = 1) by lia. subst k.
        assert (Hq54 : 2 ^ 53 <= q).
        { pose proof (Zdigits2_ge q 52 ltac:(lia) Hqlo).
          destruct q as [|pq|pq]; try lia.
          pose proof (Zdigits2_bounds pq) as Bq.
          assert (Zdigits2 (Zpos pq) = 54) by (unfold prec in *; lia).
          rewrite H1 in Bq. change (54 - 1) with 53 in Bq. lia. }
        replace (Zdigits2 q - prec) with 1 in * by lia.
        change (2 ^ 1) with 2. change (2 ^ 53) with (2 * 2 ^ 52) in Hq54. lia. }
      apply Rle_trans with (F2R (2 ^ 52) e1); [|apply F2R_le; exact Hm1lo].
      apply Rle_trans with (IZR (2 ^ 52 * 2 ^ e1)).
      * apply IZR_le.
        assert (2 ^ 1 <= 2 ^ e1) by (apply Z.pow_le_mono_r; lia).
        change (2 ^ 1) with 2 in H. change (2 ^ 53) with (2 ^ 52 * 2) in Hn1.
        assert (0 < 2 ^ 52) by (apply Z.pow_pos_nonneg; lia). nia.
      * rewrite <- (Z.add_0_l e1) at 2. rewrite <- F2R_shift by lia.
        unfold F2R. cbn [powerRZ]. lra.
Qed.

(** [int((a * b) / c)] is the integer quotient, for products below
    [2^52]: the float division and the truncation lose nothing. *)
Lemma int_ratio_floor (a b c : Z) :
  0 < a * b < 2 ^ 52 -> 0 < c < 2 ^ 1000 ->
  int_ratio a b c = Ok (a * b / c).
Proof.
  intros [Hab0 Hab1] [Hc0 Hc1]. unfold int_ratio.
  set (p := a * b) in *.
  assert (Hdp1 : 1 <= Zdigits2 p) by (destruct p; cbn; lia).
  assert (Hdp2 : Zdigits2 p <= 52) by (apply Zdigits2_le; lia).
  assert (Hdc1 : 1 <= Zdigits2 c) by (destruct c; cbn; lia).
  assert (Hdc2 : Zdigits2 c <= 1000) by (apply Zdigits2_le; lia).
  destruct (int_truediv_bound p c Hab0 Hc0 ltac:(lia) ltac:(lia))
    as (m & e & Hdiv & _ & _ & Hb).
  rewrite Hdiv. cbn [rbind].
  destruct (float_trunc_floor m e) as (v & Hv & Hv0 & Hbv).
  rewrite Hv. f_equal.
  pose proof (Z.div_mod p c ltac:(lia)) as Hdm.
  pose proof (Z.mod_pos_bound p c Hc0) as Hmod.
  set (n := p / c) in *.
  assert (Hn0 : 0 <= n) by (apply Z.div_pos; lia).
  assert (Hnp : n * c <= p) by lia.
  assert (Hnlt : n < 2 ^ 53).
  { assert (n <= p) by nia. assert (2 ^ 52 < 2 ^ 53) by (apply Z.pow_lt_mono_r; lia). lia. }
  pose proof (int_truediv_ge_integer p c n m e Hab0 Hc0 ltac:(lia) ltac:(lia)
                (conj Hn0 Hnlt) Hnp Hdiv) as Hlow.
  pose proof eps_pos as E0.
  assert (HC : (0 < IZR c)%R) by (apply IZR_lt; lia).
  assert (HP : (0 < IZR p)%R) by (apply IZR_lt; lia).
  assert (Hpe : (IZR p * eps < 1)%R).
  { assert (H52 : (IZR p < IZR (2 ^ 52))%R) by (apply IZR_lt; lia).
    rewrite IZR_pow2 in H52 by lia.
    assert (Hpp : (powerRZ 2 52 * eps = 1)%R).
    { unfold eps. rewrite <- powerRZ_add by lra. reflexivity. }
    rewrite <- Hpp. apply Rmult_lt_compat_r; assumption. }
  (* v <= n *)
  assert (Hup : v * c < p + 1).
  { apply lt_IZR. rewrite mult_IZR, plus_IZR.
    assert (IZR v * IZR c <= IZR p / IZR c * (1 + eps) * IZR c)%R
      by (apply Rmult_le_compat_r; lra).
    replace (IZR p / IZR c * (1 + eps) * IZR c)%R with (IZR p + IZR p * eps)%R in H
      by (field; lra).
    lra. }
  (* n <= v *)
  assert (Hlo : n < v + 1).
  { apply lt_IZR. rewrite plus_IZR. lra. }
  assert (v <= n) by (apply Z.div_le_lower_bound; lia).
  lia.
Qed.

(** C8, as the code has it: an [<img>] without a [text-align:center]
    style whose base64 source decodes to an image wider than the paper
    allows, and which carries no width or height (neither as attributes
    nor as pixel values of its style), is given the maximal pixel width
    of the paper (576 on 80mm paper, 384 otherwise) and the height
    [int((max_width_px * orig_h) / orig_w)], which is the integer
    quotient: the float division loses nothing for image sides below
    [2^31]. If [image.resize] raises for that size, the exception leaves
    the element and nothing is sent; otherwise the bitmap of that size is
    what the printer is sent, followed by a line feed when the printer
    accepts it, and nothing is raised. *)
Theorem image_auto_scaled_to_paper
  (rejects : list sink_op -> sink_op -> bool)
  (open_image : str -> option (Z * Z)) (resize_raises : Z -> Z -> bool)
  (paper_size font_size line_spacing : str) (char_width : Z)
  (attrs : list (str * str)) (cs : list node) (payload : str)
  (orig_w orig_h : Z) (log : list sink_op) :
  let element := Elem (lit "img") attrs cs in
  let max_w := max_width_px paper_size in
  let new_h := max_w * orig_h / orig_w in
  let bitmap := OpImage max_w new_h in
  has_center_style element = false ->
  contains (lit "base64") (get_attr_or element (lit "src") []) = true ->
  image_payload (get_attr_or element (lit "src") []) = Some payload ->
  open_image payload = Some (orig_w, orig_h) ->
  get_attr element (lit "width") = None ->
  get_attr element (lit "height") = None ->
  (forall style, get_attr element (lit "style") = Some style ->
     re_search (match_px (lit "width")) style = None /\
     re_search (match_px (lit "height")) style = None) ->
  max_w < orig_w < 2 ^ 31 ->
  0 < orig_h < 2 ^ 31 ->
  max_w = (if str_eqb paper_size (lit "80mm") then 576 else 384) /\
  int_ratio max_w orig_h orig_w = Ok new_h /\
  image_target_size max_w None None orig_w orig_h = Ok (max_w, new_h) /\
  process_element rejects open_image resize_raises paper_size font_size line_spacing
    char_width element log
  = (if resize_raises max_w new_h then (Raise ValueError, log)
     else if rejects log bitmap then (Ok tt, log)
     else if rejects (log ++ [bitmap]) (OpText [newline]) then (Ok tt, log ++ [bitmap])
     else (Ok tt, log ++ [bitmap; OpText [newline]])) /\
  image_target_size (max_width_px (lit "80mm")) None None 600 400 = Ok (576, 384) /\
  image_target_size (max_width_px (lit "58mm")) None None 600 400 = Ok (384, 256).
Proof.
  intros element max_w new_h bitmap Hc Hb Hp Ho Hw Hh Hs [Hwide Hw31] [Hh0 Hh31].
  assert (Hmax : max_w = (if str_eqb paper_size (lit "80mm") then 576 else 384))
    by reflexivity.
  assert (Hmax' : 384 <= max_w <= 576)
    by (rewrite Hmax; destruct (str_eqb paper_size (lit "80mm")); lia).
  assert (Hr : int_ratio max_w orig_h orig_w = Ok new_h).
  { apply int_ratio_floor.
    - split; [nia|]. change (2 ^ 52) with (2 ^ 21 * 2 ^ 31).
      assert (max_w < 2 ^ 21) by (change (2 ^ 21) with 2097152; lia).
      assert (0 < 2 ^ 21) by reflexivity. nia.
    - split; [lia|]. assert (2 ^ 31 < 2 ^ 1000) by (apply Z.pow_lt_mono_r; lia). lia. }
  assert (Ht : image_target_size max_w None None orig_w orig_h = Ok (max_w, new_h)).
  { unfold image_target_size. cbn [truthy_dim orb].
    destruct (Z.gtb_spec orig_w max_w) as [_|H]; [|lia].
    rewrite Hr. cbn [rbind].
    destruct (Z.gtb_spec max_w max_w) as [H|_]; [lia|reflexivity]. }
  split; [exact Hmax|]. split; [exact Hr|]. split; [exact Ht|].
  split; [|split; vm_compute; reflexivity].
  unfold element. rewrite process_element_img by exact Hc. fold element.
  unfold process_img. rewrite Hb.
  unfold image_payload in Hp. rewrite Hp, Ho.
  rewrite (image_requested_none element Hw Hh Hs).
  unfold bind, lift. fold max_w. rewrite Ht.
  destruct (resize_raises max_w new_h); [reflexivity|].
  unfold try_except, bind, call. fold bitmap.
  destruct (rejects log bitmap); [reflexivity|].
  destruct (rejects (log ++ [bitmap]) (OpText [newline])); [reflexivity|].
  rewrite <- app_assoc. reflexivity.
Qed.

Lemma image_auto_scaled_to_paper_witness :
  image_target_size 576 None None 600 400 = Ok (576, 384) /\
  process_element accept_all (fun _ => Some (600, 400)) pil_resize_raises (lit "80mm")
    (lit "normal") (lit "normal") 76 plain_img []
  = (Ok tt, [OpImage 576 384; OpText [newline]]).
Proof.
  destruct (image_auto_scaled_to_paper accept_all (fun _ => Some (600, 400))
              pil_resize_raises (lit "80mm") (lit "normal") (lit "normal") 76
              [(lit "src", lit "data:image/png;base64,AAAA")] [] (lit "AAAA") 600 400 [])
    as (_ & _ & Ht & Hrun & _).
  - reflexivity.
  - reflexivity.
  - reflexivity.
  - reflexivity.
  - reflexivity.
  - reflexivity.
  - intros style H. vm_compute in H. discriminate.
  - split; reflexivity.
  - split; reflexivity.
  - split; [exact Ht|exact Hrun].
Defined.

(** C8 as stated fails for an image whose scaled height is 0: a source of
    577x1 pixels on 80mm paper is to be resized to 576x0, [image.resize]
    raises [ValueError] outside the [try] blocks of the branch, no bitmap
    is sent, and the exception ends the traversal before the paragraph
    that follows the image. *)
Lemma image_scaled_to_zero_height_raises :
  image_target_size (max_width_px (lit "80mm")) None None 577 1 = Ok (576, 0) /\
  pil_resize_raises 576 0 = true /\
  process_element accept_all (fun _ => Some (577, 1)) pil_resize_raises (lit "80mm")
    (lit "normal") (lit "normal") 76 plain_img []
  = (Raise ValueError, []) /\
  (let run :=
     process_html_for_escpos accept_all (fun _ => Some (577, 1)) pil_resize_raises
       image_then_paragraph (lit "80mm") (lit "normal") false (lit "normal") [] in
   fst run = Raise ValueError /\ text_ops (snd run) = []).
Proof. vm_compute. repeat split. Qed.

(** ** Exceptions leave the traversal *)

Lemma for_each_raise {A : Type} (body : A -> M unit) (before after : list A) (x : A)
  (e : exn) (log log1 log2 : list sink_op) :
  for_each body before log = (Ok tt, log1) ->
  body x log1 = (Raise e, log2) ->
  for_each body (before ++ x :: after) log = (Raise e, log2).
Proof.
  intros H1 H2. rewrite for_each_app. unfold bind. rewrite H1.
  cbn [for_each]. unfold bind. rewrite H2. reflexivity.
Qed.

Section Dispatch.
Variable rejects : list sink_op -> sink_op -> bool.
Variable open_image : str -> option (Z * Z).
Variable resize_raises : Z -> Z -> bool.
Variables paper_size font_size line_spacing : str.
Variable char_width : Z.

Lemma process_element_barcode (attrs : list (str * str)) (cs : list node) :
  has_center_style (Elem (lit "barcode") attrs cs) = false ->
  process_element rejects open_image resize_raises paper_size font_size line_spacing
    char_width (Elem (lit "barcode") attrs cs)
  = process_barcode rejects paper_size (Elem (lit "barcode") attrs cs).
Proof.
  intros H. unfold has_center_style in H.
  cbn -[process_barcode get_attr get_text emit_centered emit_heading nonempty contains lit].
  rewrite H. reflexivity.
Qed.

Lemma process_element_qr (attrs : list (str * str)) (cs : list node) :
  has_center_style (Elem (lit "qr") attrs cs) = false ->
  process_element rejects open_image resize_raises paper_size font_size line_spacing
    char_width (Elem (lit "qr") attrs cs)
  = process_qr rejects paper_size (Elem (lit "qr") attrs cs).
Proof.
  intros H. unfold has_center_style in H.
  cbn -[process_qr get_attr get_text emit_centered emit_heading nonempty contains lit].
  rewrite H. reflexivity.
Qed.

Lemma process_element_p (attrs : list (str * str)) (cs : list node) :
  process_element rejects open_image resize_raises paper_size font_size line_spacing
    char_width (Elem (lit "p") attrs cs)
  = process_paragraph rejects paper_size font_size (Elem (lit "p") attrs cs).
Proof. reflexivity. Qed.

End Dispatch.

(** C7, as the code has it. An [<img>] whose data URL has no payload, or
    whose payload does not decode to an image, raises nothing and sends
    nothing to the printer, whatever the printer does, and its following
    siblings are processed as if it were absent. But the traversal has no
    handler of its own: when the processing of one element raises, the
    traversal of its siblings ends there with that exception, after the
    calls made so far, and no later sibling is processed. The branches of
    [<barcode>], [<qr>] and [<p>] have no handler either: when the
    printer rejects the barcode call, the QR call, or the first call of a
    paragraph, the exception leaves the element before anything of it is
    printed. *)
Theorem malformed_image_is_skipped
  (rejects : list sink_op -> sink_op -> bool)
  (open_image : str -> option (Z * Z)) (resize_raises : Z -> Z -> bool)
  (paper_size font_size line_spacing : str) (char_width : Z)
  (attrs : list (str * str)) (cs : list node) (rest : list node)
  (log : list sink_op) :
  let walk :=
    process_element rejects open_image resize_raises paper_size font_size line_spacing
      char_width in
  let walk_all :=
    process_children rejects open_image resize_raises paper_size font_size line_spacing
      char_width in
  let element := Elem (lit "img") attrs cs in
  let src := get_attr_or element (lit "src") [] in
  has_center_style element = false ->
  contains (lit "base64") src = true ->
  match image_payload src with
  | Some payload => open_image payload = None
  | None => True
  end ->
  (walk element log = (Ok tt, log) /\
   walk_all (element :: rest) log = walk_all rest log) /\
  (forall (before after : list node) (failing : node) (e : exn)
          (log0 log1 log2 : list sink_op),
     is_tag failing = true ->
     walk_all before log0 = (Ok tt, log1) ->
     walk failing log1 = (Raise e, log2) ->
     walk_all (before ++ failing :: after) log0 = (Raise e, log2)) /\
  (forall (battrs : list (str * str)) (bcs : list node) (log0 : list sink_op),
     let barcode := Elem (lit "barcode") battrs bcs in
     has_center_style barcode = false ->
     rejects log0
       (OpBarcode (get_text barcode) (get_attr_or barcode (lit "type") (lit "CODE128"))
          (if str_eqb paper_size (lit "80mm") then 2 else 1) 80 (lit "BELOW") (lit "A"))
     = true ->
     walk barcode log0 = (Raise SinkError, log0)) /\
  (forall (qattrs : list (str * str)) (qcs : list node) (log0 : list sink_op),
     let qr := Elem (lit "qr") qattrs qcs in
     has_center_style qr = false ->
     rejects log0 (OpQr (get_text qr) (if str_eqb paper_size (lit "80mm") then 8 else 12))
     = true ->
     walk qr log0 = (Raise SinkError, log0)) /\
  (forall (pattrs : list (str * str)) (pcs : list node) (log0 : list sink_op),
     rejects log0 (OpSet [KAlign AlignLeft; KBold false; KUnderline 0]) = true ->
     walk (Elem (lit "p") pattrs pcs) log0 = (Raise SinkError, log0)).
Proof.
  intros walk walk_all element src Hc Hb Hp.
  assert (He : walk element log = (Ok tt, log)).
  { unfold walk, element. rewrite process_element_img by exact Hc.
    unfold process_img. fold element. fold src. rewrite Hb.
    unfold image_payload in Hp.
    destruct (nth_error (split_on 44%N [] src) 1) as [payload|].
    - rewrite Hp. reflexivity.
    - reflexivity. }
  split; [|split; [|split; [|split]]].
  - split; [exact He|].
    unfold walk_all, process_children. cbn [for_each].
    change (is_tag element) with true. cbv beta iota.
    unfold bind at 1. fold walk. rewrite He. reflexivity.
  - intros before after failing e log0 log1 log2 Htag Hbefore Hfail.
    unfold walk_all, process_children.
    apply for_each_raise with (log1 := log1); [exact Hbefore|].
    rewrite Htag. exact Hfail.
  - intros battrs bcs log0 barcode Hcb Hrej.
    unfold walk, barcode. rewrite process_element_barcode by exact Hcb. fold barcode.
    unfold process_barcode, bind, call. rewrite Hrej. reflexivity.
  - intros qattrs qcs log0 qr Hcq Hrej.
    unfold walk, qr. rewrite process_element_qr by exact Hcq. fold qr.
    unfold process_qr, bind, call. rewrite Hrej. reflexivity.
  - intros pattrs pcs log0 Hrej.
    unfold walk. rewrite process_element_p.
    unfold process_paragraph, bind, call. rewrite Hrej. reflexivity.
Qed.

Lemma malformed_image_is_skipped_witness :
  process_element (reject_when (fun _ => true)) (fun _ => None) (fun _ _ => false)
    (lit "80mm") (lit "normal") (lit "normal") 76
    (Elem (lit "img") [(lit "src", lit "data:image/png;base64,AAAA")] []) []
  = (Ok tt, []) /\
  process_children (reject_when (fun _ => true)) (fun _ => None) (fun _ _ => false)
    (lit "80mm") (lit "normal") (lit "normal") 76
    (Elem (lit "img") [(lit "src", lit "data:image/png;base64,AAAA")] [] :: []) []
  = process_children (reject_when (fun _ => true)) (fun _ => None) (fun _ _ => false)
      (lit "80mm") (lit "normal") (lit "normal") 76 [] [].
Proof.
  apply (malformed_image_is_skipped (reject_when (fun _ => true)) (fun _ => None)
           (fun _ _ => false) (lit "80mm") (lit "normal") (lit "normal") 76
           [(lit "src", lit "data:image/png;base64,AAAA")] [] [] []).
  - reflexivity.
  - reflexivity.
  - reflexivity.
Defined.

(** ** The reduction of an overflowing row, column by column *)

(** No column grows in the reduction, except a column of width 0, which
    becomes 1. *)
Lemma scaled_widths_shrink (mf : positive) (ef : Z) (c : R) (ws : list Z) :
  canonical mf -> - 1052 <= ef <= - 51 ->
  (0 < c)%R ->
  (c * (1 - eps) <= F2R (Zpos mf) ef <= c * (1 + eps))%R ->
  (c * ((1 + eps) * (1 + eps) * (1 + eps)) <= 1)%R ->
  Forall (fun w => 0 <= w < 2 ^ 1000) ws ->
  forall ss,
    rmap (scale_width (S754_finite false mf ef)) ws = Ok ss ->
    Forall2 (fun w s => 1 <= s <= Z.max 1 w) ws ss.
Proof.
  intros Hcf Hef Hc Hf Hk Hws. induction Hws as [|w ws Hw Hws IH]; intros ss Hss.
  - simpl in Hss. injection Hss as <-. constructor.
  - cbn [rmap] in Hss.
    destruct (scale_width_core mf ef c w Hcf Hef Hc Hf Hw) as (x & v & Hx & Hv & Hv0 & Hb).
    assert (Hs : scale_width (S754_finite false mf ef) w = Ok (Z.max 1 v))
      by (unfold scale_width; rewrite Hx; cbn [rbind]; now rewrite Hv).
    rewrite Hs in Hss. cbn [rbind] in Hss.
    destruct (rmap (scale_width (S754_finite false mf ef)) ws) as [ss'|e] eqn:Er;
      cbn [rbind] in Hss; [|discriminate].
    injection Hss as <-. constructor; [|now apply IH].
    assert (Hvw : v <= w).
    { apply le_IZR. destruct Hw as [Hw0 _].
      assert (0 <= IZR w)%R by (apply IZR_le; lia).
      apply Rle_trans with (IZR w * c * ((1 + eps) * (1 + eps) * (1 + eps)))%R; [lra|].
      rewrite Rmult_assoc. rewrite <- (Rmult_1_r (IZR w)) at 2.
      apply Rmult_le_compat_l; assumption. }
    lia.
Qed.

(** C6, as the code has it: when the resolved widths of a multi-column
    row sum to more than the table width, the float
    [factor = table_width / sum] is computed, every width [w] is replaced
    by [max(1, int(w * factor))], which is at least 1 and never more than
    [max(1, w)], the sum of the new widths misses the table width by at
    most one character per column, the first [|diff|] columns are
    corrected by one character, and the final widths sum to the table
    width exactly; nothing raises. This holds for table widths below
    [2^50] and sums below [2^1000]. *)
Theorem overflowing_widths_are_fitted
  (table_width : Z) (cells : list node) (styles : list style_info)
  (declared col_widths : list Z) :
  cell_styles_from 0 cells (cell_texts cells) = Ok styles ->
  rmap (initial_width table_width) styles = Ok declared ->
  distribute_flexible table_width styles declared = Ok col_widths ->
  0 < table_width < 2 ^ 50 ->
  table_width < zsum col_widths < 2 ^ 1000 ->
  exists factor scaled,
    int_truediv table_width (zsum col_widths) = Ok factor /\
    rmap (scale_width factor) col_widths = Ok scaled /\
    Forall2 (fun w s => 1 <= s <= Z.max 1 w) col_widths scaled /\
    let diff := table_width - zsum scaled in
    let final :=
      bump (Z.to_nat (Z.abs diff)) (if diff >? 0 then 1 else -1) scaled in
    Z.abs diff <= Z.of_nat (List.length col_widths) /\
    column_widths table_width styles = Ok final /\
    List.length final = List.length col_widths /\
    zsum final = table_width.
Proof.
  intros Hstyles Hdecl Hdist [Htw0 Htw1] [Hov Hbig].
  assert (Hws : Forall (fun w => 0 <= w) col_widths).
  { destruct (cell_styles_from_spec cells _ _ _ Hstyles) as [_ Hfix].
    destruct (initial_widths_spec table_width styles declared Hfix Hdecl) as [_ Hpos].
    apply (distribute_flexible_spec table_width styles declared col_widths Hdist Hpos). }
  set (total := zsum col_widths) in *.
  assert (Hd1 : 1 <= Zdigits2 table_width) by (destruct table_width; cbn; lia).
  assert (Hd2 : Zdigits2 total <= 1000) by (apply Zdigits2_le; lia).
  assert (Hd12 : Zdigits2 table_width <= Zdigits2 total).
  { destruct total as [|pt|pt] eqn:Et; try lia.
    apply Zdigits2_le; [lia|]. pose proof (Zdigits2_bounds pt). lia. }
  destruct (int_truediv_bound table_width total ltac:(lia) ltac:(lia) ltac:(lia) ltac:(lia))
    as (mf & ef & Hdiv & Hcf & Hef & Hbf).
  set (c := (IZR table_width / IZR total)%R) in *.
  assert (HT : (0 < IZR table_width)%R) by (apply IZR_lt; lia).
  assert (HS : (0 < IZR total)%R) by (apply IZR_lt; lia).
  assert (Hc : (0 < c)%R) by (apply Rdiv_lt_0_compat; assumption).
  assert (Hsc : (IZR total * c = IZR table_width)%R) by (unfold c; field; lra).
  assert (Hall : Forall (fun w => 0 <= w < 2 ^ 1000) col_widths).
  { eapply Forall_impl; [|exact (nonneg_below_sum col_widths Hws)].
    cbn. fold total. intros. lia. }
  destruct (scaled_sum_bound mf ef c col_widths Hcf ltac:(lia) Hc Hbf Hall)
    as (ss & Hss & Hlen & Hone & Hb).
  fold total in Hb. rewrite Hsc in Hb.
  (* the rounding error of the whole row is below one character *)
  pose proof eps_pos as E0. pose proof eps_small as E1.
  assert (Hte : (IZR table_width * eps < 1 / 4)%R).
  { assert (H50 : (IZR table_width < IZR (2 ^ 50))%R) by (apply IZR_lt; lia).
    rewrite IZR_pow2 in H50 by lia.
    assert (Hpp : (powerRZ 2 50 * eps = 1 / 4)%R).
    { unfold eps. rewrite <- powerRZ_add by lra. change (50 + -52) with (-2).
      unfold powerRZ. change (Pos.to_nat 2) with 2%nat. cbn [pow]. lra. }
    rewrite <- Hpp. apply Rmult_lt_compat_r; assumption. }
  assert (Hup : ((1 + eps) * (1 + eps) * (1 + eps) <= 1 + 4 * eps)%R) by nra.
  assert (Hdn : (1 - 3 * eps <= (1 - eps) * (1 - eps) * (1 - eps))%R) by nra.
  assert (Hhi : (IZR table_width * ((1 + eps) * (1 + eps) * (1 + eps))
                 <= IZR table_width + 4 * (IZR table_width * eps))%R) by nra.
  assert (Hlo : (IZR table_width - 3 * (IZR table_width * eps)
                 <= IZR table_width * ((1 - eps) * (1 - eps) * (1 - eps)))%R) by nra.
  (* the factor, rounded three times, stays at most 1 *)
  assert (Hk : (c * ((1 + eps) * (1 + eps) * (1 + eps)) <= 1)%R).
  { assert (Hst : (IZR table_width + 1 <= IZR total)%R)
      by (rewrite <- plus_IZR; apply IZR_le; lia).
    apply Rmult_le_reg_l with (IZR total); [exact HS|].
    rewrite <- Rmult_assoc, Hsc, Rmult_1_r. lra. }
  pose proof (scaled_widths_shrink mf ef c col_widths Hcf ltac:(lia) Hc Hbf Hk Hall ss Hss)
    as Hshrink.
  rewrite INR_IZR_INZ in Hb.
  set (n := Z.of_nat (List.length col_widths)) in *.
  assert (H1 : table_width - n - 1 < zsum ss).
  { apply lt_IZR. rewrite !minus_IZR. lra. }
  assert (H2 : zsum ss < table_width + n + 1).
  { apply lt_IZR. rewrite !plus_IZR. lra. }
  assert (Hn : 0 <= n) by (unfold n; lia).
  exists (S754_finite false mf ef), ss.
  split; [exact Hdiv|]. split; [exact Hss|]. split; [exact Hshrink|].
  cbv zeta. split; [lia|].
  assert (Hmin : Nat.min (Z.to_nat (Z.abs (table_width - zsum ss))) (List.length ss)
                 = Z.to_nat (Z.abs (table_width - zsum ss))).
  { apply Nat.min_l. rewrite Hlen. unfold n in *. lia. }
  split; [|split].
  - unfold column_widths. rewrite Hdecl. cbn [rbind]. rewrite Hdist. cbn [rbind].
    unfold fit_total. fold total.
    assert (Hgt : (total >? table_width) = true) by (apply Z.gtb_lt; lia).
    rewrite Hgt. unfold scaled_widths. fold total. rewrite Hdiv. cbn [rbind].
    rewrite Hss. cbn [rbind]. rewrite Hmin. reflexivity.
  - rewrite bump_length. exact Hlen.
  - rewrite bump_sum. rewrite Nat2Z.inj_min, Z2Nat.id by lia. rewrite Hlen. fold n.
    rewrite Z.min_l by lia.
    destruct (table_width - zsum ss >? 0) eqn:Ed.
    + apply Z.gtb_lt in Ed. lia.
    + assert (table_width - zsum ss <= 0)
        by (destruct (Z.gtb_spec (table_width - zsum ss) 0); [discriminate|lia]).
      lia.
Qed.

Lemma overflowing_widths_are_fitted_witness :
  exists factor scaled,
    int_truediv 48 (zsum [60; 0]) = Ok factor /\
    rmap (scale_width factor) [60; 0] = Ok scaled /\
    Forall2 (fun w s => 1 <= s <= Z.max 1 w) [60; 0] scaled /\
    let diff := 48 - zsum scaled in
    let final :=
      bump (Z.to_nat (Z.abs diff)) (if diff >? 0 then 1 else -1) scaled in
    Z.abs diff <= Z.of_nat (List.length [60; 0]) /\
    column_widths 48 overfull_styles = Ok final /\
    List.length final = List.length [60; 0] /\
    zsum final = 48.
Proof.
  apply (overflowing_widths_are_fitted 48 overfull_cells overfull_styles [60; 0] [60; 0]).
  - vm_compute. reflexivity.
  - vm_compute. reflexivity.
  - vm_compute. reflexivity.
  - split; reflexivity.
  - split; reflexivity.
Defined.

(** C6 as stated fails for a declared width that no double can hold: the
    row [<td style="width:1000...0ch">A</td><td>B</td>] (310 digits)
    resolves to widths whose sum exceeds the table width, the product
    [w * factor] raises [OverflowError] for the first column, and the row
    yields no widths and no line. *)
Lemma huge_width_row_raises :
  (exists styles declared,
     cell_styles_from 0 huge_width_cells (cell_texts huge_width_cells) = Ok styles /\
     rmap (initial_width 48) styles = Ok declared /\
     distribute_flexible 48 styles declared = Ok [10 ^ 309; 0] /\
     48 < zsum [10 ^ 309; 0] /\
     column_widths 48 styles = Raise OverflowError) /\
  table_row_line 48 huge_width_cells = Raise OverflowError.
Proof.
  split; [|vm_compute; reflexivity].
  eexists. eexists. split; [vm_compute; reflexivity|].
  split; [vm_compute; reflexivity|].
  split; [vm_compute; reflexivity|].
  split; [vm_compute; reflexivity|vm_compute; reflexivity].
Qed.
